(** * code-challenge: sum-to-n and the currency-swap calculator

    A shallow embedding of [src/problem1/index.js] and of the rate table,
    the conversion engine, the price feed, the currency dropdowns and the
    swap confirmation of [src/problem2/script.js].

    JavaScript numbers are IEEE 754 binary64 values.  The embedding is
    written once against a small interface of the number operations the
    scripts use ([JsNumber]) and is instantiated twice:

    - [Binary64.number]: the binary64 semantics itself, through the
      executable specification [SpecFloat] of the Standard Library
      (round to nearest, ties to even; NaN, infinities, signed zeros);
    - [Exact.number]: the same code run in exact rational arithmetic,
      the reading in which a specification speaks of [amount * rate].

    Statements that do not depend on arithmetic are proved for every
    instance of the interface. *)

From Stdlib Require Import ZArith QArith Qcanon Qround Qpower Qabs Lia Lqa.
From Stdlib Require Import Floats.SpecFloat.
From stdpp Require Import gmap strings list fin_maps.

Local Open Scope string_scope.
Local Open Scope Z_scope.

(** ** Completion records: a call returns a value or throws *)

(** [EngineLimit] is the end of a call that asks more of the engine
    than it holds: V8 ends it with a [RangeError] of its own or ends the
    process, out of memory. *)
Inductive Exception :=
  | Error (message : string)
  | RangeError (message : string)
  | EngineLimit.

Inductive Completion (A : Type) :=
  | Return (a : A)
  | Throw (e : Exception).
Arguments Return {A} a.
Arguments Throw {A} e.

(** ** The number interface *)

Class JsNumber (R : Type) := {
  (** the Number value of an integer literal or index *)
  ofZ : Z → R;
  add : R → R → R;
  mul : R → R → R;
  div : R → R → R;
  (** [x < y], [x <= y] and [x === y] on numbers *)
  ltb : R → R → bool;
  leb : R → R → bool;
  eqb : R → R → bool;
  isNaN : R → bool;
  (** ToBoolean on a number: false for [0], [-0] and [NaN] *)
  truthy : R → bool;
  (** [Math.round] *)
  round : R → R;
  (** ToLength, as applied to the [length] of an array-like *)
  toLength : R → Z;
}.

(** A decimal literal [digits * 10^-scale], such as [0.85 = decimal 85 2].
    Both operands are exact and the quotient is rounded once, which is how
    a decimal literal is read. *)
Definition decimal `{JsNumber R} (digits : Z) (scale : nat) : R :=
  div (ofZ digits) (ofZ (10 ^ Z.of_nat scale)).

(** ** binary64 *)

Module Binary64.

Definition number := spec_float.

Definition prec : Z := 53.
Definition emax : Z := 1024.

Definition of_Z (z : Z) : number := binary_normalize prec emax z 0 false.

Definition is_nan (x : number) : bool :=
  match x with S754_nan => true | _ => false end.

Definition is_finite (x : number) : bool :=
  match x with S754_zero _ | S754_finite _ _ _ => true | _ => false end.

Definition to_boolean (x : number) : bool :=
  match x with S754_zero _ | S754_nan => false | _ => true end.

(** [Math.round x]: the integer closest to [x], ties towards +∞; an
    integral [x], an infinity and NaN are returned as they are, and a
    result of zero keeps the sign of [x].  For a finite [x = ±m * 2^e]
    with [e < 0] the integer [⌊x + 1/2⌋] is computed exactly. *)
Definition math_round (x : number) : number :=
  match x with
  | S754_finite s m e =>
      if 0 <=? e then x
      else
        let M := cond_Zopp s (Z.pos m) in
        let z := (2 * M + 2 ^ (- e)) / 2 ^ (- e + 1) in
        if z =? 0 then S754_zero s else of_Z z
  | _ => x
  end.

(** The integer part of a finite value, towards zero. *)
Definition truncate (x : number) : Z :=
  match x with
  | S754_finite s m e =>
      cond_Zopp s (if 0 <=? e then Z.pos m * 2 ^ e else Z.pos m / 2 ^ (- e))
  | _ => 0
  end.

(** ToLength: NaN and negatives give 0, the rest is truncated and
    clamped to [2^53 - 1]. *)
Definition to_length (x : number) : Z :=
  match x with
  | S754_infinity false => 2 ^ 53 - 1
  | S754_finite false _ _ => Z.min (truncate x) (2 ^ 53 - 1)
  | _ => 0
  end.

#[export] Instance binary64 : JsNumber number := {
  ofZ := of_Z;
  add := SFadd prec emax;
  mul := SFmul prec emax;
  div := SFdiv prec emax;
  ltb := SFltb;
  leb := SFleb;
  eqb := SFeqb;
  isNaN := is_nan;
  truthy := to_boolean;
  round := math_round;
  toLength := to_length;
}.

(** The rational value of a finite number, as numerator and exponent of
    two: [x = mantissa x * 2 ^ exponent x]. *)
Definition mantissa (x : number) : Z :=
  match x with
  | S754_finite s m _ => cond_Zopp s (Z.pos m)
  | _ => 0
  end.

Definition exponent (x : number) : Z :=
  match x with
  | S754_finite _ _ e => e
  | _ => 0
  end.

(** [x < 0]: a negative finite value or [-∞]; [-0] is not negative. *)
Definition is_negative (x : number) : bool :=
  match x with
  | S754_infinity true | S754_finite true _ _ => true
  | _ => false
  end.

(** The value of [x] is above the integer [n]. *)
Definition exceeds (n : Z) (x : number) : Prop :=
  match x with
  | S754_infinity false => True
  | S754_finite false m e =>
      if 0 <=? e then n < Z.pos m * 2 ^ e else n * 2 ^ (- e) < Z.pos m
  | _ => False
  end.

(** [m] at exponent [e] is the number of the integer value [z]. *)
Definition represents (m : positive) (e z : Z) : Prop :=
  bounded prec emax m e = true ∧ e ≤ 0 ∧ Z.pos m = z * 2 ^ (- e).

(** [2^e] and the rational value of a number. *)
Definition bpow (e : Z) : Q := (2 ^ e)%Q.

Definition value (x : number) : Q :=
  match x with
  | S754_finite s m e => (inject_Z (cond_Zopp s (Z.pos m)) * bpow e)%Q
  | _ => 0%Q
  end.

(** A positive normal number between [2^-9] and [2^9]. *)
Definition rate_in_range (rate : number) : bool :=
  match rate with
  | S754_finite false m e =>
      (Z.pos (digits2_pos m) =? 53) && (-61 <=? e) && (e <=? -44)
  | _ => false
  end.

(** Zero, or a positive number. *)
Definition nonneg (x : number) : bool :=
  match x with
  | S754_zero false => true
  | S754_finite false m e => bounded prec emax m e
  | _ => false
  end.

(** [r] is within the relative error [2^-53] of [v]. *)
Definition rel53 (v r : Q) : Prop :=
  (inject_Z (2 ^ 53) * (r - v) <= v ∧ inject_Z (2 ^ 53) * (v - r) <= v)%Q.

(** The round and sticky bits of a shifted significand place the exact
    significand [X] between [m] and [m + 1]. *)
Definition located (X : Q) (mrs : shr_record) : Prop :=
  let m := inject_Z (shr_m mrs) in
  (m <= X < m + 1)%Q
  ∧ match shr_r mrs, shr_s mrs with
    | false, false => (X == m)%Q
    | false, true => (m < X < m + (1 # 2))%Q
    | true, false => (X == m + (1 # 2))%Q
    | true, true => (m + (1 # 2) < X)%Q
    end.

(** [1 + 2 + ... + i] *)
Definition triangle (i : Z) : Z := i * (i + 1) / 2.

End Binary64.

(** ** Exact rational arithmetic *)

Module Exact.

Definition number := Qc.

Definition of_Z (z : Z) : number := Q2Qc (inject_Z z).

(** [⌊x + 1/2⌋] *)
Definition math_round (x : number) : number :=
  of_Z (Qfloor (x + Q2Qc (1 # 2))%Qc).

Definition to_length (x : number) : Z :=
  Z.min (Z.max 0 (Qfloor x)) (2 ^ 53 - 1).

#[export] Instance exact : JsNumber number := {
  ofZ := of_Z;
  add := Qcplus;
  mul := Qcmult;
  div := Qcdiv;
  ltb x y := bool_decide (x < y)%Qc;
  leb x y := bool_decide (x <= y)%Qc;
  eqb x y := bool_decide (x = y);
  isNaN _ := false;
  truthy x := negb (bool_decide (x = of_Z 0));
  round := math_round;
  toLength := to_length;
}.

End Exact.

(** ** Problem 1: three ways to sum to n *)

(** The longest array V8 holds: it fills one of [2^27 - 1] elements
    and gives up on [2^27]. *)
Definition max_array_length : Z := 2 ^ 27 - 1.

Section Problem1.
Context {R : Type} `{JsNumber R}.

(** [for (let i = 1; i <= n; i++) sum += i], with a bound on the number
    of times the test is evaluated. *)
Fixpoint sumIteratively_loop (fuel : nat) (n i sum : R) : option R :=
  match fuel with
  | O => None
  | S fuel =>
      if leb i n then sumIteratively_loop fuel n (add i (ofZ 1)) (add sum i)
      else Some sum
  end.

Definition sumIteratively (fuel : nat) (n : R) : option R :=
  sumIteratively_loop fuel n (ofZ 1) (ofZ 0).

(** [Array.from({ length: n }, (_, i) => i + 1)]: the array constructor
    refuses a length above [2^32 - 1] with a [RangeError], and the
    engine holds no array of more than [max_array_length] elements. *)
Definition Array_from_length (n : R) (mapFn : R → R) : Completion (list R) :=
  let len := toLength n in
  if 2 ^ 32 - 1 <? len then Throw (RangeError "Invalid array length")
  else if max_array_length <? len then Throw EngineLimit
  else Return (map (λ i, mapFn (ofZ i)) (seqZ 0 len)).

Definition sumWithReduce (n : R) : Completion R :=
  match Array_from_length n (λ i, add i (ofZ 1)) with
  | Return array => Return (fold_left (λ sum num, add sum num) array (ofZ 0))
  | Throw e => Throw e
  end.

Definition sumWithFormula (n : R) : R :=
  div (mul n (add n (ofZ 1))) (ofZ 2).

End Problem1.

(** ** Problem 2: the currency-swap calculator *)

(** A price snapshot is the parsed JSON object: token symbols in
    [Object.keys] order, each with a number or [null]. *)
Definition Snapshot (R : Type) := list (string * option R).

(** The script's mutable globals. *)
Record Globals (R : Type) := {
  exchangeRates : gmap string R;
  pricesCache : option (Snapshot R);
  formatters : gmap string string;
}.
Arguments exchangeRates {R} _.
Arguments pricesCache {R} _.
Arguments formatters {R} _.

(** A script function reads and writes the globals and returns or throws. *)
Definition Script (R A : Type) := Globals R → Completion A * Globals R.

#[export] Instance script_ret {R} : MRet (Script R) := λ A a g, (Return a, g).
#[export] Instance script_bind {R} : MBind (Script R) := λ A B k c g,
  match c g with
  | (Return a, g') => k a g'
  | (Throw e, g') => (Throw e, g')
  end.
Definition throw {R A} (e : Exception) : Script R A := λ g, (Throw e, g).
Definition lift {R A} (c : Completion A) : Script R A := λ g, (c, g).
Definition gets {R A} (f : Globals R → A) : Script R A := λ g, (Return (f g), g).
Definition modify {R} (f : Globals R → Globals R) : Script R unit :=
  λ g, (Return tt, f g).
(** [try { c } catch (error) { h error }] *)
Definition try_catch {R A} (c : Script R A) (h : Exception → Script R A)
  : Script R A :=
  λ g, match c g with
       | (Return a, g') => (Return a, g')
       | (Throw e, g') => h e g'
       end.

Inductive Value (R : Type) :=
  | VNumber (x : R)
  | VString (s : string)
  | VBoolean (b : bool)
  | VNull
  | VUndefined.
Arguments VNumber {R} x.
Arguments VString {R} s.
Arguments VBoolean {R} b.
Arguments VNull {R}.
Arguments VUndefined {R}.

(** What the response of [fetch] can be. *)
Inductive Response (R : Type) :=
  | NetworkFailure
  | HttpResponse (ok : bool) (json : Snapshot R).
Arguments NetworkFailure {R}.
Arguments HttpResponse {R} ok json.

(** What [updateOutputAmount] leaves on the page: the output field,
    empty ([None]) or showing a number to two decimals, and the error
    banner, hidden ([None]) or showing a message. *)
Record Display (R : Type) := {
  output_field : option R;
  error_banner : option string;
}.
Arguments output_field {R} _.
Arguments error_banner {R} _.

Definition message_of (e : Exception) : string :=
  match e with
  | Error m | RangeError m => m
  | EngineLimit => ""
  end.

(** IsWellFormedCurrencyCode of ECMA-402: exactly three ASCII letters. *)
Definition is_ascii_letter (c : Ascii.ascii) : bool :=
  let n := Ascii.nat_of_ascii c in
  ((65 <=? n) && (n <=? 90) || (97 <=? n) && (n <=? 122))%nat.

Fixpoint all_ascii_letters (s : string) : bool :=
  match s with
  | EmptyString => true
  | String c s => is_ascii_letter c && all_ascii_letters s
  end.

Definition IsWellFormedCurrencyCode (currency : string) : bool :=
  (String.length currency =? 3)%nat && all_ascii_letters currency.

(** An [<option>] of a currency select: its [value], its [textContent]
    and its [dataset.crypto]. *)
Record OptionElement := {
  option_value : string;
  option_text : string;
  option_crypto : bool;
}.

(** The submit button and the toasts put on the page so far. *)
Inductive ButtonContent := ConfirmSwapLabel | ProcessingSpinner.

Record SubmitButton := {
  disabled : bool;
  content : ButtonContent;
  loading : bool;
}.

Record Toast := {
  toast_message : string;
  toast_type : string;
}.

Record SwapPage := {
  confirmSwap : SubmitButton;
  toasts : list Toast;
}.

Section Problem2.
Context {R : Type} `{JsNumber R}.

(** [new Map(entries)] and [map.set(key, value)] *)
Definition Map_set (rates : gmap string R) (key : string) (value : R)
  : gmap string R := <[key := value]> rates.

Definition Map_from (entries : list (string * R)) : gmap string R :=
  fold_left (λ rates kv, Map_set rates kv.1 kv.2) entries ∅.

Definition MOCK_ENTRIES : list (string * R) :=
  [ ("USD_EUR", decimal 85 2);
    ("USD_GBP", decimal 73 2);
    ("USD_JPY", decimal 1100 1);
    ("EUR_USD", decimal 118 2);
    ("EUR_GBP", decimal 86 2);
    ("EUR_JPY", decimal 12953 2);
    ("GBP_USD", decimal 137 2);
    ("GBP_EUR", decimal 116 2);
    ("GBP_JPY", decimal 15075 2);
    ("JPY_USD", decimal 91 4);
    ("JPY_EUR", decimal 77 4);
    ("JPY_GBP", decimal 66 4) ].

Definition MOCK_RATES : gmap string R := Map_from MOCK_ENTRIES.

(** [let exchangeRates = new Map(MOCK_RATES); let pricesCache = null;
    const formatters = new Map()] *)
Definition initial_globals : Globals R :=
  {| exchangeRates := MOCK_RATES; pricesCache := None; formatters := ∅ |}.

(** [new Intl.NumberFormat('en-US', { style: 'currency', currency })]
    throws a [RangeError] unless the code is well formed (the text of
    the message is the engine's).  A formatter is stood for by the
    currency code it was built with. *)
Definition getCurrencyFormatter (currencyCode : string) : Script R string :=
  fs ← gets formatters;
  (if bool_decide (is_Some (fs !! currencyCode)) then mret tt
   else if IsWellFormedCurrencyCode currencyCode then
     modify (λ g, {| exchangeRates := exchangeRates g;
                     pricesCache := pricesCache g;
                     formatters := <[currencyCode := currencyCode]> (formatters g) |})
   else throw (RangeError ("Invalid currency code : " +:+ currencyCode)));;
  fs ← gets formatters;
  mret (default "" (fs !! currencyCode)).

(** The data of a response that is [ok] and parses; every other
    response ends in the [catch]. *)
Definition delivered (response : Response R) : option (Snapshot R) :=
  match response with
  | HttpResponse true data => Some data
  | _ => None
  end.

Definition fetchPrices (response : Response R) : Script R (option (Snapshot R)) :=
  cache ← gets pricesCache;
  match cache with
  | Some prices => mret (Some prices)
  | None =>
      match response with
      | HttpResponse true data =>
          modify (λ g, {| exchangeRates := exchangeRates g;
                          pricesCache := Some data;
                          formatters := formatters g |});;
          mret (Some data)
      | _ => mret None
      end
  end.

Definition Object_keys (prices : Snapshot R) : list string := prices.*1.

(** [prices[token]]; [None] is [null]. *)
Definition price_of (prices : Snapshot R) (token : string) : option R :=
  match find (λ kv, String.eqb kv.1 token) prices with
  | Some (_, price) => price
  | None => None
  end.

Definition usd_rates (prices : Snapshot R) (rates : gmap string R)
    (token : string) : gmap string R :=
  match price_of prices token with
  | Some price =>
      if truthy price && negb (eqb price (ofZ 0)) then
        let rates := Map_set rates ("USD_" +:+ token) (div (ofZ 1) price) in
        Map_set rates (token +:+ "_USD") price
      else rates
  | None => rates
  end.

Definition cross_rate (prices : Snapshot R) (fromToken : string)
    (rates : gmap string R) (toToken : string) : gmap string R :=
  if negb (String.eqb fromToken toToken) then
    match price_of prices fromToken, price_of prices toToken with
    | Some fromRate, Some toRate =>
        if truthy fromRate && truthy toRate && negb (eqb fromRate (ofZ 0))
        then Map_set rates (fromToken +:+ "_" +:+ toToken) (div fromRate toRate)
        else rates
    | _, _ => rates
    end
  else rates.

Definition buildExchangeRates (prices : option (Snapshot R)) : gmap string R :=
  match prices with
  | None => MOCK_RATES
  | Some prices =>
      if (length (Object_keys prices) =? 0)%nat then MOCK_RATES
      else
        let rates : gmap string R := ∅ in
        let tokens :=
          filter (λ t, is_Some (price_of prices t)) (Object_keys prices) in
        let rates := fold_left (usd_rates prices) tokens rates in
        let rates :=
          fold_left (λ rates fromToken,
                       fold_left (cross_rate prices fromToken) tokens rates)
                    tokens rates in
        let rates :=
          fold_left (λ rates kv, Map_set rates kv.1 kv.2) MOCK_ENTRIES rates in
        if (0 <? size rates)%nat then rates else MOCK_RATES
  end.

(** A currency the two loops write rates for: USD, or a token whose
    price is neither null nor falsy. *)
Definition priced (prices : Snapshot R) (currency : string) : Prop :=
  currency = "USD"
  ∨ ∃ price, price_of prices currency = Some price ∧ truthy price = true.

(** The tokens the two loops run over, and the table they leave before
    the static entries are written. *)
Definition tokens_of (prices : Snapshot R) : list string :=
  filter (λ t, is_Some (price_of prices t)) (Object_keys prices).

Definition derived_table (prices : Snapshot R) : gmap string R :=
  fold_left (λ rates fromToken,
               fold_left (cross_rate prices fromToken) (tokens_of prices) rates)
            (tokens_of prices)
            (fold_left (usd_rates prices) (tokens_of prices) ∅).

(** [updateAvailableCurrencies] only touches the page. *)
Definition initializeRates (response : Response R) : Script R unit :=
  prices ← fetchPrices response;
  match prices with
  | Some prices =>
      modify (λ g, {| exchangeRates := buildExchangeRates (Some prices);
                      pricesCache := pricesCache g;
                      formatters := formatters g |})
  | None => mret tt
  end.

Definition validateInput (value : Value R) : Completion (Value R) :=
  match value with
  | VNumber x =>
      if isNaN x then Throw (Error "Input must be a valid number")
      else if ltb x (ofZ 0) then Throw (Error "Input must be non-negative")
      else if ltb (ofZ 1000000) x then Throw (Error "Amount too large")
      else Return value
  | _ => Throw (Error "Input must be a valid number")
  end.

Definition convertToCents (amount : R) : R := round (mul amount (ofZ 100)).

Definition convertFromCents (cents : R) : R := div cents (ofZ 100).

Definition getConversionRate (fromCurrency toCurrency : string) : Script R R :=
  if String.eqb fromCurrency toCurrency then mret (ofZ 1)
  else
    let rateKey := fromCurrency +:+ "_" +:+ toCurrency in
    rates ← gets exchangeRates;
    match rates !! rateKey with
    | None => throw (Error ("Exchange rate not available for " +:+ rateKey))
    | Some rate => mret rate
    end.

Definition performConversion (amountInCents : R)
    (fromCurrency toCurrency : string) : Script R R :=
  rate ← getConversionRate fromCurrency toCurrency;
  let convertedCents := round (mul amountInCents rate) in
  mret convertedCents.

(** The body of the [try] in [updateOutputAmount]: the specification's
    [convert(amount, from, to)]. *)
Definition convert (inputAmount : R) (fromCurrency toCurrency : string)
  : Script R R :=
  lift (validateInput (VNumber inputAmount));;
  let inputCents := convertToCents inputAmount in
  outputCents ← performConversion inputCents fromCurrency toCurrency;
  let outputAmount := convertFromCents outputCents in
  mret outputAmount.

(** [updateOutputAmount], with the parsed input field and the two
    selections as arguments and the page as result. *)
Definition updateOutputAmount (inputAmount : R)
    (fromCurrency toCurrency : string) : Script R (Display R) :=
  if isNaN inputAmount || eqb inputAmount (ofZ 0) then
    mret {| output_field := None; error_banner := None |}
  else
    try_catch
      (outputAmount ← convert inputAmount fromCurrency toCurrency;
       mret {| output_field := Some outputAmount; error_banner := None |})
      (λ error,
         mret {| output_field := None;
                 error_banner := Some (message_of error) |}).

(** The reference the specification compares with: [x] rounded to two
    decimals. *)
Definition round2 (x : R) : R := div (round (mul x (ofZ 100))) (ofZ 100).

(** The currencies the dropdowns always hold: the array literal
    [['USD', 'EUR', 'GBP', 'JPY']]. *)
Definition TRADITIONAL : list string := ["USD"; "EUR"; "GBP"; "JPY"].

Definition addCurrencyOption (select : list OptionElement)
    (currency : string) (isCrypto : bool) : list OptionElement :=
  select ++ [{| option_value := currency;
                option_text := currency +:+ (if isCrypto then " (Crypto)" else "");
                option_crypto := isCrypto |}].

(** [updateAvailableCurrencies], as it rewrites the options of either
    select (both get the same); which option ends up selected and the
    icons are left out. *)
Definition updateAvailableCurrencies (prices : option (Snapshot R))
    (select : list OptionElement) : list OptionElement :=
  match prices with
  | None => select
  | Some prices =>
      let tokens :=
        filter (λ t, is_Some (price_of prices t)) (Object_keys prices) in
      let select : list OptionElement := [] in
      let select :=
        fold_left (λ select currency, addCurrencyOption select currency false)
                  TRADITIONAL select in
      fold_left (λ select token,
                   if negb (existsb (String.eqb token) TRADITIONAL)
                   then addCurrencyOption select token true
                   else select)
                tokens select
  end.

(** The button as [hideLoading] leaves it. *)
Definition restored : SubmitButton :=
  {| disabled := false; content := ConfirmSwapLabel; loading := false |}.

(** The formatter cache holds well-formed codes only. *)
Definition cache_well_formed (g : Globals R) : Prop :=
  ∀ code, is_Some (formatters g !! code) → IsWellFormedCurrencyCode code = true.

Definition showLoading (page : SwapPage) : SwapPage :=
  {| confirmSwap := {| disabled := true; content := ProcessingSpinner;
                       loading := true |};
     toasts := toasts page |}.

Definition hideLoading (page : SwapPage) : SwapPage :=
  {| confirmSwap := {| disabled := false; content := ConfirmSwapLabel;
                       loading := false |};
     toasts := toasts page |}.

Definition showToast (message type : string) (page : SwapPage) : SwapPage :=
  {| confirmSwap := confirmSwap page;
     toasts := toasts page ++ [{| toast_message := message; toast_type := type |}] |}.

(** [handleSwapSubmit], with the parsed input field and the two
    selections as arguments; [format formatter amount] is what
    [formatter.format(amount)] prints.  The [try], its [catch] and its
    [finally] are written out; the simulated delay is left out. *)
Definition handleSwapSubmit (format : string → R → string) (amount : R)
    (fromCurrency toCurrency : string) (page : SwapPage) (g : Globals R)
  : SwapPage * Globals R :=
  let '(page, g) :=
    match validateInput (VNumber amount) with
    | Throw error => (showToast (message_of error) "error" page, g)
    | Return _ =>
        let page := showLoading page in
        match getCurrencyFormatter fromCurrency g with
        | (Throw error, g) => (showToast (message_of error) "error" page, g)
        | (Return formatter, g) =>
            let formattedAmount := format formatter amount in
            (showToast ("Swap confirmed: " +:+ formattedAmount +:+ " "
                        +:+ fromCurrency +:+ " to " +:+ toCurrency)
                       "success" page, g)
        end
    end in
  (hideLoading page, g).

End Problem2.

(** ** The claims of the specification, as it words them *)

(** True when [s] contains the separator of the rate keys. *)
Fixpoint has_underscore (s : string) : bool :=
  match s with
  | EmptyString => false
  | String c s => Ascii.eqb c (Ascii.ascii_of_nat 95) || has_underscore s
  end.

Section Claims.
Context {R : Type} `{JsNumber R}.

(** "within [tolerance]": neither value exceeds the other by more. *)
Definition within (tolerance x y : R) : bool :=
  leb x (add y tolerance) && leb y (add x tolerance).

(** "[convert(amount, from, to)] equals [round(amount * rate, 2)] within
    one minor unit", for a validated amount and a pair of the static
    table. *)
Definition conversion_matches_rounded_product
    (amount : R) (fromCurrency toCurrency : string) : Prop :=
  ∀ rate,
    validateInput (VNumber amount) = Return (VNumber amount) →
    fromCurrency ≠ toCurrency →
    MOCK_RATES !! (fromCurrency +:+ "_" +:+ toCurrency) = Some rate →
    ∃ output,
      (convert amount fromCurrency toCurrency initial_globals).1 = Return output
      ∧ within (decimal 1 2) output (round2 (mul amount rate)) = true.

(** [x] and [y] are amounts of whole cents, at most one cent apart. *)
Definition one_cent_apart (x y : R) : Prop :=
  ∃ z1 z2 : Z, x = decimal z1 2 ∧ y = decimal z2 2 ∧ -1 ≤ z1 - z2 ≤ 1.


(** "the table maps [A_B] to [price[A] / price[B]] (unless [A_B] is a
    static fiat key), [USD_A] to [1 / price[A]] and [A_USD] to
    [price[A]]", for distinct tokens with non-null, non-zero prices. *)
Definition derived_rates (prices : Snapshot R) (A B : string) : Prop :=
  ∀ pa pb,
    A ≠ B →
    price_of prices A = Some pa → eqb pa (ofZ 0) = false →
    price_of prices B = Some pb → eqb pb (ofZ 0) = false →
    let table := buildExchangeRates (Some prices) in
    (MOCK_RATES !! (A +:+ "_" +:+ B) = None →
     table !! (A +:+ "_" +:+ B) = Some (div pa pb))
    ∧ table !! ("USD_" +:+ A) = Some (div (ofZ 1) pa)
    ∧ table !! (A +:+ "_USD") = Some pa.

(** "the three implementations are interchangeable": all three return,
    and return the same value. *)
Definition sums_agree (n : R) : Prop :=
  ∃ value,
    (∃ fuel, sumIteratively fuel n = Some value)
    ∧ sumWithReduce n = Return value
    ∧ sumWithFormula n = value.

End Claims.

(** The conditions of [validateInput], on binary64 values. *)
Definition well_formed (value : Value Binary64.number) : Prop :=
  match value with
  | VNumber x => valid_binary Binary64.prec Binary64.emax x = true
  | _ => True
  end.

Definition finite_number (value : Value Binary64.number) : Prop :=
  match value with
  | VNumber x => Binary64.is_finite x = true
  | _ => False
  end.

Definition negative (value : Value Binary64.number) : Prop :=
  match value with
  | VNumber x => Binary64.is_negative x = true
  | _ => False
  end.

Definition above_ceiling (value : Value Binary64.number) : Prop :=
  match value with
  | VNumber x => Binary64.exceeds 1000000 x
  | _ => False
  end.

(** * Facts *)

(** ** Writes to a rate table *)

Section Tables.
Context {R : Type}.
Implicit Types (rates : gmap string R) (key : string).

(** A loop that reaches a state of [P] in one of its steps, all of whose
    steps keep [P], ends in [P]. *)
Lemma fold_left_reaches {A B} (P : B → Prop) (f : B → A → B) (l : list A) (b : B) :
  (∀ a b, a ∈ l → P b → P (f b a)) →
  (P b ∨ ∃ a, a ∈ l ∧ ∀ b, P (f b a)) →
  P (fold_left f l b).
Proof.
  revert b. induction l as [|a l IH]; intros b Hkeep Hhit; simpl.
  - destruct Hhit as [Hb | (a & Ha & _)]; [done | by apply elem_of_nil in Ha].
  - apply IH.
    + intros a' b' Ha'. apply Hkeep. by right.
    + destruct Hhit as [Hb | (a' & Ha' & Hset)].
      * left. apply Hkeep; [by left | done].
      * apply elem_of_cons in Ha' as [-> | Ha']; [by left | right; eauto].
Qed.

(** A loop none of whose steps touches [key] leaves it as it was. *)
Lemma fold_left_untouched {A} (f : gmap string R → A → gmap string R)
    (l : list A) rates key :
  (∀ a rates, a ∈ l → f rates a !! key = rates !! key) →
  fold_left f l rates !! key = rates !! key.
Proof.
  intros Hf.
  apply (fold_left_reaches (λ m, m !! key = rates !! key)); [|by left].
  intros a b Ha Hb. by rewrite Hf.
Qed.

Lemma fold_set_union (entries : list (string * R)) rates1 rates2 :
  fold_left (λ rates kv, <[kv.1 := kv.2]> rates) entries (rates1 ∪ rates2)
  = fold_left (λ rates kv, <[kv.1 := kv.2]> rates) entries rates1 ∪ rates2.
Proof.
  revert rates1. induction entries as [|[k v] entries IH]; intros rates1; simpl.
  - done.
  - by rewrite <- IH, insert_union_l.
Qed.

Lemma fold_set_dom (entries : list (string * R)) rates :
  dom (fold_left (λ rates kv, <[kv.1 := kv.2]> rates) entries rates)
  = list_to_set entries.*1 ∪ dom rates.
Proof.
  revert rates. induction entries as [|[k v] entries IH]; intros rates; simpl.
  - by rewrite (left_id_L ∅ (∪)).
  - rewrite IH, dom_insert_L. cbn [fst].
    by rewrite !(assoc_L (∪)), (comm_L (∪) (list_to_set entries.*1) {[k]}).
Qed.

End Tables.

(** ** Rate keys *)

Lemma has_underscore_app (a b : string) :
  has_underscore (a +:+ b) = has_underscore a || has_underscore b.
Proof.
  induction a as [|c a IH]; simpl; [done|].
  rewrite IH. by rewrite orb_assoc.
Qed.

(** Without an underscore in the first code, a key determines its pair. *)
Lemma rate_key_inj (a a' b b' : string) :
  has_underscore a = false → has_underscore a' = false →
  a +:+ "_" +:+ b = a' +:+ "_" +:+ b' → a = a' ∧ b = b'.
Proof.
  revert a'. induction a as [|c a IH]; intros [|c' a']; simpl; intros Ha Ha' Heq.
  - by inversion Heq.
  - inversion Heq; subst. by rewrite Ascii.eqb_refl in Ha'.
  - inversion Heq; subst. by rewrite Ascii.eqb_refl in Ha.
  - apply orb_false_iff in Ha as [_ Ha]. apply orb_false_iff in Ha' as [_ Ha'].
    inversion Heq; subst.
    destruct (IH a' Ha Ha') as [-> ->]; done.
Qed.

(** Codes without an underscore make a key no other pair makes. *)
Lemma rate_key_pair (a b a' b' : string) :
  has_underscore a = false → has_underscore b = false →
  a +:+ "_" +:+ b = a' +:+ "_" +:+ b' → a = a' ∧ b = b'.
Proof.
  intros Ha Hb. revert a' Ha.
  induction a as [|c a IH]; intros [|c' a']; simpl; intros Ha Heq.
  - by inversion Heq.
  - simpl in Heq. injection Heq as _ Hrest.
    change ("" +:+ b) with b in Hrest. subst b.
    rewrite has_underscore_app in Hb. simpl in Hb.
    by rewrite orb_true_r in Hb.
  - inversion Heq; subst. by rewrite Ascii.eqb_refl in Ha.
  - apply orb_false_iff in Ha as [_ Ha]. inversion Heq; subst.
    destruct (IH a' Ha) as [-> ->]; done.
Qed.

Lemma string_length_app (a b : string) :
  String.length (a +:+ b) = (String.length a + String.length b)%nat.
Proof. induction a as [|c a IH]; simpl; [done | by rewrite IH]. Qed.

Lemma string_app_inj_r (a b s : string) : a +:+ s = b +:+ s → a = b.
Proof.
  intros Heq.
  assert (Hlen : String.length a = String.length b).
  { apply (f_equal String.length) in Heq.
    rewrite !string_length_app in Heq. lia. }
  revert b Heq Hlen. induction a as [|c a IH]; intros [|c' b]; simpl; intros Heq Hlen;
    try done.
  inversion Heq; subst. f_equal. apply IH; [done | by inversion Hlen].
Qed.

(** ** The rate table builder *)

Section Builder.
Context {R : Type} `{JsNumber R}.
Implicit Types (prices : Snapshot R) (rates : gmap string R).

Lemma static_merge rates :
  fold_left (λ rates kv, Map_set rates kv.1 kv.2) MOCK_ENTRIES rates
  = MOCK_RATES ∪ rates.
Proof.
  unfold MOCK_RATES, Map_from, Map_set.
  rewrite <- (fold_set_union MOCK_ENTRIES ∅ rates).
  by rewrite (left_id_L ∅ (∪)).
Qed.

Lemma MOCK_RATES_lookup key value :
  (key, value) ∈ MOCK_ENTRIES → MOCK_RATES !! key = Some value.
Proof.
  unfold MOCK_ENTRIES. rewrite !elem_of_cons, elem_of_nil.
  intros Hin.
  repeat (destruct Hin as [Heq | Hin]; [by inversion Heq; subst; vm_compute|]).
  done.
Qed.

Lemma MOCK_RATES_size : size (MOCK_RATES (R:=R)) = 12%nat.
Proof. by vm_compute. Qed.

Lemma MOCK_RATES_dom :
  dom (MOCK_RATES (R:=R)) = list_to_set (MOCK_ENTRIES (R:=R)).*1.
Proof.
  unfold MOCK_RATES, Map_from, Map_set. rewrite fold_set_dom.
  by rewrite dom_empty_L, (right_id_L ∅ (∪)).
Qed.

Lemma MOCK_RATES_entries key value :
  MOCK_RATES !! key = Some value → (key, value) ∈ MOCK_ENTRIES (R:=R).
Proof.
  intros Hlookup.
  assert (Hdom : key ∈ dom (MOCK_RATES (R:=R))) by (apply elem_of_dom; eauto).
  rewrite MOCK_RATES_dom, elem_of_list_to_set in Hdom.
  apply list_elem_of_fmap in Hdom as ([k v] & Hk & Hin).
  pose proof (MOCK_RATES_lookup _ _ Hin) as Hv.
  cbn [fst] in Hk. subst k.
  by replace value with v by congruence.
Qed.

Lemma buildExchangeRates_nonempty prices :
  Object_keys prices ≠ [] →
  buildExchangeRates (Some prices) = MOCK_RATES ∪ derived_table prices.
Proof.
  intros Hkeys. unfold buildExchangeRates.
  destruct (Object_keys prices) as [|k ks] eqn:Hk; [done|]. simpl length.
  replace (S (length ks) =? 0)%nat with false by done.
  rewrite static_merge. fold (tokens_of prices). rewrite <- Hk.
  fold (tokens_of prices). fold (derived_table prices).
  destruct (0 <? size (MOCK_RATES ∪ derived_table prices))%nat eqn:Hsize; [done|].
  apply Nat.ltb_ge in Hsize.
  assert (Hempty : MOCK_RATES ∪ derived_table prices = ∅)
    by (apply map_size_empty_iff; lia).
  assert (Hin : (MOCK_RATES ∪ derived_table prices) !! "USD_EUR"
                = Some (decimal 85 2)).
  { apply lookup_union_Some_l, MOCK_RATES_lookup. by left. }
  by rewrite Hempty, lookup_empty in Hin.
Qed.

Lemma buildExchangeRates_static (snapshot : option (Snapshot R)) key value :
  MOCK_RATES !! key = Some value →
  buildExchangeRates snapshot !! key = Some value.
Proof.
  intros Hstatic. destruct snapshot as [prices|]; [|done].
  destruct (Object_keys prices) as [|k ks] eqn:Hk.
  - unfold buildExchangeRates. by rewrite Hk.
  - rewrite buildExchangeRates_nonempty by (by rewrite Hk).
    by apply lookup_union_Some_l.
Qed.

Lemma buildExchangeRates_derived prices key :
  Object_keys prices ≠ [] →
  MOCK_RATES !! key = None →
  buildExchangeRates (Some prices) !! key = derived_table prices !! key.
Proof.
  intros Hkeys Hstatic. rewrite buildExchangeRates_nonempty by done.
  by rewrite lookup_union_r.
Qed.

End Builder.

(** ** Derived rates *)

Section Derived.
Context {R : Type} `{JsNumber R}.
Implicit Types (prices : Snapshot R) (rates : gmap string R).

Lemma price_of_key prices token price :
  price_of prices token = Some price → token ∈ Object_keys prices.
Proof.
  unfold price_of, Object_keys.
  destruct (find _ prices) as [[k p]|] eqn:Hfind; [|done].
  intros _. apply find_some in Hfind as [Hin Heq].
  apply String.eqb_eq in Heq. simpl in Heq. subst k.
  apply list_elem_of_In in Hin.
  by apply (list_elem_of_fmap_2 fst) in Hin.
Qed.

Lemma price_of_token prices token price :
  price_of prices token = Some price → token ∈ tokens_of prices.
Proof.
  intros Hp. unfold tokens_of. apply list_elem_of_filter. split.
  - by rewrite Hp.
  - by eapply price_of_key.
Qed.

Lemma token_is_key prices token :
  token ∈ tokens_of prices → token ∈ Object_keys prices.
Proof. unfold tokens_of. by intros [_ ?]%list_elem_of_filter. Qed.

(** What one step of each loop does to a key. *)
Lemma usd_rates_lookup prices rates token key :
  usd_rates prices rates token !! key = rates !! key
  ∨ ∃ price, price_of prices token = Some price ∧ truthy price = true
      ∧ (key = token +:+ "_USD"
           ∧ usd_rates prices rates token !! key = Some price
         ∨ key = "USD_" +:+ token ∧ key ≠ token +:+ "_USD"
           ∧ usd_rates prices rates token !! key = Some (div (ofZ 1) price)).
Proof.
  unfold usd_rates, Map_set.
  destruct (price_of prices token) as [price|]; [|by left].
  destruct (truthy price) eqn:Ht; [|by left].
  destruct (eqb price (ofZ 0)); simpl; [by left|].
  destruct (decide (key = token +:+ "_USD")) as [->|Hne1].
  { right. exists price. split_and!; [done..|]. left. by rewrite lookup_insert_eq. }
  rewrite lookup_insert_ne by done.
  destruct (decide (key = "USD_" +:+ token)) as [->|Hne2].
  { right. exists price. split_and!; [done..|]. right.
    by rewrite lookup_insert_eq. }
  left. by rewrite lookup_insert_ne.
Qed.

Lemma cross_rate_lookup prices rates fromToken toToken key :
  cross_rate prices fromToken rates toToken !! key = rates !! key
  ∨ ∃ fromRate toRate,
      price_of prices fromToken = Some fromRate ∧ truthy fromRate = true
      ∧ price_of prices toToken = Some toRate ∧ truthy toRate = true
      ∧ key = fromToken +:+ "_" +:+ toToken
      ∧ cross_rate prices fromToken rates toToken !! key
        = Some (div fromRate toRate).
Proof.
  unfold cross_rate, Map_set.
  destruct (negb (String.eqb fromToken toToken)); [|by left].
  destruct (price_of prices fromToken) as [fromRate|]; [|by left].
  destruct (price_of prices toToken) as [toRate|]; [|by left].
  destruct (truthy fromRate) eqn:Hf; [|by left].
  destruct (truthy toRate) eqn:Ht; [|by left].
  destruct (eqb fromRate (ofZ 0)); simpl; [by left|].
  destruct (decide (key = fromToken +:+ "_" +:+ toToken)) as [->|Hne].
  - right. exists fromRate, toRate. by rewrite lookup_insert_eq.
  - left. by rewrite lookup_insert_ne.
Qed.

Section Snapshot.
Variable prices : Snapshot R.
Variables (A B : string) (pa pb : R).
Hypothesis A_plain : has_underscore A = false.
Hypothesis A_price : price_of prices A = Some pa.
Hypothesis B_price : price_of prices B = Some pb.
Hypothesis A_truthy : truthy pa = true.
Hypothesis B_truthy : truthy pb = true.
Hypothesis A_nonzero : eqb pa (ofZ 0) = false.

Lemma derived_cross :
  has_underscore B = false →
  A ≠ B →
  derived_table prices !! (A +:+ "_" +:+ B) = Some (div pa pb).
Proof.
  intros B_plain Hne. unfold derived_table.
  set (P := λ rates : gmap string R,
              rates !! (A +:+ "_" +:+ B) = Some (div pa pb)).
  assert (Hstep : ∀ f t rates, P rates → P (cross_rate prices f rates t)).
  { intros f t rates HP. unfold P.
    destruct (cross_rate_lookup prices rates f t (A +:+ "_" +:+ B))
      as [-> | (fr & tr & Hf & Hft & Ht & Htt & Hkey & ->)]; [done|].
    apply rate_key_pair in Hkey as [<- <-]; [|done..].
    congruence. }
  apply (fold_left_reaches P).
  - intros f rates _ HP. apply (fold_left_reaches P); [|by left].
    intros t rates' _. apply Hstep.
  - right. exists A. split; [by eapply price_of_token|].
    intros rates. apply (fold_left_reaches P); [intros; by apply Hstep|].
    right. exists B. split; [by eapply price_of_token|].
    intros rates'. unfold P, cross_rate, Map_set.
    rewrite (proj2 (String.eqb_neq A B)) by done. simpl.
    rewrite A_price, B_price, A_truthy, B_truthy, A_nonzero. simpl.
    by rewrite lookup_insert_eq.
Qed.

(** USD itself, when the snapshot prices it, is priced 1, and dividing
    [price[A]] by that 1 gives [price[A]]. *)
Hypothesis usd_unit :
  ∀ price, price_of prices "USD" = Some price → truthy price = true →
           price = ofZ 1 ∧ div pa (ofZ 1) = pa.

Local Lemma usd_rates_written rates :
  usd_rates prices rates A
  = <[A +:+ "_USD" := pa]> (<["USD_" +:+ A := div (ofZ 1) pa]> rates).
Proof.
  unfold usd_rates, Map_set. by rewrite A_price, A_truthy, A_nonzero.
Qed.

(** The two ways in which a [USD_x] key and a [y_USD] key coincide. *)
Local Lemma usd_keys_meet x y :
  has_underscore x = false ∨ has_underscore y = false →
  "USD_" +:+ x = y +:+ "_USD" → x = "USD" ∧ y = "USD".
Proof.
  intros Hplain Heq.
  change ("USD_" +:+ x) with ("USD" +:+ "_" +:+ x) in Heq.
  change (y +:+ "_USD") with (y +:+ "_" +:+ "USD") in Heq.
  destruct Hplain as [Hx | Hy].
  - by apply rate_key_pair in Heq as [<- ->].
  - symmetry in Heq. by apply rate_key_pair in Heq as [-> <-].
Qed.

Local Lemma one_over_one : A = "USD" → div (ofZ 1) pa = pa.
Proof.
  intros HA. destruct (usd_unit pa) as [Hone Hdiv]; [by rewrite <- HA | done |].
  rewrite Hone in Hdiv |- *. exact Hdiv.
Qed.

(** The cross-rate loop keeps a rate that every pair writing to its key
    agrees with. *)
Local Lemma cross_loop_keeps key value rates :
  (∀ f t fr tr, price_of prices f = Some fr → truthy fr = true →
                price_of prices t = Some tr → truthy tr = true →
                key = f +:+ "_" +:+ t → div fr tr = value) →
  rates !! key = Some value →
  fold_left (λ rates fromToken,
               fold_left (cross_rate prices fromToken) (tokens_of prices) rates)
            (tokens_of prices) rates !! key
  = Some value.
Proof.
  intros Hagree Hrates.
  set (P := λ rates : gmap string R, rates !! key = Some value).
  apply (fold_left_reaches P); [|by left].
  intros f rates' _ HP. apply (fold_left_reaches P); [|by left].
  intros t rates'' _ HP'. unfold P.
  destruct (cross_rate_lookup prices rates'' f t key)
    as [-> | (fr & tr & Hf & Hft & Ht & Htt & Heq & ->)]; [done|].
  f_equal. by eapply Hagree.
Qed.

Lemma derived_usd_to :
  derived_table prices !! ("USD_" +:+ A) = Some (div (ofZ 1) pa).
Proof.
  unfold derived_table. apply cross_loop_keeps.
  { intros f t fr tr Hf Hft Ht Htt Heq.
    change ("USD_" +:+ A) with ("USD" +:+ "_" +:+ A) in Heq.
    apply rate_key_pair in Heq as [Hf' Ht']; [|done..]. subst f t.
    destruct (usd_unit fr) as [-> _]; [done..|]. congruence. }
  set (P := λ rates : gmap string R,
              rates !! ("USD_" +:+ A) = Some (div (ofZ 1) pa)).
  apply (fold_left_reaches P).
  - intros t rates _ HP. unfold P.
    destruct (usd_rates_lookup prices rates t ("USD_" +:+ A))
      as [-> | (price & Ht & Htt & [[Heq ->] | (Heq & _ & ->)])]; [done| |].
    + apply usd_keys_meet in Heq as [HA ->]; [|by left].
      rewrite one_over_one by done. subst A. congruence.
    + apply (inj (String.append "USD_")) in Heq as <-. congruence.
  - right. exists A. split; [by eapply price_of_token|].
    intros rates. unfold P. rewrite usd_rates_written.
    destruct (decide (A +:+ "_USD" = "USD_" +:+ A)) as [Heq | Hne].
    + rewrite Heq, lookup_insert_eq. symmetry in Heq.
      apply usd_keys_meet in Heq as [HA _]; [|by left].
      by rewrite one_over_one.
    + rewrite lookup_insert_ne by done. by rewrite lookup_insert_eq.
Qed.

Lemma derived_to_usd :
  derived_table prices !! (A +:+ "_USD") = Some pa.
Proof.
  unfold derived_table. apply cross_loop_keeps.
  { intros f t fr tr Hf Hft Ht Htt Heq.
    change (A +:+ "_USD") with (A +:+ "_" +:+ "USD") in Heq.
    apply rate_key_pair in Heq as [Hf' Ht']; [|done..]. subst f t.
    destruct (usd_unit tr) as [-> Hdiv]; [done..|]. congruence. }
  set (P := λ rates : gmap string R, rates !! (A +:+ "_USD") = Some pa).
  apply (fold_left_reaches P).
  - intros t rates _ HP. unfold P.
    destruct (usd_rates_lookup prices rates t (A +:+ "_USD"))
      as [-> | (price & Ht & Htt & [[Heq ->] | (Heq & Hne & _)])]; [done| |].
    + apply string_app_inj_r in Heq as <-. congruence.
    + exfalso. apply Hne. symmetry in Heq.
      apply usd_keys_meet in Heq as [-> ->]; [done | by right].
  - right. exists A. split; [by eapply price_of_token|].
    intros rates. unfold P. rewrite usd_rates_written.
    by rewrite lookup_insert_eq.
Qed.

End Snapshot.

End Derived.

(** ** The conversion engine, for every number instance *)

Section Engine.
Context {R : Type} `{JsNumber R}.
Implicit Types (g : Globals R) (amountInCents amount : R).

Lemma getConversionRate_same g currency :
  getConversionRate currency currency g = (Return (ofZ 1), g).
Proof. unfold getConversionRate. by rewrite String.eqb_refl. Qed.

Lemma getConversionRate_lookup g fromCurrency toCurrency :
  fromCurrency ≠ toCurrency →
  getConversionRate fromCurrency toCurrency g
  = match exchangeRates g !! (fromCurrency +:+ "_" +:+ toCurrency) with
    | Some rate => (Return rate, g)
    | None =>
        (Throw (Error ("Exchange rate not available for "
                       +:+ fromCurrency +:+ "_" +:+ toCurrency)), g)
    end.
Proof.
  intros Hne. unfold getConversionRate.
  rewrite (proj2 (String.eqb_neq _ _)) by done.
  unfold mbind, script_bind, gets. simpl.
  by destruct (exchangeRates g !! _).
Qed.

Lemma performConversion_rate g amountInCents fromCurrency toCurrency rate :
  getConversionRate fromCurrency toCurrency g = (Return rate, g) →
  performConversion amountInCents fromCurrency toCurrency g
  = (Return (round (mul amountInCents rate)), g).
Proof.
  intros Hrate. unfold performConversion, mbind, script_bind. by rewrite Hrate.
Qed.

Lemma performConversion_throw g amountInCents fromCurrency toCurrency e :
  getConversionRate fromCurrency toCurrency g = (Throw e, g) →
  performConversion amountInCents fromCurrency toCurrency g = (Throw e, g).
Proof.
  intros Hrate. unfold performConversion, mbind, script_bind. by rewrite Hrate.
Qed.

Lemma convert_valid g amount fromCurrency toCurrency :
  validateInput (VNumber amount) = Return (VNumber amount) →
  convert amount fromCurrency toCurrency g
  = match performConversion (convertToCents amount) fromCurrency toCurrency g with
    | (Return outputCents, g') => (Return (convertFromCents outputCents), g')
    | (Throw e, g') => (Throw e, g')
    end.
Proof.
  intros Hvalid. unfold convert, mbind, script_bind, lift. rewrite Hvalid.
  by destruct (performConversion _ _ _ g) as [[c|e] g'].
Qed.

Lemma validateInput_cases (value : Value R) :
  validateInput value = Return value
  ∨ ∃ message, validateInput value = Throw (Error message).
Proof.
  destruct value as [x| | | |]; simpl; eauto.
  destruct (isNaN x); eauto. destruct (ltb x (ofZ 0)); eauto.
  destruct (ltb (ofZ 1000000) x); eauto.
Qed.

(** C3.  A pair of distinct currencies whose key [FROM_TO] is absent
    from the rate table has no rate: [getConversionRate] throws
    "Exchange rate not available for FROM_TO", and so does
    [performConversion] for every amount of cents; the whole conversion
    returns no number for any amount, and for an amount that passes
    validation its error is that same one.  No call changes the
    globals. *)
Theorem rate_unavailable_is_explicit g fromCurrency toCurrency :
  fromCurrency ≠ toCurrency →
  exchangeRates g !! (fromCurrency +:+ "_" +:+ toCurrency) = None →
  let unavailable :=
    Error ("Exchange rate not available for "
           +:+ fromCurrency +:+ "_" +:+ toCurrency) in
  getConversionRate fromCurrency toCurrency g = (Throw unavailable, g)
  ∧ (∀ amountInCents,
       performConversion amountInCents fromCurrency toCurrency g
       = (Throw unavailable, g))
  ∧ (∀ amount, ∃ e,
       convert amount fromCurrency toCurrency g = (Throw e, g))
  ∧ (∀ amount,
       validateInput (VNumber amount) = Return (VNumber amount) →
       convert amount fromCurrency toCurrency g = (Throw unavailable, g)).
Proof.
  intros Hne Habsent unavailable.
  assert (Hrate : getConversionRate fromCurrency toCurrency g
                  = (Throw unavailable, g)).
  { rewrite getConversionRate_lookup by done. by rewrite Habsent. }
  assert (Hperform : ∀ c, performConversion c fromCurrency toCurrency g
                          = (Throw unavailable, g)).
  { intros c. by apply performConversion_throw. }
  split_and!; [done | done | |].
  - intros amount.
    destruct (validateInput_cases (VNumber amount)) as [Hok | [m Hbad]].
    + exists unavailable. rewrite convert_valid by done. by rewrite Hperform.
    + exists (Error m). unfold convert, mbind, script_bind, lift.
      by rewrite Hbad.
  - intros amount Hok. rewrite convert_valid by done. by rewrite Hperform.
Qed.

(** C10.  For every currency code, known to the rate table or not,
    [getConversionRate(c, c)] returns 1 whatever the table holds, so a
    conversion between identical currencies goes through
    [performConversion] without a rate-unavailable error. *)
Theorem same_currency_rate_is_one g currency amountInCents :
  getConversionRate currency currency g = (Return (ofZ 1), g)
  ∧ performConversion amountInCents currency currency g
    = (Return (round (mul amountInCents (ofZ 1))), g).
Proof.
  split; [apply getConversionRate_same|].
  apply performConversion_rate, getConversionRate_same.
Qed.

(** C9.  [performConversion] and [getConversionRate] leave every global
    as it was, and their result depends on the globals only through the
    rate table: with the same table, amount and currencies the result is
    the same, whatever the price cache and the formatter cache hold. *)
Theorem performConversion_pure
    (rates : gmap string R) (cache cache' : option (Snapshot R))
    (fs fs' : gmap string string) amountInCents fromCurrency toCurrency :
  let g := {| exchangeRates := rates; pricesCache := cache; formatters := fs |} in
  let g' := {| exchangeRates := rates; pricesCache := cache'; formatters := fs' |} in
  (performConversion amountInCents fromCurrency toCurrency g).2 = g
  ∧ (getConversionRate fromCurrency toCurrency g).2 = g
  ∧ (performConversion amountInCents fromCurrency toCurrency g).1
    = (performConversion amountInCents fromCurrency toCurrency g').1
  ∧ (getConversionRate fromCurrency toCurrency g).1
    = (getConversionRate fromCurrency toCurrency g').1.
Proof.
  intros g g'.
  assert (Hrate : ∀ g0 : Globals R,
            (getConversionRate fromCurrency toCurrency g0).2 = g0
            ∧ (getConversionRate fromCurrency toCurrency g0).1
              = match (if String.eqb fromCurrency toCurrency then Some (ofZ 1)
                       else exchangeRates g0
                            !! (fromCurrency +:+ "_" +:+ toCurrency)) with
                | Some rate => Return rate
                | None => Throw (Error ("Exchange rate not available for "
                            +:+ fromCurrency +:+ "_" +:+ toCurrency))
                end).
  { intros g0. unfold getConversionRate.
    destruct (String.eqb fromCurrency toCurrency); [done|].
    unfold mbind, script_bind, gets. simpl.
    by destruct (exchangeRates g0 !! _). }
  assert (Hperform : ∀ g0 : Globals R,
            (performConversion amountInCents fromCurrency toCurrency g0).2 = g0
            ∧ (performConversion amountInCents fromCurrency toCurrency g0).1
              = match (getConversionRate fromCurrency toCurrency g0).1 with
                | Return rate => Return (round (mul amountInCents rate))
                | Throw e => Throw e
                end).
  { intros g0. destruct (Hrate g0) as [Hg _].
    unfold performConversion, mbind, script_bind.
    destruct (getConversionRate fromCurrency toCurrency g0) as [[rate|e] g1];
      simpl in *; by subst. }
  split_and!.
  - apply Hperform.
  - apply Hrate.
  - rewrite (proj2 (Hperform g)), (proj2 (Hperform g')).
    by rewrite (proj2 (Hrate g)), (proj2 (Hrate g')).
  - by rewrite (proj2 (Hrate g)), (proj2 (Hrate g')).
Qed.

(** C5.  For an absent snapshot and for a snapshot without keys
    [buildExchangeRates] returns the static table itself, which holds
    the twelve entries of [MOCK_ENTRIES] and nothing else. *)
Theorem buildExchangeRates_fallback :
  buildExchangeRates None = MOCK_RATES (R:=R)
  ∧ buildExchangeRates (Some []) = MOCK_RATES (R:=R)
  ∧ size (MOCK_RATES (R:=R)) = 12%nat
  ∧ dom (MOCK_RATES (R:=R))
    = list_to_set ["USD_EUR"; "USD_GBP"; "USD_JPY"; "EUR_USD"; "EUR_GBP";
                   "EUR_JPY"; "GBP_USD"; "GBP_EUR"; "GBP_JPY"; "JPY_USD";
                   "JPY_EUR"; "JPY_GBP"]
  ∧ (∀ key value,
       MOCK_RATES !! key = Some value ↔ (key, value) ∈ MOCK_ENTRIES (R:=R)).
Proof.
  split_and!;
    [reflexivity | reflexivity | apply MOCK_RATES_size | apply MOCK_RATES_dom |].
  intros key value. split; [apply MOCK_RATES_entries | apply MOCK_RATES_lookup].
Qed.

(** C6.  Whatever the snapshot, every key of the static table is mapped
    by the built table to its static rate: the static entries are
    written last and replace any derived entry of the same key. *)
Theorem static_rates_win (snapshot : option (Snapshot R)) key value :
  MOCK_RATES !! key = Some value →
  buildExchangeRates snapshot !! key = Some value.
Proof. apply buildExchangeRates_static. Qed.

End Engine.

(** ** binary64: exact results *)

Module Binary64Facts.
Import Binary64.

Local Abbreviation digits m := (Z.pos (digits2_pos m)).

Lemma digits_bounds (m : positive) :
  2 ^ (digits m - 1) ≤ Z.pos m < 2 ^ digits m.
Proof.
  induction m as [m IH | m IH |]; simpl digits2_pos.
  - rewrite Pos2Z.inj_succ. change (Z.pos m~1) with (2 * Z.pos m + 1).
    replace (Z.succ (digits m) - 1) with (Z.succ (digits m - 1)) by lia.
    rewrite !Z.pow_succ_r by lia. lia.
  - rewrite Pos2Z.inj_succ. change (Z.pos m~0) with (2 * Z.pos m).
    replace (Z.succ (digits m) - 1) with (Z.succ (digits m - 1)) by lia.
    rewrite !Z.pow_succ_r by lia. lia.
  - simpl. lia.
Qed.

Lemma digits_unique (m : positive) (d : Z) :
  2 ^ (d - 1) ≤ Z.pos m < 2 ^ d → digits m = d.
Proof.
  intros [Hlo Hhi]. pose proof (digits_bounds m) as [Hlo' Hhi'].
  assert (0 < d).
  { destruct (Z.le_gt_cases d 0) as [Hd|]; [|done].
    assert (2 ^ d ≤ 2 ^ 0) by (apply Z.pow_le_mono_r; lia).
    change (2 ^ 0) with 1 in *. lia. }
  destruct (Z.lt_trichotomy (digits m) d) as [Hlt | [Heq | Hgt]]; [|done|].
  - assert (2 ^ digits m ≤ 2 ^ (d - 1)) by (apply Z.pow_le_mono_r; lia). lia.
  - assert (2 ^ d ≤ 2 ^ (digits m - 1)) by (apply Z.pow_le_mono_r; lia). lia.
Qed.

Lemma digits_shift (m : positive) (k : Z) :
  0 ≤ k → Zdigits2 (Z.pos m * 2 ^ k) = digits m + k.
Proof.
  intros Hk. pose proof (digits_bounds m) as [Hlo Hhi].
  assert (Hpow : 0 < 2 ^ k) by (apply Z.pow_pos_nonneg; lia).
  destruct (Z.pos m * 2 ^ k) as [|p|p] eqn:Hp; [lia | | lia].
  simpl. apply digits_unique. rewrite <- Hp.
  replace (digits m + k - 1) with (digits m - 1 + k) by lia.
  rewrite !Z.pow_add_r by lia. nia.
Qed.

Lemma pow2_double (k : Z) : 0 ≤ k → 2 ^ (2 * k) = 2 ^ k * 2 ^ k.
Proof. intros Hk. replace (2 * k) with (k + k) by lia. by apply Z.pow_add_r. Qed.

Lemma pow2_double_succ (k : Z) : 0 ≤ k → 2 ^ (2 * k + 1) = 2 * (2 ^ k * 2 ^ k).
Proof.
  intros Hk. rewrite Z.pow_add_r, pow2_double by lia. change (2 ^ 1) with 2. lia.
Qed.

(** Shifting out zero bits loses nothing. *)
Lemma shr_1_even (M : Z) :
  0 ≤ M →
  shr_1 {| shr_m := 2 * M; shr_r := false; shr_s := false |}
  = {| shr_m := M; shr_r := false; shr_s := false |}.
Proof. destruct M as [|p|p]; [done | done | lia]. Qed.

Lemma iter_shr_exact (p : positive) (M : Z) :
  0 ≤ M →
  SpecFloat.iter_pos shr_1 p {| shr_m := M * 2 ^ Z.pos p; shr_r := false; shr_s := false |}
  = {| shr_m := M; shr_r := false; shr_s := false |}.
Proof.
  revert M. induction p as [p IH | p IH |]; intros M HM.
  - change (Z.pos p~1) with (2 * Z.pos p + 1).
    replace (M * 2 ^ (2 * Z.pos p + 1))
      with (2 * (M * 2 ^ Z.pos p * 2 ^ Z.pos p))
      by (rewrite pow2_double_succ by lia; lia).
    cbn [SpecFloat.iter_pos]. rewrite shr_1_even by (apply Z.mul_nonneg_nonneg; lia).
    rewrite IH by (apply Z.mul_nonneg_nonneg; lia). by apply IH.
  - change (Z.pos p~0) with (2 * Z.pos p).
    replace (M * 2 ^ (2 * Z.pos p)) with (M * 2 ^ Z.pos p * 2 ^ Z.pos p)
      by (rewrite pow2_double by lia; lia).
    cbn [SpecFloat.iter_pos].
    rewrite IH by (apply Z.mul_nonneg_nonneg; lia). by apply IH.
  - cbn [SpecFloat.iter_pos]. replace (M * 2 ^ 1) with (2 * M) by lia.
    by apply shr_1_even.
Qed.

Lemma bounded_spec (m : positive) (e : Z) :
  bounded prec emax m e = true ↔
  Z.max (digits m + e - 53) (-1074) = e ∧ e ≤ 971.
Proof.
  unfold bounded, canonical_mantissa, fexp, SpecFloat.emin, prec, emax.
  rewrite andb_true_iff, Z.eqb_eq, Z.leb_le. lia.
Qed.

(** Rounding a value that is a number gives that number: [m * 2^k] at
    exponent [e - k] is the canonical [m] at exponent [e]. *)
Lemma binary_round_aux_exact (s : bool) (m : positive) (e k : Z) :
  bounded prec emax m e = true → 0 ≤ k →
  binary_round_aux prec emax s (Z.pos m * 2 ^ k) (e - k) loc_Exact
  = S754_finite s m e.
Proof.
  intros Hb Hk. pose proof Hb as [Hcanon Hmax]%bounded_spec.
  unfold binary_round_aux, shr_fexp.
  rewrite digits_shift by done.
  replace (fexp prec emax (digits m + k + (e - k)) - (e - k)) with k
    by (unfold fexp, SpecFloat.emin, prec, emax; lia).
  assert (Hshr : shr (shr_record_of_loc (Z.pos m * 2 ^ k) loc_Exact) (e - k) k
                 = ({| shr_m := Z.pos m; shr_r := false; shr_s := false |}, e)).
  { unfold shr, shr_record_of_loc. destruct k as [|p|p]; [| |lia].
    - rewrite Z.mul_1_r. f_equal. lia.
    - rewrite iter_shr_exact by lia. f_equal. lia. }
  rewrite Hshr. cbn [shr_m loc_of_shr_record round_nearest_even Zdigits2].
  replace (fexp prec emax (digits m + e) - e) with 0
    by (unfold fexp, SpecFloat.emin, prec, emax; lia).
  cbn [shr shr_record_of_loc shr_m].
  replace (e <=? emax - prec) with true
    by (symmetry; apply Z.leb_le; unfold prec, emax; lia).
  done.
Qed.

Lemma iter_xO (m p : positive) : Z.pos (Pos.iter xO m p) = Z.pos m * 2 ^ Z.pos p.
Proof.
  induction p as [|p IH] using Pos.peano_ind.
  - simpl. lia.
  - rewrite Pos.iter_succ, Pos2Z.inj_succ, Z.pow_succ_r by lia.
    change (Z.pos (Pos.iter xO m p)~0) with (2 * Z.pos (Pos.iter xO m p)).
    rewrite IH.
    lia.
Qed.

(** The same for [binary_round], which may have to shift left first:
    any way of writing the value [m * 2^e] rounds to [m] at [e]. *)
Lemma binary_round_exact (s : bool) (m M : positive) (e E : Z) :
  bounded prec emax m e = true →
  (E ≤ e ∧ Z.pos M = Z.pos m * 2 ^ (e - E)
   ∨ e < E ∧ Z.pos m = Z.pos M * 2 ^ (E - e)) →
  binary_round prec emax s M E = S754_finite s m e.
Proof.
  intros Hb Hvalue. pose proof Hb as [Hcanon Hmax]%bounded_spec.
  unfold binary_round.
  assert (Hdigits : digits M + E = digits m + e).
  { destruct Hvalue as [[HE HM] | [HE HM]].
    - pose proof (digits_shift m (e - E)) as Hd. rewrite <- HM in Hd.
      simpl in Hd. lia.
    - pose proof (digits_shift M (E - e)) as Hd. rewrite <- HM in Hd.
      simpl in Hd. lia. }
  rewrite Hdigits.
  replace (fexp prec emax (digits m + e)) with e
    by (unfold fexp, SpecFloat.emin, prec, emax; lia).
  unfold shl_align.
  destruct Hvalue as [[HE HM] | [HE HM]].
  - destruct (e - E) as [|p|p] eqn:Hp; [| |lia].
    + rewrite HM. replace E with (e - 0) by lia. by apply binary_round_aux_exact.
    + rewrite HM. replace E with (e - Z.pos p) by lia.
      by apply binary_round_aux_exact.
  - destruct (e - E) as [|p|p] eqn:Hp; [lia | lia |].
    replace (E - e) with (Z.pos p) in HM by lia.
    rewrite <- iter_xO in HM. injection HM as <-.
    pose proof (binary_round_aux_exact s m e 0 Hb) as Hr.
    rewrite Z.mul_1_r, Z.sub_0_r in Hr. by apply Hr.
Qed.

(** *** Integers below [2^53] *)

Lemma pow2_pos (k : Z) : 0 ≤ k → 0 < 2 ^ k.
Proof. intros. apply Z.pow_pos_nonneg; lia. Qed.

Lemma pow2_split (x y : Z) : 0 ≤ x → 0 ≤ y → 2 ^ (x + y) = 2 ^ x * 2 ^ y.
Proof. intros. by apply Z.pow_add_r. Qed.

Lemma represents_normal m e z :
  represents m e z →
  0 < z ∧ -52 ≤ e ∧ digits m = 53 ∧ 2 ^ 52 ≤ Z.pos m < 2 ^ 53.
Proof.
  intros (Hb & He & Hm). apply bounded_spec in Hb as [Hcanon _].
  pose proof (pow2_pos (- e)) as Hpow.
  pose proof (digits_bounds m) as [Hlo Hhi].
  assert (Hz : 0 < z) by nia.
  assert (Hd : digits m ≤ 53) by lia.
  assert (Hm53 : Z.pos m < 2 ^ 53).
  { assert (2 ^ digits m ≤ 2 ^ 53) by (apply Z.pow_le_mono_r; lia). lia. }
  assert (He52 : -52 ≤ e).
  { destruct (Z.le_gt_cases (-52) e) as [|Hlt]; [done|].
    assert (2 ^ 53 ≤ 2 ^ (- e)) by (apply Z.pow_le_mono_r; lia). nia. }
  assert (Hd53 : digits m = 53) by lia.
  rewrite Hd53 in Hlo. change (53 - 1) with 52 in Hlo. done.
Qed.

Lemma represents_exists z : 0 < z < 2 ^ 53 → ∃ m e, represents m e z.
Proof.
  intros [Hz Hz53]. destruct z as [|p|p]; [lia | | lia].
  pose proof (digits_bounds p) as [Hlo Hhi].
  assert (Hd : digits p ≤ 53).
  { destruct (Z.le_gt_cases (digits p) 53) as [|Hgt]; [done|].
    assert (2 ^ 53 ≤ 2 ^ (digits p - 1)) by (apply Z.pow_le_mono_r; lia). lia. }
  pose proof (pow2_pos (53 - digits p)) as Hpow.
  pose proof (digits_shift p (53 - digits p)) as Hshift.
  destruct (Z.pos p * 2 ^ (53 - digits p)) as [|m|m] eqn:Hm; [lia | | lia].
  exists m, (digits p - 53). split_and!.
  - apply bounded_spec. simpl in Hshift. lia.
  - lia.
  - rewrite <- Hm. f_equal. f_equal. lia.
Qed.

Lemma of_Z_represents m e z :
  represents m e z → of_Z z = S754_finite false m e.
Proof.
  intros Hrep. pose proof (represents_normal _ _ _ Hrep) as (Hz & _).
  destruct Hrep as (Hb & He & Hm).
  destruct z as [|p|p]; [lia | | lia].
  unfold of_Z, binary_normalize. apply binary_round_exact; [done|].
  destruct (Z.eq_dec e 0) as [-> | Hne].
  - left. split; [done|]. rewrite Hm. change (2 ^ (- 0)) with 1.
    change (2 ^ (0 - 0)) with 1. lia.
  - right. split; [lia|]. by rewrite Hm.
Qed.

Lemma of_Z_0 : of_Z 0 = S754_zero false.
Proof. done. Qed.

Lemma shl_align_value m e e' :
  e' ≤ e → Z.pos (shl_align m e e').1 = Z.pos m * 2 ^ (e - e').
Proof.
  intros He. unfold shl_align.
  destruct (e' - e) as [|p|p] eqn:Hp; [| lia |].
  - simpl. replace (e - e') with 0 by lia. lia.
  - simpl. rewrite iter_xO. f_equal. f_equal. lia.
Qed.

Lemma of_Z_add a b :
  0 ≤ a → 0 ≤ b → a + b < 2 ^ 53 →
  SFadd prec emax (of_Z a) (of_Z b) = of_Z (a + b).
Proof.
  intros Ha Hb Hsum.
  destruct (Z.eq_dec a 0) as [-> | Ha0], (Z.eq_dec b 0) as [-> | Hb0]; [done | | |].
  { destruct (represents_exists b) as (m2 & e2 & H2); [lia|].
    by rewrite Z.add_0_l, (of_Z_represents _ _ _ H2). }
  { destruct (represents_exists a) as (m1 & e1 & H1); [lia|].
    by rewrite Z.add_0_r, (of_Z_represents _ _ _ H1). }
  destruct (represents_exists a) as (m1 & e1 & H1); [lia|].
  destruct (represents_exists b) as (m2 & e2 & H2); [lia|].
  destruct (represents_exists (a + b)) as (m & e & H12); [lia|].
  rewrite (of_Z_represents _ _ _ H1), (of_Z_represents _ _ _ H2),
    (of_Z_represents _ _ _ H12).
  destruct H1 as (_ & He1 & Hm1), H2 as (_ & He2 & Hm2), H12 as (Hb12 & He & Hm).
  unfold SFadd, cond_Zopp.
  set (ez := Z.min e1 e2).
  pose proof (shl_align_value m1 e1 ez ltac:(lia)) as Hs1.
  pose proof (shl_align_value m2 e2 ez ltac:(lia)) as Hs2.
  assert (Hvalue : Z.pos (shl_align m1 e1 ez).1 + Z.pos (shl_align m2 e2 ez).1
                   = (a + b) * 2 ^ (- ez)).
  { assert (E1 : 2 ^ (- ez) = 2 ^ (- e1) * 2 ^ (e1 - ez))
      by (rewrite <- pow2_split by lia; f_equal; lia).
    assert (E2 : 2 ^ (- ez) = 2 ^ (- e2) * 2 ^ (e2 - ez))
      by (rewrite <- pow2_split by lia; f_equal; lia).
    rewrite Hs1, Hs2, Hm1, Hm2.
    transitivity (a * (2 ^ (- e1) * 2 ^ (e1 - ez))
                  + b * (2 ^ (- e2) * 2 ^ (e2 - ez))); [ring|].
    rewrite <- E1, <- E2. ring. }
  destruct (Z.pos (shl_align m1 e1 ez).1 + Z.pos (shl_align m2 e2 ez).1)
    as [|S|S] eqn:HS; [lia | | lia].
  unfold binary_normalize. apply binary_round_exact; [done|].
  destruct (Z.le_gt_cases ez e) as [Hle | Hgt].
  - left. split; [done|]. rewrite Hvalue, Hm.
    replace (- ez) with (- e + (e - ez)) by lia.
    rewrite pow2_split by lia. ring.
  - right. split; [done|]. rewrite Hvalue, Hm.
    replace (- e) with (- ez + (ez - e)) by lia.
    rewrite pow2_split by lia. ring.
Qed.

Lemma of_Z_mul a b :
  0 ≤ a < 2 ^ 53 → 0 ≤ b < 2 ^ 53 → a * b < 2 ^ 53 →
  SFmul prec emax (of_Z a) (of_Z b) = of_Z (a * b).
Proof.
  intros Ha Hb Hprod.
  destruct (Z.eq_dec a 0) as [-> | Ha0], (Z.eq_dec b 0) as [-> | Hb0]; [done | | |].
  { destruct (represents_exists b) as (m2 & e2 & H2); [nia|].
    by rewrite Z.mul_0_l, (of_Z_represents _ _ _ H2). }
  { destruct (represents_exists a) as (m1 & e1 & H1); [nia|].
    by rewrite Z.mul_0_r, (of_Z_represents _ _ _ H1). }
  destruct (represents_exists a) as (m1 & e1 & H1); [nia|].
  destruct (represents_exists b) as (m2 & e2 & H2); [nia|].
  destruct (represents_exists (a * b)) as (m & e & H12); [nia|].
  rewrite (of_Z_represents _ _ _ H1), (of_Z_represents _ _ _ H2),
    (of_Z_represents _ _ _ H12).
  pose proof (represents_normal _ _ _ H1) as (_ & _ & _ & Hn1 & _).
  pose proof (represents_normal _ _ _ H2) as (_ & _ & _ & Hn2 & _).
  pose proof (represents_normal _ _ _ H12) as (_ & _ & _ & _ & Hn).
  destruct H1 as (_ & He1 & Hm1), H2 as (_ & He2 & Hm2), H12 as (Hb12 & He & Hm).
  assert (Hprod12 : Z.pos m1 * Z.pos m2 = a * b * 2 ^ (- e1 + - e2)).
  { rewrite Hm1, Hm2, pow2_split by lia. ring. }
  assert (Hk : 0 ≤ e - (e1 + e2)).
  { destruct (Z.le_gt_cases 0 (e - (e1 + e2))) as [|Hlt]; [done|]. exfalso.
    assert (Hm' : Z.pos m = Z.pos m1 * Z.pos m2 * 2 ^ (e1 + e2 - e)).
    { rewrite Hprod12, Hm. replace (- e) with (- e1 + - e2 + (e1 + e2 - e)) by lia.
      rewrite (pow2_split (- e1 + - e2)) by lia. ring. }
    pose proof (pow2_pos (e1 + e2 - e)) as Hpow.
    change (2 ^ 52) with 4503599627370496 in *.
    change (2 ^ 53) with 9007199254740992 in *. nia. }
  simpl SFmul. change (Z.pos (m1 * m2)) with (Z.pos m1 * Z.pos m2).
  replace (Z.pos m1 * Z.pos m2) with (Z.pos m * 2 ^ (e - (e1 + e2))).
  2:{ rewrite Hprod12, Hm.
      replace (- e1 + - e2) with (- e + (e - (e1 + e2))) by lia.
      rewrite pow2_split by lia. ring. }
  replace (e1 + e2) with (e - (e - (e1 + e2))) at 2 by lia.
  by apply binary_round_aux_exact.
Qed.

Lemma of_Z_2 : of_Z 2 = S754_finite false 4503599627370496 (-51).
Proof. done. Qed.

Lemma of_Z_half c :
  0 ≤ c → 2 * c < 2 ^ 53 →
  SFdiv prec emax (of_Z (2 * c)) (of_Z 2) = of_Z c.
Proof.
  intros Hc Hc2. destruct (Z.eq_dec c 0) as [-> | Hc0]; [done|].
  destruct (represents_exists c) as (m & e & Hrep); [lia|].
  pose proof (represents_normal _ _ _ Hrep) as (_ & He52 & Hd & Hlo & Hhi).
  pose proof Hrep as (Hb & He & Hm).
  assert (He1 : e < 0).
  { destruct (Z.eq_dec e 0) as [-> | ]; [|lia].
    change (2 ^ (- 0)) with 1 in Hm. change (2 ^ 52) with 4503599627370496 in *.
    change (2 ^ 53) with 9007199254740992 in *. lia. }
  assert (Hrep2 : represents m (e + 1) (2 * c)).
  { split_and!.
    - apply bounded_spec. apply bounded_spec in Hb. lia.
    - lia.
    - rewrite Hm. replace (- e) with (1 + - (e + 1)) by lia.
      rewrite pow2_split by lia. change (2 ^ 1) with 2. ring. }
  rewrite (of_Z_represents _ _ _ Hrep), (of_Z_represents _ _ _ Hrep2), of_Z_2.
  unfold SFdiv, SFdiv_core_binary. cbn [Zdigits2 xorb]. rewrite Hd.
  change (Z.pos (digits2_pos 4503599627370496)) with 53.
  replace (Z.min (fexp prec emax (53 + (e + 1) - (53 + -51))) (e + 1 - -51))
    with (e - 1) by (unfold fexp, SpecFloat.emin, prec, emax; lia).
  replace (e + 1 - -51 - (e - 1)) with 53 by lia.
  rewrite Z.shiftl_mul_pow2 by lia.
  replace (Z.pos m * 2 ^ 53) with (2 * Z.pos m * 4503599627370496)
    by (change (2 ^ 53) with 9007199254740992; lia).
  assert (Hdiv : Z.div_eucl (2 * Z.pos m * 4503599627370496) 4503599627370496
                 = (2 * Z.pos m, 0)).
  { pose proof (Z_div_mod (2 * Z.pos m * 4503599627370496) 4503599627370496
                  ltac:(lia)) as Hdm.
    destruct (Z.div_eucl _ _) as [q r]. destruct Hdm as [Heq Hr].
    assert (q = 2 * Z.pos m) by nia. f_equal; lia. }
  rewrite Hdiv. cbn [new_location new_location_even Z.even Z.eqb].
  replace (2 * Z.pos m) with (Z.pos m * 2 ^ 1) by (change (2 ^ 1) with 2; lia).
  replace (e - 1) with (e - 1) by done.
  by apply binary_round_aux_exact.
Qed.

(** *** Even integers below [2^54] *)

Lemma bounded_double m e c :
  represents m e c → bounded prec emax m (e + 1) = true.
Proof.
  intros Hrep. pose proof (represents_normal _ _ _ Hrep) as (_ & He52 & Hd & _).
  destruct Hrep as (_ & He & _). apply bounded_spec. lia.
Qed.

(** A product that is twice an integer below [2^53] is exact. *)
Lemma mul_double a b c m e :
  0 < a < 2 ^ 53 → 0 < b < 2 ^ 53 → a * b = 2 * c → represents m e c →
  SFmul prec emax (of_Z a) (of_Z b) = S754_finite false m (e + 1).
Proof.
  intros Ha Hb Hprod Hrep.
  destruct (represents_exists a) as (m1 & e1 & H1); [lia|].
  destruct (represents_exists b) as (m2 & e2 & H2); [lia|].
  rewrite (of_Z_represents _ _ _ H1), (of_Z_represents _ _ _ H2).
  pose proof (represents_normal _ _ _ H1) as (_ & _ & _ & Hn1 & _).
  pose proof (represents_normal _ _ _ H2) as (_ & _ & _ & Hn2 & _).
  pose proof (represents_normal _ _ _ Hrep) as (_ & _ & _ & _ & Hn).
  pose proof (bounded_double _ _ _ Hrep) as Hb2.
  destruct H1 as (_ & He1 & Hm1), H2 as (_ & He2 & Hm2), Hrep as (_ & He & Hm).
  assert (Hprod12 : Z.pos m1 * Z.pos m2 = 2 * c * 2 ^ (- e1 + - e2)).
  { rewrite Hm1, Hm2, pow2_split, <- Hprod by lia. ring. }
  assert (Hk : 0 ≤ e + 1 - (e1 + e2)).
  { destruct (Z.le_gt_cases 0 (e + 1 - (e1 + e2))) as [|Hlt]; [done|]. exfalso.
    assert (Hm' : 2 * Z.pos m = Z.pos m1 * Z.pos m2 * 2 ^ (e1 + e2 - e)).
    { rewrite Hprod12, Hm. replace (- e) with (- e1 + - e2 + (e1 + e2 - e)) by lia.
      rewrite (pow2_split (- e1 + - e2)) by lia. ring. }
    pose proof (pow2_pos (e1 + e2 - e)) as Hpow.
    change (2 ^ 52) with 4503599627370496 in *.
    change (2 ^ 53) with 9007199254740992 in *. nia. }
  simpl SFmul. change (Z.pos (m1 * m2)) with (Z.pos m1 * Z.pos m2).
  replace (Z.pos m1 * Z.pos m2) with (Z.pos m * 2 ^ (e + 1 - (e1 + e2))).
  2:{ rewrite Hprod12, Hm.
      replace (- e1 + - e2 + 1) with (- e + (e + 1 - (e1 + e2))) by lia.
      transitivity (c * (2 ^ (- e) * 2 ^ (e + 1 - (e1 + e2)))); [ring|].
      rewrite <- pow2_split by lia.
      replace (- e + (e + 1 - (e1 + e2))) with (1 + (- e1 + - e2)) by lia.
      rewrite pow2_split by lia. change (2 ^ 1) with 2. ring. }
  replace (e1 + e2) with (e + 1 - (e + 1 - (e1 + e2))) at 2 by lia.
  by apply binary_round_aux_exact.
Qed.

Lemma half_double m e c :
  represents m e c →
  SFdiv prec emax (S754_finite false m (e + 1)) (of_Z 2) = S754_finite false m e.
Proof.
  intros Hrep.
  pose proof (represents_normal _ _ _ Hrep) as (_ & He52 & Hd & Hlo & Hhi).
  pose proof Hrep as (Hb & He & Hm).
  rewrite of_Z_2.
  unfold SFdiv, SFdiv_core_binary. cbn [Zdigits2 xorb]. rewrite Hd.
  change (Z.pos (digits2_pos 4503599627370496)) with 53.
  replace (Z.min (fexp prec emax (53 + (e + 1) - (53 + -51))) (e + 1 - -51))
    with (e - 1) by (unfold fexp, SpecFloat.emin, prec, emax; lia).
  replace (e + 1 - -51 - (e - 1)) with 53 by lia.
  rewrite Z.shiftl_mul_pow2 by lia.
  replace (Z.pos m * 2 ^ 53) with (2 * Z.pos m * 4503599627370496)
    by (change (2 ^ 53) with 9007199254740992; lia).
  assert (Hdiv : Z.div_eucl (2 * Z.pos m * 4503599627370496) 4503599627370496
                 = (2 * Z.pos m, 0)).
  { pose proof (Z_div_mod (2 * Z.pos m * 4503599627370496) 4503599627370496
                  ltac:(lia)) as Hdm.
    destruct (Z.div_eucl _ _) as [q r]. destruct Hdm as [Heq Hr].
    assert (q = 2 * Z.pos m) by nia. f_equal; lia. }
  rewrite Hdiv. cbn [new_location new_location_even Z.even Z.eqb].
  replace (2 * Z.pos m) with (Z.pos m * 2 ^ 1) by (change (2 ^ 1) with 2; lia).
  by apply binary_round_aux_exact.
Qed.

(** The formula is exact as long as its result is below [2^53]. *)
Lemma formula_exact (n : Z) :
  0 ≤ n → n * (n + 1) / 2 < 2 ^ 53 →
  SFdiv prec emax (SFmul prec emax (of_Z n) (of_Z (n + 1))) (of_Z 2)
  = of_Z (n * (n + 1) / 2).
Proof.
  intros Hn Hbound. destruct (Z.eq_dec n 0) as [-> | Hn0]; [done|].
  set (c := n * (n + 1) / 2) in *.
  assert (Hdouble : n * (n + 1) = 2 * c).
  { unfold c. apply Z.div_exact; [done|].
    rewrite Zmod_even, Z.even_mul, Z.add_1_r, Z.even_succ.
    by rewrite Z.orb_even_odd. }
  assert (H53 : 2 ^ 53 = 9007199254740992) by done.
  destruct (represents_exists c) as (m & e & Hrep); [nia|].
  rewrite (mul_double n (n + 1) c m e) by (done || nia).
  rewrite (half_double m e c Hrep). symmetry. by apply of_Z_represents.
Qed.

Lemma of_Z_leb a b :
  0 ≤ a < 2 ^ 53 → 0 ≤ b < 2 ^ 53 →
  SFleb (of_Z a) (of_Z b) = (a <=? b).
Proof.
  intros Ha Hb.
  destruct (Z.eq_dec a 0) as [-> | Ha0], (Z.eq_dec b 0) as [-> | Hb0]; [done | | |].
  { destruct (represents_exists b) as (m2 & e2 & H2); [lia|].
    rewrite (of_Z_represents _ _ _ H2). simpl. symmetry. apply Z.leb_le. lia. }
  { destruct (represents_exists a) as (m1 & e1 & H1); [lia|].
    rewrite (of_Z_represents _ _ _ H1). simpl. symmetry. apply Z.leb_gt. lia. }
  destruct (represents_exists a) as (m1 & e1 & H1); [lia|].
  destruct (represents_exists b) as (m2 & e2 & H2); [lia|].
  rewrite (of_Z_represents _ _ _ H1), (of_Z_represents _ _ _ H2).
  pose proof (represents_normal _ _ _ H1) as (_ & _ & _ & Hn1).
  pose proof (represents_normal _ _ _ H2) as (_ & _ & _ & Hn2).
  destruct H1 as (_ & He1 & Hm1), H2 as (_ & He2 & Hm2).
  change (2 ^ 53) with (2 * 2 ^ 52) in *.
  pose proof (pow2_pos (- e1) ltac:(lia)) as Hp1.
  pose proof (pow2_pos (- e2) ltac:(lia)) as Hp2.
  unfold SFleb, SFcompare.
  destruct (Z.compare_spec e1 e2) as [-> | Hlt | Hgt].
  - rewrite Pos.compare_cont_spec. unfold Pos.switch_Eq.
    change (m1 ?= m2)%positive with (Z.pos m1 ?= Z.pos m2).
    destruct (Z.compare_spec (Z.pos m1) (Z.pos m2)) as [Heq | Hlt | Hgt].
    + symmetry. apply Z.leb_le. nia.
    + symmetry. apply Z.leb_le. nia.
    + symmetry. apply Z.leb_gt. nia.
  - symmetry. apply Z.leb_le.
    assert (Hpow : 2 ^ (- e1) = 2 ^ (- e2) * 2 ^ (e2 - e1))
      by (rewrite <- pow2_split by lia; f_equal; lia).
    assert (2 ^ 1 ≤ 2 ^ (e2 - e1)) by (apply Z.pow_le_mono_r; lia).
    change (2 ^ 1) with 2 in *. nia.
  - symmetry. apply Z.leb_gt.
    assert (Hpow : 2 ^ (- e2) = 2 ^ (- e1) * 2 ^ (e1 - e2))
      by (rewrite <- pow2_split by lia; f_equal; lia).
    assert (2 ^ 1 ≤ 2 ^ (e1 - e2)) by (apply Z.pow_le_mono_r; lia).
    change (2 ^ 1) with 2 in *. nia.
Qed.

Lemma of_Z_to_length a : 0 ≤ a < 2 ^ 53 → to_length (of_Z a) = a.
Proof.
  intros Ha. destruct (Z.eq_dec a 0) as [-> | Ha0]; [done|].
  destruct (represents_exists a) as (m & e & Hrep); [lia|].
  rewrite (of_Z_represents _ _ _ Hrep). destruct Hrep as (_ & He & Hm).
  unfold to_length, truncate, cond_Zopp.
  assert (Hvalue : (if 0 <=? e then Z.pos m * 2 ^ e else Z.pos m / 2 ^ (- e)) = a).
  { destruct (Z.leb_spec 0 e).
    - replace e with 0 in * by lia. change (2 ^ (- 0)) with 1 in Hm.
      change (2 ^ 0) with 1. lia.
    - rewrite Hm. apply Z.div_mul. pose proof (pow2_pos (- e)). lia. }
  rewrite Hvalue. lia.
Qed.

(** *** Sums of integers *)

Lemma triangle_double i : 2 * triangle i = i * (i + 1).
Proof.
  unfold triangle. symmetry. apply Z.div_exact; [done|].
  rewrite Zmod_even, Z.even_mul, Z.add_1_r, Z.even_succ.
  by rewrite Z.orb_even_odd.
Qed.

Lemma triangle_succ i : triangle i + (i + 1) = triangle (i + 1).
Proof.
  pose proof (triangle_double i). pose proof (triangle_double (i + 1)). lia.
Qed.

Lemma triangle_bound i k : 0 ≤ i ≤ k → 0 ≤ triangle i ≤ k * (k + 1).
Proof. intros Hi. pose proof (triangle_double i). nia. Qed.

Lemma small_root k : 0 ≤ k → k * (k + 1) < 2 ^ 53 → k < 2 ^ 27.
Proof.
  change (2 ^ 53) with 9007199254740992. change (2 ^ 27) with 134217728. nia.
Qed.

Lemma triangle_mono i k : 0 ≤ i ≤ k → 0 ≤ triangle i ≤ triangle k.
Proof.
  intros Hi. pose proof (triangle_double i). pose proof (triangle_double k). nia.
Qed.

(** The sums below [2^53] are those of the lengths an array can have. *)
Lemma triangle_root k :
  0 ≤ k → triangle k < 2 ^ 53 ↔ k ≤ max_array_length.
Proof.
  intros Hk. pose proof (triangle_double k). unfold max_array_length.
  change (2 ^ 53) with 9007199254740992. change (2 ^ 27) with 134217728.
  split; nia.
Qed.

Lemma ofZ_add a b :
  0 ≤ a → 0 ≤ b → a + b < 2 ^ 53 →
  add (ofZ a) (ofZ b) = ofZ (R:=number) (a + b).
Proof. apply of_Z_add. Qed.

Lemma ofZ_leb a b :
  0 ≤ a < 2 ^ 53 → 0 ≤ b < 2 ^ 53 →
  leb (ofZ (R:=number) a) (ofZ b) = (a <=? b).
Proof. apply of_Z_leb. Qed.

Lemma sumIteratively_loop_exact (k : Z) (fuel : nat) (i : Z) :
  1 ≤ i ≤ k + 1 → triangle k < 2 ^ 53 →
  (Z.to_nat (k + 1 - i) < fuel)%nat →
  sumIteratively_loop fuel (ofZ k) (ofZ i) (ofZ (triangle (i - 1)))
  = Some (ofZ (R:=number) (triangle k)).
Proof.
  intros Hi Hk.
  pose proof (proj1 (triangle_root k ltac:(lia)) Hk) as Hroot. revert i Hi.
  unfold max_array_length in Hroot. change (2 ^ 27) with 134217728 in Hroot.
  assert (H53 : 2 ^ 53 = 9007199254740992) by done.
  induction fuel as [|fuel IH]; intros i Hi Hfuel; [lia|].
  cbn [sumIteratively_loop].
  rewrite ofZ_leb by lia.
  destruct (Z.leb_spec i k) as [Hle | Hgt].
  - pose proof (triangle_mono (i - 1) k ltac:(lia)).
    pose proof (triangle_mono i k ltac:(lia)).
    pose proof (triangle_succ (i - 1)) as Hsucc.
    replace (i - 1 + 1) with i in Hsucc by lia.
    rewrite !ofZ_add by lia. rewrite Hsucc.
    replace (triangle i) with (triangle (i + 1 - 1)) by (f_equal; lia).
    apply IH; lia.
  - by replace (i - 1) with k by lia.
Qed.

Lemma reduce_exact (n : nat) (start : Z) :
  0 ≤ start →
  triangle (start + Z.of_nat n) < 2 ^ 53 →
  fold_left (λ sum num, add sum num)
    (map (λ i, add (ofZ i) (ofZ 1)) (seqZ start (Z.of_nat n)))
    (ofZ (triangle start))
  = ofZ (R:=number) (triangle (start + Z.of_nat n)).
Proof.
  revert start. induction n as [|n IH]; intros start Hstart Hbound.
  - simpl. f_equal. f_equal. lia.
  - rewrite seqZ_cons by lia. cbn [map fold_left].
    pose proof (triangle_mono start (start + Z.of_nat (S n)) ltac:(lia)).
    pose proof (triangle_mono (start + 1) (start + Z.of_nat (S n)) ltac:(lia)).
    pose proof (proj1 (triangle_root (start + Z.of_nat (S n)) ltac:(lia)) Hbound)
      as Hroot.
    unfold max_array_length in Hroot. change (2 ^ 27) with 134217728 in Hroot.
    assert (start + 1 < 2 ^ 53) by (change (2 ^ 53) with 9007199254740992; lia).
    rewrite !ofZ_add by (try rewrite triangle_succ; lia).
    rewrite triangle_succ.
    replace (Z.pred (Z.of_nat (S n))) with (Z.of_nat n) by lia.
    replace (Z.succ start) with (start + 1) by lia.
    rewrite IH by (try lia; replace (start + 1 + Z.of_nat n)
                               with (start + Z.of_nat (S n)) by lia; done).
    f_equal. f_equal. lia.
Qed.

(** *** Comparisons of [validateInput] *)

Lemma ltb_zero (x : number) : ltb x (ofZ 0) = is_negative x.
Proof. destruct x as [[]|[]| |[] m e]; reflexivity. Qed.

Lemma ltb_ceiling (x : number) :
  valid_binary prec emax x = true →
  ltb (ofZ 1000000) x = true ↔ exceeds 1000000 x.
Proof.
  intros Hvalid.
  change (ofZ 1000000) with (S754_finite false 8589934592000000 (-33)).
  destruct x as [s|[]| |[] m e]; try (by cbn; intuition).
  simpl in Hvalid. apply bounded_spec in Hvalid as [Hcanon _].
  pose proof (digits_bounds m) as [Hlo Hhi].
  unfold exceeds.
  change (ltb ?a ?b) with (SFltb a b). unfold SFltb, SFcompare.
  assert (H52 : 2 ^ 52 = 4503599627370496) by done.
  assert (H53 : 2 ^ 53 = 9007199254740992) by done.
  destruct (Z.compare_spec (-33) e) as [<- | Hlt | Hgt].
  - rewrite Pos.compare_cont_spec. unfold Pos.switch_Eq.
    change (8589934592000000 ?= m)%positive
      with (8589934592000000 ?= Z.pos m).
    change (0 <=? -33) with false. cbn iota.
    change (1000000 * 2 ^ (- -33)) with 8589934592000000.
    destruct (Z.compare_spec 8589934592000000 (Z.pos m)); split; intros; try done; lia.
  - split; [intros _ | done].
    assert (Hd : digits m = 53) by lia.
    rewrite Hd in Hlo. change (2 ^ (53 - 1)) with 4503599627370496 in Hlo.
    destruct (Z.leb_spec 0 e).
    + pose proof (pow2_pos e ltac:(lia)). nia.
    + assert (2 ^ (- e) ≤ 2 ^ 32) by (apply Z.pow_le_mono_r; lia).
      change (2 ^ 32) with 4294967296 in *. nia.
  - split; [done | intros Hex]. exfalso.
    replace (0 <=? e) with false in Hex by (symmetry; apply Z.leb_gt; lia).
    assert (digits m ≤ 53) by lia.
    assert (2 ^ digits m ≤ 2 ^ 53) by (apply Z.pow_le_mono_r; lia).
    assert (2 ^ 34 ≤ 2 ^ (- e)) by (apply Z.pow_le_mono_r; lia).
    change (2 ^ 34) with 17179869184 in *. nia.
Qed.

End Binary64Facts.

(** ** Exact arithmetic *)

Module ExactFacts.
Import Exact.

Lemma this_of_Z (k : Z) : (this (of_Z k) == inject_Z k)%Q.
Proof. unfold of_Z. simpl. apply Qred_correct. Qed.

Lemma of_Z_100_neq_0 : of_Z 100 ≠ Q2Qc 0.
Proof. intros Heq. by apply (f_equal (λ q : Qc, Qnum (this q))) in Heq. Qed.

Lemma math_round_of_Z (k : Z) : math_round (of_Z k) = of_Z k.
Proof.
  unfold math_round. f_equal.
  assert (Heq : (this (of_Z k + Q2Qc (1 # 2))%Qc == inject_Z k + (1 # 2))%Q).
  { simpl. rewrite Qred_correct, (Qred_correct (inject_Z k)).
    by rewrite (Qred_correct (1 # 2)). }
  rewrite Heq. unfold Qfloor, Qplus, inject_Z. simpl.
  rewrite Z.mul_1_r. replace (k * 2 + 1) with (1 + k * 2) by lia.
  by rewrite Z.div_add.
Qed.

Lemma mul_one (x : number) : mul x (ofZ 1) = x.
Proof. change (x * 1 = x)%Qc. ring. Qed.

Lemma cents_cancel (x : number) : div (mul x (ofZ 100)) (ofZ 100) = x.
Proof.
  change ((x * of_Z 100) / of_Z 100 = x)%Qc. field. apply of_Z_100_neq_0.
Qed.

Lemma leb_self_plus (x : number) : leb x (add x (decimal 1 2)) = true.
Proof.
  apply bool_decide_eq_true.
  change (x <= x + decimal 1 2)%Qc.
  rewrite <- (Qcplus_0_r x) at 1.
  apply Qcplus_le_compat; [apply Qcle_refl | by vm_compute].
Qed.

Lemma round_round (x : number) : round (round x) = round x.
Proof. apply math_round_of_Z. Qed.

Lemma convert_same_currency (g : Globals number) (amount : number) currency :
  validateInput (VNumber amount) = Return (VNumber amount) →
  convert amount currency currency g = (Return (round2 amount), g).
Proof.
  intros Hvalid. rewrite convert_valid by done.
  rewrite (performConversion_rate g _ _ _ (ofZ 1))
    by apply getConversionRate_same.
  unfold convertFromCents, convertToCents, round2.
  by rewrite mul_one, round_round.
Qed.

Lemma round2_whole_cents (amount : number) (k : Z) :
  mul amount (ofZ 100) = ofZ k → round2 amount = amount.
Proof.
  intros Hk. unfold round2. rewrite Hk.
  change (round (ofZ k)) with (math_round (of_Z k)). rewrite math_round_of_Z.
  change (of_Z k) with (ofZ (R:=number) k). rewrite <- Hk. apply cents_cancel.
Qed.

(** In exact rational arithmetic, converting a validated amount
    from a currency to itself takes the rate 1 without reading the rate
    table and returns the amount rounded to whole cents,
    [round(amount * 100) / 100]; an amount that is a whole number of
    cents is returned unchanged. *)
Lemma same_currency_rounds_to_cents
    (g : Globals number) (amount : number) (currency : string) :
  validateInput (VNumber amount) = Return (VNumber amount) →
  getConversionRate currency currency g = (Return (ofZ 1), g)
  ∧ convert amount currency currency g = (Return (round2 amount), g)
  ∧ (∀ k : Z, mul amount (ofZ 100) = ofZ k →
       convert amount currency currency g = (Return amount, g)).
Proof.
  intros Hvalid. split_and!.
  - apply getConversionRate_same.
  - by apply convert_same_currency.
  - intros k Hk. rewrite convert_same_currency by done.
    by rewrite (round2_whole_cents amount k).
Qed.

Lemma same_currency_rounds_to_cents_witness :
  convert (decimal 1999 2) "EUR" "EUR" initial_globals
  = (Return (decimal (R:=number) 1999 2), initial_globals).
Proof.
  refine (proj2 (proj2 (same_currency_rounds_to_cents
                          initial_globals (decimal 1999 2) "EUR" _)) 1999 _).
  - by vm_compute.
  - apply Qc_is_canon. by vm_compute.
Defined.

(** In exact rational arithmetic, for a validated amount that is a
    whole number of cents and a pair of distinct currencies whose key
    has rate [r] in the rate table, the conversion returns exactly
    [round(amount * r, 2)]; in particular it is within one minor unit
    of it, for the static table as for any other. *)
Lemma whole_cents_conversion_is_rounded_product
    (amount : number) (k : Z) (fromCurrency toCurrency : string) :
  mul amount (ofZ 100) = ofZ k →
  conversion_matches_rounded_product amount fromCurrency toCurrency
  ∧ (∀ (g : Globals number) rate,
       validateInput (VNumber amount) = Return (VNumber amount) →
       fromCurrency ≠ toCurrency →
       exchangeRates g !! (fromCurrency +:+ "_" +:+ toCurrency) = Some rate →
       convert amount fromCurrency toCurrency g
       = (Return (round2 (mul amount rate)), g)).
Proof.
  intros Hk.
  assert (Hconvert : ∀ (g : Globals number) rate,
            validateInput (VNumber amount) = Return (VNumber amount) →
            fromCurrency ≠ toCurrency →
            exchangeRates g !! (fromCurrency +:+ "_" +:+ toCurrency) = Some rate →
            convert amount fromCurrency toCurrency g
            = (Return (round2 (mul amount rate)), g)).
  { intros g rate Hvalid Hne Hrate. rewrite convert_valid by done.
    rewrite (performConversion_rate g _ _ _ rate)
      by (by rewrite getConversionRate_lookup, Hrate).
    unfold convertFromCents, convertToCents, round2. rewrite Hk.
    change (round (ofZ k)) with (math_round (of_Z k)). rewrite math_round_of_Z.
    change (of_Z k) with (ofZ (R:=number) k). rewrite <- Hk.
    replace (mul (mul amount rate) (ofZ 100))
      with (mul (mul amount (ofZ 100)) rate); [done|].
    change ((amount * of_Z 100 * rate = amount * rate * of_Z 100)%Qc). ring. }
  split; [|done].
  intros rate Hvalid Hne Hrate. exists (round2 (mul amount rate)). split.
  - by rewrite (Hconvert initial_globals rate).
  - unfold within. by rewrite leb_self_plus.
Qed.

Lemma whole_cents_conversion_is_rounded_product_witness :
  convert (decimal 1999 2) "GBP" "JPY" initial_globals
  = (Return (round2 (mul (decimal (R:=number) 1999 2) (decimal 15075 2))),
     initial_globals).
Proof.
  refine (proj2 (whole_cents_conversion_is_rounded_product
                   (decimal 1999 2) 1999 "GBP" "JPY" _)
                initial_globals (decimal 15075 2) _ _ _).
  - apply Qc_is_canon. by vm_compute.
  - by vm_compute.
  - done.
  - by vm_compute.
Defined.

End ExactFacts.

(** ** The claims on binary64 *)

Module Binary64Claims.
Import Binary64 Binary64Facts.

Definition validation_agrees (value : Value number) : Prop :=
  ((∃ e, validateInput value = Throw e)
   ↔ ¬ finite_number value ∨ negative value ∨ above_ceiling value)
  ∧ (validateInput value = Return value
     ↔ finite_number value ∧ ¬ negative value ∧ ¬ above_ceiling value).

Lemma accepted (value : Value number) :
  validateInput value = Return value →
  finite_number value → ¬ negative value → ¬ above_ceiling value →
  validation_agrees value.
Proof.
  intros Hv Hf Hn Ha. unfold validation_agrees. rewrite Hv. split; split.
  - by intros [e ?].
  - intros [? | [? | ?]]; done.
  - done.
  - done.
Qed.

Lemma rejected (value : Value number) e :
  validateInput value = Throw e →
  ¬ finite_number value ∨ negative value ∨ above_ceiling value →
  validation_agrees value.
Proof.
  intros Hv Hwhy. unfold validation_agrees. rewrite Hv. split; split.
  - done.
  - eauto.
  - done.
  - intros (Hf & Hn & Ha). destruct Hwhy as [? | [? | ?]]; done.
Qed.

(** C4.  On a binary64 value or any other kind of value,
    [validateInput] throws exactly when the value is not a finite
    number, is negative or is above 1,000,000, and returns the value
    itself otherwise: it throws for -1, NaN and 1000001 and returns 0
    and 1000000. *)
Theorem validateInput_rejects_exactly :
  (∀ value : Value number,
     well_formed value →
     ((∃ e, validateInput value = Throw e)
      ↔ ¬ finite_number value ∨ negative value ∨ above_ceiling value)
     ∧ (validateInput value = Return value
        ↔ finite_number value ∧ ¬ negative value ∧ ¬ above_ceiling value))
  ∧ validateInput (VNumber (ofZ (-1)))
    = Throw (Error "Input must be non-negative")
  ∧ validateInput (VNumber S754_nan)
    = Throw (Error "Input must be a valid number")
  ∧ validateInput (VNumber (ofZ 1000001)) = Throw (Error "Amount too large")
  ∧ validateInput (VNumber (ofZ 0)) = Return (VNumber (ofZ 0))
  ∧ validateInput (VNumber (ofZ 1000000)) = Return (VNumber (ofZ 1000000)).
Proof.
  split; [|by vm_compute].
  intros value Hwf. fold (validation_agrees value).
  destruct value as [x| | | |];
    try (eapply rejected; [reflexivity | by left; intros []]).
  simpl in Hwf. pose proof (ltb_ceiling x Hwf) as Hceiling.
  assert (Hcode : validateInput (VNumber x)
            = if is_nan x then Throw (Error "Input must be a valid number")
              else if is_negative x then Throw (Error "Input must be non-negative")
              else if ltb (ofZ 1000000) x then Throw (Error "Amount too large")
              else Return (VNumber x))
    by (simpl; by rewrite ltb_zero).
  destruct x as [s|[]| |[] m e].
  - apply accepted;
      [by destruct s | done | intros Hn; discriminate Hn | intros []].
  - eapply rejected; [done | by left].
  - eapply rejected; [done | by left].
  - eapply rejected; [done | by left].
  - eapply rejected; [done | by right; left].
  - destruct (ltb (R:=number) (ofZ 1000000) (S754_finite false m e)) eqn:Hltb;
      try rewrite Hltb in Hcode; simpl in Hcode.
    + eapply rejected;
        [exact Hcode | right; right; by apply Hceiling].
    + apply accepted;
        [exact Hcode | done | intros Hn; discriminate Hn |].
      intros Hex. apply Hceiling in Hex. congruence.
Qed.

Lemma validateInput_rejects_exactly_witness :
  validateInput (VNumber (decimal (R:=number) 1999 2))
  = Return (VNumber (decimal 1999 2)).
Proof.
  apply (proj1 validateInput_rejects_exactly (VNumber (decimal 1999 2))).
  - by vm_compute.
  - split_and!; by vm_compute.
Defined.

(** C8 (amended).  For an integer [n] between 0 and [2^53], the three
    implementations agree exactly when [n] is at most [2^27 - 1], the
    longest array the engine holds, which is also the largest [n] whose
    sum [n * (n + 1) / 2] is below [2^53].  For such an [n] every
    intermediate value is exact, and [sumIteratively] (once its loop
    test has run [n + 1] times), [sumWithReduce] and [sumWithFormula]
    return the same number, [n * (n + 1) / 2]; for a larger [n],
    [sumWithReduce] returns no number. *)
Theorem sums_agree_on_safe_integers (n : Z) :
  0 ≤ n < 2 ^ 53 →
  (n * (n + 1) / 2 < 2 ^ 53 ↔ n ≤ max_array_length)
  ∧ (n ≤ max_array_length →
     (∀ fuel, (Z.to_nat n < fuel)%nat →
        sumIteratively fuel (ofZ n) = Some (ofZ (R:=number) (n * (n + 1) / 2)))
     ∧ sumWithReduce (ofZ n) = Return (ofZ (R:=number) (n * (n + 1) / 2))
     ∧ sumWithFormula (ofZ n) = ofZ (R:=number) (n * (n + 1) / 2))
  ∧ (sums_agree (ofZ (R:=number) n) ↔ n ≤ max_array_length).
Proof.
  intros Hn. fold (triangle n).
  pose proof (triangle_root n ltac:(lia)) as Hroot.
  assert (H53 : 2 ^ 53 = 9007199254740992) by done.
  assert (Hlength : to_length (of_Z n) = n) by (by apply of_Z_to_length).
  assert (Hsafe : n ≤ max_array_length →
            (∀ fuel, (Z.to_nat n < fuel)%nat →
               sumIteratively fuel (ofZ n) = Some (ofZ (R:=number) (triangle n)))
            ∧ sumWithReduce (ofZ n) = Return (ofZ (R:=number) (triangle n))
            ∧ sumWithFormula (ofZ n) = ofZ (R:=number) (triangle n)).
  { intros Hmax. pose proof (proj2 Hroot Hmax) as Hbound.
    unfold max_array_length in Hmax. change (2 ^ 27) with 134217728 in Hmax.
    split_and!.
    - intros fuel Hfuel. unfold sumIteratively.
      change (ofZ 0) with (ofZ (R:=number) (triangle (1 - 1))).
      apply sumIteratively_loop_exact; lia.
    - unfold sumWithReduce, Array_from_length.
      change (toLength (ofZ n)) with (to_length (of_Z n)). rewrite Hlength.
      replace (2 ^ 32 - 1 <? n) with false by (symmetry; apply Z.ltb_ge; lia).
      replace (max_array_length <? n) with false
        by (symmetry; apply Z.ltb_ge; unfold max_array_length; lia).
      f_equal. change (ofZ 0) with (ofZ (R:=number) (triangle 0)).
      rewrite <- (Z2Nat.id n) at 1 2 by lia.
      rewrite (reduce_exact (Z.to_nat n) 0);
        [|lia | rewrite Z2Nat.id by lia; exact Hbound].
      by rewrite Z2Nat.id by lia.
    - unfold sumWithFormula. rewrite ofZ_add by lia.
      apply formula_exact; [lia | exact Hbound]. }
  split_and!; [exact Hroot | exact Hsafe |].
  split.
  - intros (value & _ & Hreduce & _).
    destruct (Z.le_gt_cases n max_array_length) as [|Hgt]; [done|]. exfalso.
    unfold sumWithReduce, Array_from_length in Hreduce.
    change (toLength (ofZ n)) with (to_length (of_Z n)) in Hreduce.
    rewrite Hlength in Hreduce.
    destruct (2 ^ 32 - 1 <? n); [done|].
    by replace (max_array_length <? n) with true in Hreduce
      by (symmetry; apply Z.ltb_lt; lia).
  - intros Hmax. destruct (Hsafe Hmax) as (Hloop & Hreduce & Hformula).
    exists (ofZ (triangle n)). split_and!; [|done..].
    exists (S (Z.to_nat n)). apply Hloop. lia.
Qed.

Lemma sums_agree_on_safe_integers_witness :
  sumWithFormula (ofZ (R:=number) 100) = ofZ (100 * (100 + 1) / 2).
Proof.
  apply (sums_agree_on_safe_integers 100); [lia | by vm_compute].
Defined.

(** C8, as worded, fails at [n = 2^32]: [Array.from] refuses the length
    and [sumWithReduce] throws a [RangeError], where [sumWithFormula]
    returns a number. *)
Lemma sums_disagree_at_2_32 : ¬ sums_agree (ofZ (R:=number) 4294967296).
Proof.
  intros (value & _ & Hreduce & _).
  assert (Hthrow : sumWithReduce (ofZ (R:=number) 4294967296)
                   = Throw (RangeError "Invalid array length"))
    by (by vm_compute).
  congruence.
Qed.

(** C1, as worded, fails for an amount with a fraction of a cent and a
    pair into JPY: 0.004 GBP is converted to 0 JPY, where
    [round(0.004 * 150.75, 2)] is 0.6, sixty cents away; 0.004 USD and
    0.004 EUR are converted to 0 JPY as well, where the rounded products
    are 0.44 and 0.52. *)
Lemma conversion_misses_rounded_product :
  ¬ conversion_matches_rounded_product (decimal (R:=number) 4 3) "GBP" "JPY"
  ∧ validateInput (VNumber (decimal (R:=number) 4 3))
    = Return (VNumber (decimal 4 3))
  ∧ MOCK_RATES (R:=number) !! "GBP_JPY" = Some (decimal 15075 2)
  ∧ (convert (decimal (R:=number) 4 3) "GBP" "JPY" initial_globals).1
    = Return (decimal 0 2)
  ∧ round2 (mul (decimal (R:=number) 4 3) (decimal 15075 2)) = decimal 60 2
  ∧ ¬ conversion_matches_rounded_product (decimal (R:=number) 4 3) "USD" "JPY"
  ∧ round2 (mul (decimal (R:=number) 4 3) (decimal 1100 1)) = decimal 44 2
  ∧ ¬ conversion_matches_rounded_product (decimal (R:=number) 4 3) "EUR" "JPY"
  ∧ round2 (mul (decimal (R:=number) 4 3) (decimal 12953 2)) = decimal 52 2.
Proof.
  assert (Hmiss : ∀ fromCurrency rate,
            MOCK_RATES (R:=number) !! (fromCurrency +:+ "_JPY") = Some rate →
            fromCurrency ≠ "JPY" →
            (convert (decimal (R:=number) 4 3) fromCurrency "JPY"
               initial_globals).1 = Return (decimal 0 2) →
            within (decimal 1 2) (decimal 0 2)
              (round2 (mul (decimal (R:=number) 4 3) rate)) = false →
            ¬ conversion_matches_rounded_product (decimal (R:=number) 4 3)
                fromCurrency "JPY").
  { intros fromCurrency rate Hrate Hne Hzero Hfar Hclaim.
    destruct (Hclaim rate) as (output & Hout & Hnear);
      [by vm_compute | done | done |].
    rewrite Hzero in Hout. injection Hout as <-.
    exact (eq_true_false_abs _ Hnear Hfar). }
  split_and!.
  - apply (Hmiss "GBP" (decimal 15075 2)); [by vm_compute | done | by vm_compute..].
  - by vm_compute.
  - by vm_compute.
  - by vm_compute.
  - by vm_compute.
  - apply (Hmiss "USD" (decimal 1100 1)); [by vm_compute | done | by vm_compute..].
  - by vm_compute.
  - apply (Hmiss "EUR" (decimal 12953 2)); [by vm_compute | done | by vm_compute..].
  - by vm_compute.
Qed.


(** C7 (amended).  Whatever the number arithmetic, for a token A whose
    symbol holds no underscore and whose price is neither null, zero nor
    NaN, the table built from the snapshot maps, each unless the key is
    a static fiat key (which keeps its static rate):
    - [A_B] to [price[A] / price[B]], for every other token B whose
      symbol holds no underscore and whose price is neither null nor
      falsy;
    - [USD_A] to [1 / price[A]] and [A_USD] to [price[A]], when USD
      itself is either without usable price in the snapshot or priced 1
      (with [price[A] / 1] being [price[A]]).
    On binary64 the table built from [{A: 2, B: 4}] has [A_B = 0.5] and
    [B_A = 2]. *)
Theorem derived_rates_unless_static :
  (∀ (R : Type) (N : JsNumber R) (prices : Snapshot R) (A B : string) (pa pb : R),
     has_underscore A = false → has_underscore B = false →
     A ≠ B →
     price_of prices A = Some pa → truthy pa = true → eqb pa (ofZ 0) = false →
     price_of prices B = Some pb → truthy pb = true →
     MOCK_RATES (R:=R) !! (A +:+ "_" +:+ B) = None →
     buildExchangeRates (Some prices) !! (A +:+ "_" +:+ B) = Some (div pa pb))
  ∧ (∀ (R : Type) (N : JsNumber R) (prices : Snapshot R) (A : string) (pa : R),
       has_underscore A = false →
       (∀ price, price_of prices "USD" = Some price → truthy price = true →
                 price = ofZ 1 ∧ div pa (ofZ 1) = pa) →
       price_of prices A = Some pa → truthy pa = true → eqb pa (ofZ 0) = false →
       let table := buildExchangeRates (Some prices) in
       (MOCK_RATES (R:=R) !! ("USD_" +:+ A) = None →
        table !! ("USD_" +:+ A) = Some (div (ofZ 1) pa))
       ∧ (MOCK_RATES (R:=R) !! (A +:+ "_USD") = None →
          table !! (A +:+ "_USD") = Some pa))
  ∧ (let table :=
       buildExchangeRates (R:=number)
         (Some [("A", Some (ofZ 2)); ("B", Some (ofZ 4))]) in
     table !! "A_B" = Some (decimal 5 1) ∧ table !! "B_A" = Some (ofZ 2)).
Proof.
  assert (Hkeys : ∀ (R : Type) (N : JsNumber R) (prices : Snapshot R) A (pa : R),
            price_of prices A = Some pa → Object_keys prices ≠ []).
  { intros R N prices A pa HA Hnil. apply price_of_key in HA. rewrite Hnil in HA.
    by apply elem_of_nil in HA. }
  split_and!; [| |by vm_compute].
  - intros R N prices A B pa pb HAp HBp Hne HA HAt HA0 HB HBt Hstatic.
    rewrite buildExchangeRates_derived by eauto. by eapply derived_cross.
  - intros R N prices A pa HAp Husd HA HAt HA0 table. unfold table.
    split; intros Hstatic; rewrite buildExchangeRates_derived by eauto.
    + by eapply derived_usd_to.
    + by eapply derived_to_usd.
Qed.

Lemma derived_rates_unless_static_witness :
  buildExchangeRates (R:=number)
    (Some [("ATOM", Some (decimal 75 1)); ("USD", Some (ofZ 4));
           ("OSMO", Some (decimal 4 1))])
    !! "ATOM_OSMO"
  = Some (div (decimal 75 1) (decimal 4 1)).
Proof.
  refine (proj1 derived_rates_unless_static number binary64
            [("ATOM", Some (decimal 75 1)); ("USD", Some (ofZ 4));
             ("OSMO", Some (decimal 4 1))]
            "ATOM" "OSMO" (decimal 75 1) (decimal 4 1)
            _ _ _ _ _ _ _ _ _).
  - done.
  - done.
  - done.
  - by vm_compute.
  - done.
  - done.
  - by vm_compute.
  - done.
  - by vm_compute.
Defined.

(** C7, as worded, fails where a derived key is a static fiat key, where
    USD is itself a priced token, and where two pairs of symbols make
    the same key: from [{EUR: 2, B: 4}] the table has [USD_EUR = 0.85],
    not [1 / 2]; from [{A: 2, USD: 4}] it has [A_USD = 2 / 4], not [2];
    from [{A: 2, B_C: 4, A_B: 8, C: 32}] it has [A_B_C = 8 / 32], not
    [2 / 4]. *)
Lemma derived_rates_overwritten :
  ¬ derived_rates (R:=number)
      [("EUR", Some (ofZ 2)); ("B", Some (ofZ 4))] "EUR" "B"
  ∧ ¬ derived_rates (R:=number)
        [("A", Some (ofZ 2)); ("USD", Some (ofZ 4))] "A" "USD"
  ∧ ¬ derived_rates (R:=number)
        [("A", Some (ofZ 2)); ("B_C", Some (ofZ 4)); ("A_B", Some (ofZ 8));
         ("C", Some (ofZ 32))] "A" "B_C".
Proof.
  split_and!; intros Hclaim.
  - destruct (Hclaim (ofZ 2) (ofZ 4)) as (_ & Husd & _); [done..|].
    vm_compute in Husd. discriminate Husd.
  - destruct (Hclaim (ofZ 2) (ofZ 4)) as (_ & _ & Husd); [done..|].
    vm_compute in Husd. discriminate Husd.
  - destruct (Hclaim (ofZ 2) (ofZ 4)) as (Hcross & _); [done..|].
    specialize (Hcross ltac:(by vm_compute)).
    vm_compute in Hcross. discriminate Hcross.
Qed.

Lemma rate_unavailable_is_explicit_witness :
  getConversionRate (R:=number) "USD" "BTC" initial_globals
  = (Throw (Error "Exchange rate not available for USD_BTC"), initial_globals).
Proof.
  apply (rate_unavailable_is_explicit (R:=number) initial_globals "USD" "BTC").
  - done.
  - by vm_compute.
Defined.

Lemma static_rates_win_witness :
  buildExchangeRates (R:=number)
    (Some [("EUR", Some (decimal 11 1)); ("JPY", Some (decimal 7 3))])
    !! "EUR_JPY"
  = Some (decimal 12953 2).
Proof.
  apply (static_rates_win (R:=number)). by vm_compute.
Defined.

End Binary64Claims.

(** ** binary64: rounding *)

Module Binary64Rounding.
Import Binary64 Binary64Facts.

Local Abbreviation digits m := (Z.pos (digits2_pos m)).
Local Open Scope Q_scope.

Lemma bpow_pos e : 0 < bpow e.
Proof. unfold bpow. by apply Qpower_0_lt. Qed.

Lemma bpow_add a b : bpow (a + b) == bpow a * bpow b.
Proof. unfold bpow. by apply Qpower_plus. Qed.

Lemma bpow_Z (e : Z) : (0 ≤ e)%Z → bpow e == inject_Z (2 ^ e).
Proof.
  intros He. unfold bpow. rewrite <- (Z2Nat.id e) by done.
  generalize (Z.to_nat e). intros n. induction n as [|n IH]; [done|].
  rewrite Nat2Z.inj_succ, Z.pow_succ_r by lia.
  unfold Z.succ. rewrite Qpower_plus by done.
  rewrite IH, inject_Z_mult. change (2 ^ 1) with 2. change (inject_Z 2) with 2.
  ring.
Qed.

Lemma bpow_opp e : bpow e * bpow (- e) == 1.
Proof. rewrite <- bpow_add. by replace (e + - e)%Z with 0%Z by lia. Qed.

Lemma inject_Z_pow2_pos (n : Z) : (0 ≤ n)%Z → 0 < inject_Z (2 ^ n).
Proof.
  intros Hn. rewrite <- bpow_Z by done. apply bpow_pos.
Qed.

(** *** Shifting with round and sticky bits *)

Lemma located_shr_1 (X : Q) (mrs : shr_record) :
  (0 ≤ shr_m mrs)%Z → located X mrs →
  located (X * (1 # 2)) (shr_1 mrs) ∧ (0 ≤ shr_m (shr_1 mrs))%Z.
Proof.
  destruct mrs as [m r s]. unfold located. cbn [shr_m shr_r shr_s].
  intros Hm [Hfloor Hloc].
  destruct m as [|[p|p|]|p]; [| | | |lia]; cbn [shr_1 shr_m shr_r shr_s].
  - (* 0 *) split; [|lia]. change (inject_Z 0) with 0 in *.
    destruct r, s; simpl; lra.
  - (* 2p+1 *) split; [|lia].
    change (inject_Z (Z.pos p~1)) with (inject_Z (2 * Z.pos p + 1)) in *.
    rewrite inject_Z_plus, inject_Z_mult in Hfloor, Hloc.
    change (inject_Z 2) with 2 in *. change (inject_Z 1) with 1 in *.
    destruct r, s; simpl; lra.
  - (* 2p *) split; [|lia].
    change (inject_Z (Z.pos p~0)) with (inject_Z (2 * Z.pos p)) in *.
    rewrite inject_Z_mult in Hfloor, Hloc. change (inject_Z 2) with 2 in *.
    destruct r, s; simpl; lra.
  - (* 1 *) split; [|lia]. change (inject_Z 1) with 1 in *.
    change (inject_Z 0) with 0.
    destruct r, s; simpl; lra.
Qed.

Lemma located_proper (X Y : Q) (mrs : shr_record) :
  X == Y → located X mrs → located Y mrs.
Proof.
  unfold located. intros HXY [Hfloor Hloc]. split; [lra|].
  destruct (shr_r mrs), (shr_s mrs); lra.
Qed.

Lemma inject_Z_pow2_double (p : positive) :
  inject_Z (2 ^ Z.pos p~0) == inject_Z (2 ^ Z.pos p) * inject_Z (2 ^ Z.pos p).
Proof.
  change (Z.pos p~0) with (2 * Z.pos p)%Z.
  by rewrite pow2_double, inject_Z_mult by lia.
Qed.

Lemma inject_Z_pow2_double_succ (p : positive) :
  inject_Z (2 ^ Z.pos p~1)
  == 2 * (inject_Z (2 ^ Z.pos p) * inject_Z (2 ^ Z.pos p)).
Proof.
  change (Z.pos p~1) with (2 * Z.pos p + 1)%Z.
  by rewrite pow2_double_succ, !inject_Z_mult by lia.
Qed.

Lemma located_iter (p : positive) (X X' : Q) (mrs : shr_record) :
  (0 ≤ shr_m mrs)%Z → located X mrs →
  X' * inject_Z (2 ^ Z.pos p) == X →
  located X' (SpecFloat.iter_pos shr_1 p mrs)
  ∧ (0 ≤ shr_m (SpecFloat.iter_pos shr_1 p mrs))%Z.
Proof.
  revert X X' mrs. induction p as [p IH | p IH |]; intros X X' mrs Hm Hloc HX;
    cbn [SpecFloat.iter_pos].
  - rewrite inject_Z_pow2_double_succ in HX.
    destruct (located_shr_1 X mrs Hm Hloc) as [Hloc1 Hm1].
    destruct (IH (X * (1 # 2)) (X' * inject_Z (2 ^ Z.pos p)) _ Hm1 Hloc1)
      as [Hloc2 Hm2]; [lra|].
    by apply (IH (X' * inject_Z (2 ^ Z.pos p)) X').
  - rewrite inject_Z_pow2_double in HX.
    destruct (IH X (X' * inject_Z (2 ^ Z.pos p)) _ Hm Hloc) as [Hloc2 Hm2]; [lra|].
    by apply (IH (X' * inject_Z (2 ^ Z.pos p)) X').
  - destruct (located_shr_1 X mrs Hm Hloc) as [Hloc1 Hm1]. split; [|done].
    eapply located_proper; [|done]. change (inject_Z (2 ^ 1)) with 2 in HX. lra.
Qed.

Lemma round_nearest_even_near (X : Q) (mrs : shr_record) :
  located X mrs →
  let r := round_nearest_even (shr_m mrs) (loc_of_shr_record mrs) in
  (shr_m mrs ≤ r ≤ shr_m mrs + 1)%Z
  ∧ inject_Z r - X <= 1 # 2 ∧ X - inject_Z r <= 1 # 2.
Proof.
  destruct mrs as [m r s]. unfold located. cbn [shr_m shr_r shr_s].
  intros [Hfloor Hloc].
  destruct r, s; cbn [loc_of_shr_record round_nearest_even].
  - rewrite inject_Z_plus. change (inject_Z 1) with 1. split; [lia | lra].
  - destruct (Z.even m).
    + split; [lia | lra].
    + rewrite inject_Z_plus. change (inject_Z 1) with 1. split; [lia | lra].
  - split; [lia | lra].
  - split; [lia | lra].
Qed.

(** *** Rounding a significand of at least 53 bits, in the normal range *)

Lemma shr_located (M : positive) (l : location) (X : Q) (E n : Z) :
  located X (shr_record_of_loc (Z.pos M) l) → (0 ≤ n)%Z →
  ∃ mrs X',
    shr (shr_record_of_loc (Z.pos M) l) E n = (mrs, (E + n)%Z)
    ∧ X' * inject_Z (2 ^ n) == X ∧ located X' mrs ∧ (0 ≤ shr_m mrs)%Z.
Proof.
  intros Hloc Hn.
  assert (Hm : (0 ≤ shr_m (shr_record_of_loc (Z.pos M) l))%Z)
    by (by destruct l as [|[]]).
  destruct n as [|p|p]; [| |lia].
  - exists (shr_record_of_loc (Z.pos M) l), X.
    split_and!; [|change (inject_Z (2 ^ 0)) with 1; ring|done|done].
    unfold shr. f_equal. lia.
  - pose proof (inject_Z_pow2_pos (Z.pos p) ltac:(lia)) as HP.
    exists (SpecFloat.iter_pos shr_1 p (shr_record_of_loc (Z.pos M) l)),
      (X / inject_Z (2 ^ Z.pos p)).
    assert (HX : X / inject_Z (2 ^ Z.pos p) * inject_Z (2 ^ Z.pos p) == X)
      by (field; lra).
    destruct (located_iter p X _ _ Hm Hloc HX) as [Hloc' Hm'].
    by split_and!.
Qed.

Lemma shr_record_of_loc_m (m : Z) (l : location) :
  shr_m (shr_record_of_loc m l) = m.
Proof. by destruct l as [|[]]. Qed.

Lemma binary_round_aux_normal (s : bool) (M : positive) (E : Z) (l : location) (X : Q) :
  located X (shr_record_of_loc (Z.pos M) l) →
  (53 ≤ digits M)%Z →
  (-1074 ≤ E + (digits M - 53))%Z → (E + (digits M - 53) + 1 ≤ 971)%Z →
  ∃ (m : positive) (e : Z),
    binary_round_aux prec emax s (Z.pos M) E l = S754_finite s m e
    ∧ digits m = 53%Z
    ∧ (E + (digits M - 53) ≤ e ≤ E + (digits M - 53) + 1)%Z
    ∧ 2 * (inject_Z (Z.pos m * 2 ^ (e - E)) - X) <= inject_Z (2 ^ (digits M - 53))
    ∧ 2 * (X - inject_Z (Z.pos m * 2 ^ (e - E))) <= inject_Z (2 ^ (digits M - 53)).
Proof.
  intros Hloc Hd Hmin Hmax.
  set (n := (digits M - 53)%Z) in *.
  pose proof (digits_bounds M) as [HMlo HMhi].
  assert (Hn : (0 ≤ n)%Z) by lia.
  pose proof (pow2_pos n Hn) as HPz.
  pose proof (inject_Z_pow2_pos n Hn) as HP.
  assert (HMlo' : (2 ^ 52 * 2 ^ n ≤ Z.pos M)%Z).
  { rewrite <- pow2_split by lia. by replace (52 + n)%Z with (digits M - 1)%Z by lia. }
  assert (HMhi' : (Z.pos M < 2 ^ 53 * 2 ^ n)%Z).
  { rewrite <- pow2_split by lia. by replace (53 + n)%Z with (digits M) by lia. }
  destruct (shr_located M l X E n Hloc Hn) as (mrs & X' & Hshr & HX' & Hloc' & Hm0).
  pose proof Hloc as [HXM _]. rewrite shr_record_of_loc_m in HXM.
  pose proof Hloc' as [HXm _].
  set (m1 := shr_m mrs) in *.
  assert (Hm1lo : (Z.pos M < (m1 + 1) * 2 ^ n)%Z).
  { rewrite Zlt_Qlt, inject_Z_mult, inject_Z_plus.
    change (inject_Z 1) with 1. nra. }
  assert (Hm1hi : (m1 * 2 ^ n < Z.pos M + 1)%Z).
  { rewrite Zlt_Qlt, inject_Z_mult, inject_Z_plus.
    change (inject_Z 1) with 1. nra. }
  assert (Hm1 : (2 ^ 52 ≤ m1 < 2 ^ 53)%Z) by (split; nia).
  destruct (round_nearest_even_near X' mrs Hloc') as (Hr & Hnear1 & Hnear2).
  fold m1 in Hr, Hnear1, Hnear2.
  set (r := round_nearest_even m1 (loc_of_shr_record mrs)) in *.
  unfold binary_round_aux, shr_fexp. cbn [Zdigits2].
  replace (fexp prec emax (digits M + E) - E)%Z with n
    by (unfold fexp, SpecFloat.emin, prec, emax; lia).
  rewrite Hshr. fold m1. fold r.
  change (2 ^ 52)%Z with 4503599627370496%Z in *.
  change (2 ^ 53)%Z with 9007199254740992%Z in *.
  destruct (Z.eq_dec r 9007199254740992%Z) as [Hcarry | Hnocarry].
  - exists 4503599627370496%positive, (E + n + 1)%Z.
    rewrite Hcarry. change (Zdigits2 9007199254740992) with 54%Z.
    replace (fexp prec emax (54 + (E + n)) - (E + n))%Z with 1%Z
      by (unfold fexp, SpecFloat.emin, prec, emax; lia).
    cbn [shr shr_record_of_loc SpecFloat.iter_pos shr_1 shr_m].
    replace (E + n + 1 <=? emax - prec)%Z with true
      by (symmetry; apply Z.leb_le; unfold prec, emax; lia).
    split; [done|]. split; [done|]. split; [lia|]. split.
    + replace (E + n + 1 - E)%Z with (1 + n)%Z by lia.
      rewrite pow2_split, Z.mul_assoc, inject_Z_mult by lia.
      change (inject_Z (4503599627370496 * 2 ^ 1)) with (inject_Z 9007199254740992).
      rewrite <- Hcarry. nra.
    + replace (E + n + 1 - E)%Z with (1 + n)%Z by lia.
      rewrite pow2_split, Z.mul_assoc, inject_Z_mult by lia.
      change (inject_Z (4503599627370496 * 2 ^ 1)) with (inject_Z 9007199254740992).
      rewrite <- Hcarry. nra.
  - destruct r as [|m|m] eqn:Hrm; [lia | | lia].
    assert (Hdm : digits m = 53%Z).
    { apply digits_unique. change (2 ^ (53 - 1))%Z with 4503599627370496%Z.
      change (2 ^ 53)%Z with 9007199254740992%Z. lia. }
    exists m, (E + n)%Z. cbn [Zdigits2]. rewrite Hdm.
    replace (fexp prec emax (53 + (E + n)) - (E + n))%Z with 0%Z
      by (unfold fexp, SpecFloat.emin, prec, emax; lia).
    cbn [shr shr_record_of_loc shr_m].
    replace (E + n <=? emax - prec)%Z with true
      by (symmetry; apply Z.leb_le; unfold prec, emax; lia).
    split; [done|]. split; [done|]. split; [lia|]. split.
    + replace (E + n - E)%Z with n by lia. rewrite inject_Z_mult. nra.
    + replace (E + n - E)%Z with n by lia. rewrite inject_Z_mult. nra.
Qed.

(** *** Products and quotients of normal numbers *)

Lemma digits_between (M : positive) (lo hi : Z) :
  (0 ≤ lo)%Z → (2 ^ lo ≤ Z.pos M < 2 ^ hi)%Z → (lo < digits M ≤ hi)%Z.
Proof.
  intros Hlo [HM1 HM2]. pose proof (digits_bounds M) as [Hd1 Hd2].
  split.
  - destruct (Z.lt_ge_cases lo (digits M)) as [|Hge]; [done|].
    assert (2 ^ digits M ≤ 2 ^ lo)%Z by (apply Z.pow_le_mono_r; lia). lia.
  - destruct (Z.le_gt_cases (digits M) hi) as [|Hgt]; [done|].
    assert (2 ^ hi ≤ 2 ^ (digits M - 1))%Z by (apply Z.pow_le_mono_r; lia). lia.
Qed.

Lemma normal_bounds (m : positive) :
  digits m = 53%Z → (2 ^ 52 ≤ Z.pos m < 2 ^ 53)%Z.
Proof.
  intros Hd. pose proof (digits_bounds m) as Hb. rewrite Hd in Hb.
  by change (53 - 1)%Z with 52%Z in Hb.
Qed.

Lemma value_finite (m : positive) (e E : Z) :
  (E ≤ e)%Z →
  value (S754_finite false m e) == inject_Z (Z.pos m * 2 ^ (e - E)) * bpow E.
Proof.
  intros He. cbn [value cond_Zopp].
  rewrite inject_Z_mult, <- bpow_Z by lia.
  rewrite <- Qmult_assoc, <- bpow_add. by replace (e - E + E)%Z with e by lia.
Qed.

Lemma mul_normal (m1 m2 : positive) (e1 e2 : Z) :
  digits m1 = 53%Z → digits m2 = 53%Z → (-500 ≤ e1 + e2 ≤ 500)%Z →
  ∃ (m : positive) (e : Z),
    SFmul prec emax (S754_finite false m1 e1) (S754_finite false m2 e2)
    = S754_finite false m e
    ∧ digits m = 53%Z
    ∧ (e1 + e2 + 52 ≤ e ≤ e1 + e2 + 54)%Z
    ∧ let v := value (S754_finite false m1 e1) * value (S754_finite false m2 e2) in
      let r := value (S754_finite false m e) in
      inject_Z (2 ^ 53) * (r - v) <= v ∧ inject_Z (2 ^ 53) * (v - r) <= v.
Proof.
  intros Hd1 Hd2 He.
  pose proof (normal_bounds m1 Hd1) as Hm1. pose proof (normal_bounds m2 Hd2) as Hm2.
  set (M := (m1 * m2)%positive).
  assert (HM : (2 ^ 104 ≤ Z.pos M < 2 ^ 106)%Z).
  { unfold M. rewrite Pos2Z.inj_mul.
    change (2 ^ 104)%Z with (2 ^ 52 * 2 ^ 52)%Z.
    change (2 ^ 106)%Z with (2 ^ 53 * 2 ^ 53)%Z. nia. }
  pose proof (digits_between M 104 106 ltac:(lia) HM) as HdM.
  assert (Hloc : located (inject_Z (Z.pos M))
                   (shr_record_of_loc (Z.pos M) loc_Exact)).
  { unfold located. cbn. lra. }
  destruct (binary_round_aux_normal false M (e1 + e2) loc_Exact _ Hloc)
    as (m & e & Hround & Hdm & Hexp & Herr1 & Herr2); [lia..|].
  exists m, e. cbn [SFmul xorb]. fold M. split; [done|]. split; [done|].
  split; [lia|].
  set (n := (digits M - 53)%Z) in *.
  pose proof (digits_bounds M) as [HMlo _].
  assert (HX : inject_Z (2 ^ 52) * inject_Z (2 ^ n) <= inject_Z (Z.pos M)).
  { rewrite <- inject_Z_mult, <- Zle_Qle, <- pow2_split by lia.
    by replace (52 + n)%Z with (digits M - 1)%Z by lia. }
  cbv zeta.
  rewrite (value_finite m e (e1 + e2)) by lia.
  assert (Hv : value (S754_finite false m1 e1) * value (S754_finite false m2 e2)
               == inject_Z (Z.pos M) * bpow (e1 + e2)).
  { cbn [value cond_Zopp]. unfold M. rewrite Pos2Z.inj_mul, inject_Z_mult, bpow_add.
    ring. }
  rewrite Hv. pose proof (bpow_pos (e1 + e2)) as HB.
  change (inject_Z (2 ^ 53)) with (2 * inject_Z (2 ^ 52)).
  set (R := inject_Z (Z.pos m * 2 ^ (e - (e1 + e2)))) in *.
  set (P := inject_Z (2 ^ n)) in *. set (X := inject_Z (Z.pos M)) in *.
  set (B := bpow (e1 + e2)) in *. change (inject_Z (2 ^ 52)) with 4503599627370496 in *.
  split; nra.
Qed.

Lemma new_location_located (d q r : Z) (X : Q) :
  (0 < d)%Z → (0 ≤ r < d)%Z →
  X * inject_Z d == inject_Z (d * q + r) →
  located X (shr_record_of_loc q (new_location d r)).
Proof.
  intros Hd Hr HX.
  assert (HD : 0 < inject_Z d) by (by rewrite <- (Zlt_Qlt 0)).
  assert (Hr0 : 0 <= inject_Z r) by (rewrite <- (Zle_Qle 0); lia).
  assert (Hrd : inject_Z r < inject_Z d) by (rewrite <- Zlt_Qlt; lia).
  rewrite inject_Z_plus, inject_Z_mult in HX.
  assert (Hfloor : inject_Z q <= X < inject_Z q + 1) by (split; nra).
  assert (Hhalf : ∀ c, (2 * r ?= d)%Z = c →
            match c with
            | Lt => X < inject_Z q + (1 # 2)
            | Eq => X == inject_Z q + (1 # 2)
            | Gt => inject_Z q + (1 # 2) < X
            end).
  { intros c Hc. destruct (Z.compare_spec (2 * r) d) as [Heq | Hlt | Hgt]; subst c.
    - apply (f_equal inject_Z) in Heq. rewrite inject_Z_mult in Heq.
      change (inject_Z 2) with 2 in Heq. rewrite <- Heq in HX, HD. nra.
    - rewrite Zlt_Qlt, inject_Z_mult in Hlt. change (inject_Z 2) with 2 in Hlt. nra.
    - rewrite Zlt_Qlt, inject_Z_mult in Hgt. change (inject_Z 2) with 2 in Hgt. nra. }
  destruct (Z.eq_dec r 0%Z) as [-> | Hr1].
  { change (inject_Z 0) with 0 in HX. unfold new_location.
    destruct (Z.even d); unfold located; cbn; (split; nra). }
  assert (Hrb : (r =? 0)%Z = false) by (by apply Z.eqb_neq).
  assert (Hpos : inject_Z q < X).
  { assert (0 < inject_Z r) by (rewrite <- (Zlt_Qlt 0); lia). nra. }
  unfold new_location. destruct (Z.even d) eqn:Heven.
  - unfold new_location_even. rewrite Hrb.
    destruct (2 * r ?= d)%Z eqn:Hc; pose proof (Hhalf _ eq_refl) as Hh;
      unfold located; cbn in Hh |- *; (split; lra).
  - assert (Hodd : (2 * r ≠ d)%Z).
    { intros <-. by rewrite Z.even_even in Heven. }
    unfold new_location_odd. rewrite Hrb.
    destruct (Z.compare_spec (2 * r + 1) d) as [Heq | Hlt | Hgt].
    + pose proof (Hhalf Lt ltac:(apply Z.compare_lt_iff; lia)) as Hh.
      unfold located; cbn in Hh |- *. split; lra.
    + pose proof (Hhalf Lt ltac:(apply Z.compare_lt_iff; lia)) as Hh.
      unfold located; cbn in Hh |- *. split; lra.
    + pose proof (Hhalf Gt ltac:(apply Z.compare_gt_iff; lia)) as Hh.
      unfold located; cbn in Hh |- *. split; lra.
Qed.

Lemma div_normal (m1 m2 : positive) (e1 e2 : Z) :
  digits m1 = 53%Z → digits m2 = 53%Z → (-500 ≤ e1 - e2 ≤ 500)%Z →
  ∃ (m : positive) (e : Z),
    SFdiv prec emax (S754_finite false m1 e1) (S754_finite false m2 e2)
    = S754_finite false m e
    ∧ digits m = 53%Z
    ∧ (e1 - e2 - 53 ≤ e ≤ e1 - e2 - 51)%Z
    ∧ let x := value (S754_finite false m1 e1) in
      let y := value (S754_finite false m2 e2) in
      let r := value (S754_finite false m e) in
      inject_Z (2 ^ 53) * (r * y - x) <= x ∧ inject_Z (2 ^ 53) * (x - r * y) <= x.
Proof.
  intros Hd1 Hd2 He.
  pose proof (normal_bounds m1 Hd1) as Hm1. pose proof (normal_bounds m2 Hd2) as Hm2.
  unfold SFdiv, SFdiv_core_binary. cbn [Zdigits2 xorb]. rewrite Hd1, Hd2.
  replace (Z.min (fexp prec emax (53 + e1 - (53 + e2))) (e1 - e2))
    with (e1 - e2 - 53)%Z by (unfold fexp, SpecFloat.emin, prec, emax; lia).
  replace (e1 - e2 - (e1 - e2 - 53))%Z with 53%Z by lia.
  rewrite Z.shiftl_mul_pow2 by lia.
  pose proof (Z_div_mod (Z.pos m1 * 2 ^ 53) (Z.pos m2) ltac:(lia)) as Hdm.
  destruct (Z.div_eucl (Z.pos m1 * 2 ^ 53) (Z.pos m2)) as [q r].
  destruct Hdm as [Hqr Hr].
  assert (Hq : (2 ^ 52 ≤ q < 2 ^ 54)%Z).
  { change (2 ^ 52)%Z with 4503599627370496%Z in *.
    change (2 ^ 53)%Z with 9007199254740992%Z in *.
    change (2 ^ 54)%Z with 18014398509481984%Z. split; nia. }
  destruct q as [|Q|Q]; [lia | | lia].
  pose proof (digits_between Q 52 54 ltac:(lia) Hq) as HdQ.
  set (X := inject_Z (Z.pos m1 * 2 ^ 53) / inject_Z (Z.pos m2)).
  assert (Hm2q : 0 < inject_Z (Z.pos m2)) by (by rewrite <- (Zlt_Qlt 0)).
  assert (HX : X * inject_Z (Z.pos m2) == inject_Z (Z.pos m1 * 2 ^ 53))
    by (unfold X; field; lra).
  assert (Hloc : located X (shr_record_of_loc (Z.pos Q) (new_location (Z.pos m2) r))).
  { apply new_location_located; [lia | lia |]. by rewrite HX, Hqr. }
  destruct (binary_round_aux_normal false Q (e1 - e2 - 53) _ X Hloc)
    as (m & e & Hround & Hdm & Hexp & Herr1 & Herr2); [lia..|].
  exists m, e. split; [done|]. split; [done|]. split; [lia|].
  set (n := (digits Q - 53)%Z) in *.
  pose proof (digits_bounds Q) as [HQlo _].
  pose proof Hloc as [[HXQ _] _]. rewrite shr_record_of_loc_m in HXQ.
  assert (HXlo : inject_Z (2 ^ 52) * inject_Z (2 ^ n) <= X).
  { eapply Qle_trans; [|exact HXQ].
    rewrite <- inject_Z_mult, <- Zle_Qle, <- pow2_split by lia.
    by replace (52 + n)%Z with (digits Q - 1)%Z by lia. }
  cbv zeta. rewrite (value_finite m e (e1 - e2 - 53)) by lia.
  set (R := inject_Z (Z.pos m * 2 ^ (e - (e1 - e2 - 53)))) in *.
  set (W := inject_Z (Z.pos m2) * (bpow (e1 - e2 - 53) * bpow e2)).
  assert (HW : 0 < W).
  { unfold W. apply Qmult_lt_0_compat; [done|].
    apply Qmult_lt_0_compat; apply bpow_pos. }
  assert (Hx : value (S754_finite false m1 e1) == X * W).
  { cbn [value cond_Zopp]. unfold W.
    transitivity (X * inject_Z (Z.pos m2) * (bpow (e1 - e2 - 53) * bpow e2));
      [|ring].
    rewrite HX, inject_Z_mult, <- bpow_Z, <- !Qmult_assoc by lia.
    rewrite <- !bpow_add. by replace (53 + (e1 - e2 - 53 + e2))%Z with e1 by lia. }
  assert (Hry : R * bpow (e1 - e2 - 53) * value (S754_finite false m2 e2) == R * W).
  { cbn [value cond_Zopp]. unfold W. ring. }
  rewrite Hx, Hry.
  change (inject_Z (2 ^ 53)) with (2 * inject_Z (2 ^ 52)).
  set (P := inject_Z (2 ^ n)) in *.
  change (inject_Z (2 ^ 52)) with 4503599627370496 in *.
  split; nra.
Qed.

(** *** [Math.round] and integers *)

Lemma bpow_ge_1 (e : Z) : (0 ≤ e)%Z → 1 <= bpow e.
Proof.
  intros He. rewrite bpow_Z by done. change 1 with (inject_Z 1).
  rewrite <- Zle_Qle. pose proof (pow2_pos e He). lia.
Qed.

Lemma bpow_le (a b : Z) : (a ≤ b)%Z → bpow a <= bpow b.
Proof.
  intros Hab. replace b with (a + (b - a))%Z by lia. rewrite bpow_add.
  pose proof (bpow_pos a). pose proof (bpow_ge_1 (b - a) ltac:(lia)). nra.
Qed.

Lemma value_ofZ (k : Z) :
  (0 < k < 2 ^ 53)%Z →
  ∃ (m : positive) (e : Z),
    of_Z k = S754_finite false m e ∧ digits m = 53%Z ∧ (-52 ≤ e ≤ 0)%Z
    ∧ value (S754_finite false m e) == inject_Z k.
Proof.
  intros Hk. destruct (represents_exists k Hk) as (m & e & Hrep).
  pose proof (represents_normal _ _ _ Hrep) as (_ & He & Hd & _).
  exists m, e. rewrite (of_Z_represents _ _ _ Hrep).
  destruct Hrep as (_ & He0 & Hm). split_and!; [done | done | lia | lia |].
  cbn [value cond_Zopp]. rewrite Hm, inject_Z_mult, <- bpow_Z by lia.
  rewrite <- Qmult_assoc, (Qmult_comm (bpow (- e))), bpow_opp. ring.
Qed.

Lemma math_round_normal (m : positive) (e : Z) :
  (e < 0)%Z →
  ∃ z : Z,
    math_round (S754_finite false m e) = of_Z z ∧ (0 ≤ z)%Z
    ∧ inject_Z z <= value (S754_finite false m e) + (1 # 2)
    ∧ value (S754_finite false m e) + (1 # 2) < inject_Z z + 1.
Proof.
  intros He. unfold math_round.
  replace (0 <=? e)%Z with false by (symmetry; apply Z.leb_gt; lia).
  cbn [cond_Zopp value].
  set (k := (- e)%Z). pose proof (pow2_pos k ltac:(lia)) as Hk.
  set (z := ((2 * Z.pos m + 2 ^ k) / 2 ^ (k + 1))%Z).
  assert (Hpow : (2 ^ (k + 1) = 2 * 2 ^ k)%Z)
    by (rewrite Z.add_1_r, Z.pow_succ_r by lia; done).
  pose proof (Z.div_mod (2 * Z.pos m + 2 ^ k) (2 ^ (k + 1)) ltac:(lia)) as Hdiv.
  pose proof (Z.mod_pos_bound (2 * Z.pos m + 2 ^ k) (2 ^ (k + 1)) ltac:(lia)) as Hmod.
  fold z in Hdiv.
  assert (Hz : (0 ≤ z)%Z) by (apply Z.div_pos; lia).
  exists z. split.
  { destruct (Z.eqb_spec z 0) as [-> | ]; done. }
  split; [done|].
  assert (HT : 0 < inject_Z (2 ^ k)) by (by rewrite <- (Zlt_Qlt 0)).
  assert (Hval : inject_Z (Z.pos m) * bpow e * inject_Z (2 ^ k) == inject_Z (Z.pos m)).
  { rewrite <- bpow_Z, <- Qmult_assoc by lia. unfold k. rewrite bpow_opp. ring. }
  set (v := inject_Z (Z.pos m) * bpow e) in *.
  assert (Hsum : (v + (1 # 2)) * (2 * inject_Z (2 ^ k))
                 == inject_Z (2 ^ (k + 1) * z
                              + (2 * Z.pos m + 2 ^ k) `mod` 2 ^ (k + 1))).
  { rewrite <- Hdiv, inject_Z_plus, inject_Z_mult. change (inject_Z 2) with 2.
    transitivity (2 * (v * inject_Z (2 ^ k)) + inject_Z (2 ^ k)); [ring|].
    rewrite Hval. ring. }
  rewrite inject_Z_plus, inject_Z_mult, Hpow, inject_Z_mult in Hsum.
  change (inject_Z 2) with 2 in Hsum.
  rewrite Hpow in Hmod. destruct Hmod as [Hmod0 Hmod1].
  rewrite (Zle_Qle 0) in Hmod0. rewrite Zlt_Qlt, inject_Z_mult in Hmod1.
  change (inject_Z 2) with 2 in Hmod1. change (inject_Z 0) with 0 in Hmod0.
  set (rem := inject_Z ((2 * Z.pos m + 2 ^ k) `mod` (2 * 2 ^ k))) in *.
  set (T := inject_Z (2 ^ k)) in *.
  split; nra.
Qed.


(** *** Amounts that are whole cents *)

Lemma of_Z_100 : of_Z 100 = S754_finite false 7036874417766400 (-46).
Proof. done. Qed.

Lemma value_100 : value (S754_finite false 7036874417766400 (-46)) == 100.
Proof. done. Qed.

Lemma value_normal_pos (m : positive) (e : Z) :
  digits m = 53%Z →
  inject_Z (2 ^ 52) * bpow e <= value (S754_finite false m e)
  ∧ value (S754_finite false m e) < inject_Z (2 ^ 53) * bpow e.
Proof.
  intros Hd. pose proof (normal_bounds m Hd) as [Hlo Hhi].
  rewrite Zle_Qle in Hlo. rewrite Zlt_Qlt in Hhi.
  cbn [value cond_Zopp]. pose proof (bpow_pos e). split; nra.
Qed.

(** A normal number below [2^52] has a negative exponent. *)
Lemma small_value_exponent (m : positive) (e : Z) :
  digits m = 53%Z → value (S754_finite false m e) < inject_Z (2 ^ 52) → (e < 0)%Z.
Proof.
  intros Hd Hv. destruct (Z.lt_ge_cases e 0) as [|He]; [done|]. exfalso.
  pose proof (value_normal_pos m e Hd) as [Hlo _].
  pose proof (bpow_ge_1 e He). change (inject_Z (2 ^ 52)) with 4503599627370496 in *.
  nra.
Qed.

Lemma decimal2_normal (k : Z) :
  (1 ≤ k ≤ 100000000)%Z →
  ∃ (m : positive) (e : Z),
    decimal (R:=number) k 2 = S754_finite false m e
    ∧ digits m = 53%Z ∧ (-59 ≤ e ≤ -5)%Z
    ∧ rel53 (inject_Z k) (value (S754_finite false m e) * 100).
Proof.
  intros Hk. unfold decimal.
  change (ofZ (10 ^ Z.of_nat 2)) with (of_Z 100). change (ofZ k) with (of_Z k).
  destruct (value_ofZ k) as (mk & ek & Hofk & Hdk & Hek & Hvk);
    [change (2 ^ 53)%Z with 9007199254740992%Z; lia|].
  rewrite Hofk, of_Z_100.
  destruct (div_normal mk 7036874417766400 ek (-46) Hdk eq_refl)
    as (m & e & Hdiv & Hd & He & Herr1 & Herr2); [lia|].
  exists m, e. change (div ?x ?y) with (SFdiv prec emax x y).
  split; [done|]. split; [done|]. split; [lia|].
  cbv zeta in Herr1, Herr2. rewrite value_100, Hvk in Herr1, Herr2.
  by split.
Qed.

Lemma round_mul_normal (m1 m2 : positive) (e1 e2 : Z) :
  digits m1 = 53%Z → digits m2 = 53%Z → (-500 ≤ e1 + e2 ≤ 500)%Z →
  value (S754_finite false m1 e1) * value (S754_finite false m2 e2)
  <= inject_Z (2 ^ 51) →
  ∃ (z : Z) (r : Q),
    math_round (SFmul prec emax (S754_finite false m1 e1) (S754_finite false m2 e2))
    = of_Z z
    ∧ (0 ≤ z)%Z
    ∧ rel53 (value (S754_finite false m1 e1) * value (S754_finite false m2 e2)) r
    ∧ inject_Z z <= r + (1 # 2) ∧ r + (1 # 2) < inject_Z z + 1.
Proof.
  intros Hd1 Hd2 He Hv.
  destruct (mul_normal m1 m2 e1 e2 Hd1 Hd2 He)
    as (m & e & Hmul & Hd & Hexp & Herr1 & Herr2).
  cbv zeta in Herr1, Herr2. rewrite Hmul.
  set (v := value (S754_finite false m1 e1) * value (S754_finite false m2 e2)) in *.
  assert (Hneg : (e < 0)%Z).
  { apply (small_value_exponent m e Hd).
    change (inject_Z (2 ^ 53)) with 9007199254740992 in *.
    change (inject_Z (2 ^ 52)) with 4503599627370496.
    change (inject_Z (2 ^ 51)) with 2251799813685248 in *. lra. }
  destruct (math_round_normal m e Hneg) as (z & Hround & Hz & Hlo & Hhi).
  exists z, (value (S754_finite false m e)). by split_and!.
Qed.

Lemma convertToCents_whole (k : Z) :
  (0 ≤ k ≤ 100000000)%Z → convertToCents (decimal (R:=number) k 2) = ofZ k.
Proof.
  intros Hk. destruct (Z.eq_dec k 0%Z) as [-> | Hk0]; [done|].
  destruct (decimal2_normal k) as (m & e & Ha & Hd & He & Herr1 & Herr2); [lia|].
  unfold convertToCents. rewrite Ha. change (ofZ 100) with (of_Z 100).
  rewrite of_Z_100. change (round (mul ?x ?y)) with (math_round (SFmul prec emax x y)).
  assert (HK : 1 <= inject_Z k <= 100000000).
  { change 1 with (inject_Z 1). change 100000000 with (inject_Z 100000000).
    rewrite <- !Zle_Qle. lia. }
  change (inject_Z (2 ^ 53)) with 9007199254740992 in *.
  destruct (round_mul_normal m 7036874417766400 e (-46) Hd eq_refl)
    as (z & r & Hround & Hz & [Hr1 Hr2] & Hlo & Hhi); [lia | |].
  { rewrite value_100. change (inject_Z (2 ^ 51)) with 2251799813685248. lra. }
  rewrite value_100 in Hr1, Hr2. change (inject_Z (2 ^ 53)) with 9007199254740992 in *.
  rewrite Hround. change (ofZ k) with (of_Z k). f_equal.
  assert (Hz_lt : (z < k + 1)%Z).
  { rewrite Zlt_Qlt, inject_Z_plus. change (inject_Z 1) with 1. lra. }
  assert (Hk_lt : (k < z + 1)%Z).
  { rewrite Zlt_Qlt, inject_Z_plus. change (inject_Z 1) with 1. lra. }
  lia.
Qed.

Lemma validateInput_whole_cents (k : Z) :
  (0 ≤ k ≤ 100000000)%Z →
  validateInput (VNumber (decimal (R:=number) k 2)) = Return (VNumber (decimal k 2)).
Proof.
  intros Hk. destruct (Z.eq_dec k 0%Z) as [-> | Hk0]; [done|].
  destruct (decimal2_normal k) as (m & e & Ha & Hd & He & Herr1 & Herr2); [lia|].
  rewrite Ha. cbn [validateInput isNaN binary64 is_nan].
  rewrite ltb_zero. cbn [is_negative].
  assert (Hvalid : valid_binary prec emax (S754_finite false m e) = true).
  { apply bounded_spec. lia. }
  destruct (ltb (R:=number) (ofZ 1000000) (S754_finite false m e)) eqn:Hltb; [|done].
  exfalso. apply (ltb_ceiling _ Hvalid) in Hltb. unfold exceeds in Hltb.
  replace (0 <=? e)%Z with false in Hltb by (symmetry; apply Z.leb_gt; lia).
  assert (Hm : inject_Z (1000000 * 2 ^ (- e)) + 1 <= inject_Z (Z.pos m)).
  { change 1 with (inject_Z 1). rewrite <- inject_Z_plus, <- Zle_Qle. lia. }
  rewrite inject_Z_mult, <- bpow_Z in Hm by lia.
  pose proof (value_normal_pos m e Hd) as [_ Hhi].
  pose proof (bpow_pos e) as HB. pose proof (bpow_opp e) as Hone.
  assert (HK : inject_Z k <= 100000000).
  { change 100000000 with (inject_Z 100000000). rewrite <- Zle_Qle. lia. }
  assert (Hva : 1000000 + bpow e <= value (S754_finite false m e)).
  { cbn [value cond_Zopp]. change (inject_Z 1000000) with 1000000 in Hm.
    set (B := bpow e) in *. set (Bi := bpow (- e)) in *. nra. }
  change (inject_Z (2 ^ 53)) with 9007199254740992 in *. lra.
Qed.

(** The rates of the static table lie between [2^-9] and [2^9]. *)
Lemma static_rate_in_range (key : string) (rate : number) :
  MOCK_RATES !! key = Some rate → rate_in_range rate = true.
Proof.
  intros Hrate.
  apply MOCK_RATES_entries in Hrate.
  assert (Hall : forallb (λ kv, rate_in_range kv.2) (MOCK_ENTRIES (R:=number)) = true)
    by (by vm_compute).
  rewrite forallb_forall in Hall. apply list_elem_of_In in Hrate.
  apply (Hall _ Hrate).
Qed.

Lemma rate_in_range_spec (rate : number) :
  rate_in_range rate = true →
  ∃ m e, rate = S754_finite false m e ∧ digits m = 53%Z ∧ (-61 ≤ e ≤ -44)%Z.
Proof.
  destruct rate as [| | |[] m e]; try done. unfold rate_in_range.
  rewrite !andb_true_iff, Z.eqb_eq, !Z.leb_le. intros [[Hd ?] ?].
  by exists m, e.
Qed.

Lemma rate_value_bound (m : positive) (e : Z) :
  digits m = 53%Z → (-61 ≤ e ≤ -44)%Z →
  0 < value (S754_finite false m e) ∧ value (S754_finite false m e) < 512.
Proof.
  intros Hd He. pose proof (value_normal_pos m e Hd) as [Hlo Hhi].
  pose proof (bpow_pos e). pose proof (bpow_le e (-44) ltac:(lia)) as Hle.
  change (bpow (-44)) with (1 # 17592186044416) in Hle.
  change (inject_Z (2 ^ 53)) with 9007199254740992 in *.
  change (inject_Z (2 ^ 52)) with 4503599627370496 in *.
  split; lra.
Qed.

End Binary64Rounding.

(** ** binary64: products and roundings of every validated amount *)

Module Binary64Range.
Import Binary64 Binary64Facts Binary64Rounding.

Local Abbreviation digits m := (Z.pos (digits2_pos m)).
Local Open Scope Q_scope.

(** *** Rounding a significand of at least 53 bits, underflow included *)

Lemma fexp_spec (e : Z) : fexp prec emax e = Z.max (e - 53) (-1074).
Proof. done. Qed.

Lemma binary_round_aux_any (s : bool) (M : positive) (E : Z) (l : location) (X : Q) :
  located X (shr_record_of_loc (Z.pos M) l) →
  (53 ≤ digits M)%Z → (E + (digits M - 53) + 1 ≤ 971)%Z →
  let n := Z.max (digits M - 53) (-1074 - E) in
  (binary_round_aux prec emax s (Z.pos M) E l = S754_zero s
   ∧ 2 * X <= inject_Z (2 ^ n))
  ∨ ∃ (m : positive) (e : Z),
      binary_round_aux prec emax s (Z.pos M) E l = S754_finite s m e
      ∧ bounded prec emax m e = true
      ∧ (E + n ≤ e ≤ E + n + 1)%Z
      ∧ 2 * (inject_Z (Z.pos m * 2 ^ (e - E)) - X) <= inject_Z (2 ^ n)
      ∧ 2 * (X - inject_Z (Z.pos m * 2 ^ (e - E))) <= inject_Z (2 ^ n).
Proof.
  intros Hloc Hd Hmax n.
  pose proof (digits_bounds M) as [HMlo HMhi].
  assert (Hn : (0 ≤ n)%Z) by lia.
  assert (Hn' : (digits M - 53 ≤ n)%Z) by lia.
  assert (HEn : (-1074 ≤ E + n ≤ 970)%Z) by lia.
  pose proof (pow2_pos n Hn) as HPz.
  pose proof (inject_Z_pow2_pos n Hn) as HP.
  assert (HMhi' : (Z.pos M < 2 ^ 53 * 2 ^ n)%Z).
  { rewrite <- pow2_split by lia.
    assert (2 ^ digits M ≤ 2 ^ (53 + n))%Z by (apply Z.pow_le_mono_r; lia). lia. }
  assert (HMlo' : (-1074 < E + n → 2 ^ 52 * 2 ^ n ≤ Z.pos M)%Z).
  { intros Hnormal. rewrite <- pow2_split by lia.
    by replace (52 + n)%Z with (digits M - 1)%Z by lia. }
  destruct (shr_located M l X E n Hloc Hn) as (mrs & X' & Hshr & HX' & Hloc' & Hm0).
  pose proof Hloc as [HXM _]. rewrite shr_record_of_loc_m in HXM.
  pose proof Hloc' as [HXm _].
  set (m1 := shr_m mrs) in *.
  assert (Hm1lo : (Z.pos M < (m1 + 1) * 2 ^ n)%Z).
  { rewrite Zlt_Qlt, inject_Z_mult, inject_Z_plus.
    change (inject_Z 1) with 1. nra. }
  assert (Hm1hi : (m1 * 2 ^ n < Z.pos M + 1)%Z).
  { rewrite Zlt_Qlt, inject_Z_mult, inject_Z_plus.
    change (inject_Z 1) with 1. nra. }
  assert (Hm1 : (0 ≤ m1 < 2 ^ 53)%Z) by (split; nia).
  assert (Hm1' : (-1074 < E + n → 2 ^ 52 ≤ m1)%Z).
  { intros Hnormal. specialize (HMlo' Hnormal). nia. }
  destruct (round_nearest_even_near X' mrs Hloc') as (Hr & Hnear1 & Hnear2).
  fold m1 in Hr, Hnear1, Hnear2.
  set (r := round_nearest_even m1 (loc_of_shr_record mrs)) in *.
  unfold binary_round_aux, shr_fexp. cbn [Zdigits2].
  replace (fexp prec emax (digits M + E) - E)%Z with n
    by (rewrite fexp_spec; lia).
  rewrite Hshr. fold m1. fold r.
  change (2 ^ 52)%Z with 4503599627370496%Z in *.
  change (2 ^ 53)%Z with 9007199254740992%Z in *.
  destruct (Z.eq_dec r 9007199254740992%Z) as [Hcarry | Hnocarry].
  - right. exists 4503599627370496%positive, (E + n + 1)%Z.
    rewrite Hcarry. change (Zdigits2 9007199254740992) with 54%Z.
    replace (fexp prec emax (54 + (E + n)) - (E + n))%Z with 1%Z
      by (rewrite fexp_spec; lia).
    cbn [shr shr_record_of_loc SpecFloat.iter_pos shr_1 shr_m].
    replace (E + n + 1 <=? emax - prec)%Z with true
      by (symmetry; apply Z.leb_le; unfold prec, emax; lia).
    split; [done|]. split; [apply bounded_spec; cbn; lia|]. split; [lia|]. split.
    + replace (E + n + 1 - E)%Z with (1 + n)%Z by lia.
      rewrite pow2_split, Z.mul_assoc, inject_Z_mult by lia.
      change (inject_Z (4503599627370496 * 2 ^ 1)) with (inject_Z 9007199254740992).
      rewrite <- Hcarry. nra.
    + replace (E + n + 1 - E)%Z with (1 + n)%Z by lia.
      rewrite pow2_split, Z.mul_assoc, inject_Z_mult by lia.
      change (inject_Z (4503599627370496 * 2 ^ 1)) with (inject_Z 9007199254740992).
      rewrite <- Hcarry. nra.
  - destruct r as [|m|m] eqn:Hrm; [| | lia].
    + left. cbn [Zdigits2].
      assert (Hshift : (fexp prec emax (0 + (E + n)) - (E + n) ≤ 0)%Z)
        by (rewrite fexp_spec; lia).
      destruct (fexp prec emax (0 + (E + n)) - (E + n))%Z as [|p|p]; [|lia|];
        cbn [shr shr_record_of_loc shr_m]; (split; [done|]);
        change (inject_Z 0) with 0 in *; nra.
    + right.
      pose proof (digits_bounds m) as [Hdlo Hdhi].
      assert (Hdm : (digits m ≤ 53)%Z).
      { destruct (Z.le_gt_cases (digits m) 53) as [|Hgt]; [done|].
        assert (2 ^ 53 ≤ 2 ^ (digits m - 1))%Z by (apply Z.pow_le_mono_r; lia).
        change (2 ^ 53)%Z with 9007199254740992%Z in *. lia. }
      assert (Hdm' : (-1074 < E + n → digits m = 53)%Z).
      { intros Hnormal. specialize (Hm1' Hnormal).
        apply digits_unique. change (2 ^ (53 - 1))%Z with 4503599627370496%Z.
        change (2 ^ 53)%Z with 9007199254740992%Z. lia. }
      exists m, (E + n)%Z. cbn [Zdigits2].
      assert (Hshift : (fexp prec emax (digits m + (E + n)) - (E + n) ≤ 0)%Z)
        by (rewrite fexp_spec; lia).
      assert (Hb : bounded prec emax m (E + n) = true).
      { apply bounded_spec. destruct (Z.eq_dec (E + n)%Z (-1074)%Z); lia. }
      destruct (fexp prec emax (digits m + (E + n)) - (E + n))%Z as [|p|p]; [|lia|];
        cbn [shr shr_record_of_loc shr_m];
        (replace (E + n <=? emax - prec)%Z with true
           by (symmetry; apply Z.leb_le; unfold prec, emax; lia));
        (split; [done|]); (split; [done|]); (split; [lia|]);
        replace (E + n - E)%Z with n by lia; rewrite inject_Z_mult; split; nra.
Qed.

(** *** Products with a normal number *)

Lemma bounded_digits (m : positive) (e : Z) :
  bounded prec emax m e = true → (digits m ≤ 53 ∧ -1074 ≤ e)%Z.
Proof. intros [Hcanon _]%bounded_spec. lia. Qed.

Lemma value_lower (m : positive) (e : Z) :
  bpow e <= value (S754_finite false m e).
Proof.
  cbn [value cond_Zopp]. pose proof (bpow_pos e).
  assert (1 <= inject_Z (Z.pos m)).
  { change 1 with (inject_Z 1). rewrite <- Zle_Qle. lia. }
  nra.
Qed.

Lemma value_exponent (m : positive) (e k : Z) :
  value (S754_finite false m e) < bpow k → (e < k)%Z.
Proof.
  intros Hv. destruct (Z.lt_ge_cases e k) as [|Hge]; [done|]. exfalso.
  pose proof (value_lower m e). pose proof (bpow_le k e Hge). lra.
Qed.

Lemma value_nonneg (x : number) : nonneg x = true → 0 <= value x.
Proof.
  destruct x as [[]| | |[] m e]; try done. intros _.
  pose proof (value_lower m e). pose proof (bpow_pos e). lra.
Qed.

Lemma mul_nonneg (x : number) (m2 : positive) (e2 : Z) :
  nonneg x = true → value x < inject_Z (2 ^ 60) →
  digits m2 = 53%Z → (e2 ≤ 0)%Z →
  let y := S754_finite false m2 e2 in
  let v := value x * value y in
  let r := value (SFmul prec emax x y) in
  nonneg (SFmul prec emax x y) = true
  ∧ inject_Z (2 ^ 53) * (r - v) <= v + bpow (-1022)
  ∧ inject_Z (2 ^ 53) * (v - r) <= v + bpow (-1022).
Proof.
  intros Hx Hsmall Hd2 He2 y v r. subst y v r.
  pose proof (bpow_pos (-1022)) as Heta.
  destruct x as [[]| | |[] m1 e1]; try done.
  cbn [nonneg] in Hx.
  pose proof (bounded_digits m1 e1 Hx) as [Hd1 He1].
  rewrite <- bpow_Z in Hsmall by lia.
  pose proof (value_exponent m1 e1 60 Hsmall) as He1'.
  pose proof (normal_bounds m2 Hd2) as Hm2.
  pose proof (digits_bounds m1) as [Hm1lo Hm1hi].
  set (M := (m1 * m2)%positive).
  assert (HM : (2 ^ 52 ≤ Z.pos M < 2 ^ 106)%Z).
  { unfold M. rewrite Pos2Z.inj_mul.
    assert (2 ^ digits m1 ≤ 2 ^ 53)%Z by (apply Z.pow_le_mono_r; lia).
    change (2 ^ 106)%Z with (2 ^ 53 * 2 ^ 53)%Z. nia. }
  pose proof (digits_between M 52 106 ltac:(lia) HM) as HdM.
  assert (Hloc : located (inject_Z (Z.pos M))
                   (shr_record_of_loc (Z.pos M) loc_Exact)).
  { unfold located. cbn. lra. }
  set (E := (e1 + e2)%Z).
  assert (Hv : value (S754_finite false m1 e1) * value (S754_finite false m2 e2)
               == inject_Z (Z.pos M) * bpow E).
  { cbn [value cond_Zopp]. unfold M, E.
    rewrite Pos2Z.inj_mul, inject_Z_mult, bpow_add. ring. }
  pose proof (bpow_pos E) as HB.
  set (n := Z.max (digits M - 53) (-1074 - E)).
  assert (Hn : (0 ≤ n)%Z) by lia.
  pose proof (inject_Z_pow2_pos n Hn) as HT.
  (* half an ulp, against the value and the smallest number *)
  assert (Hulp : inject_Z (2 ^ 52) * inject_Z (2 ^ n) * bpow E
                 <= inject_Z (Z.pos M) * bpow E + bpow (-1022)).
  { destruct (Z.max_spec (digits M - 53) (-1074 - E)) as [[_ Hmax] | [_ Hmax]];
      fold n in Hmax.
    - rewrite <- !bpow_Z, <- !bpow_add by lia.
      replace (52 + n + E)%Z with (-1022)%Z by lia.
      pose proof (Qmult_le_0_compat (inject_Z (Z.pos M)) (bpow E)) as H0.
      assert (0 <= inject_Z (Z.pos M)) by (rewrite <- (Zle_Qle 0); lia).
      lra.
    - pose proof (digits_bounds M) as [HMlo _].
      assert (HX : inject_Z (2 ^ 52) * inject_Z (2 ^ n) <= inject_Z (Z.pos M)).
      { rewrite <- inject_Z_mult, <- Zle_Qle, <- pow2_split by lia.
        by replace (52 + n)%Z with (digits M - 1)%Z by lia. }
      assert (inject_Z (2 ^ 52) * inject_Z (2 ^ n) * bpow E
              <= inject_Z (Z.pos M) * bpow E)
        by (apply Qmult_le_compat_r; lra).
      lra. }
  cbn [SFmul xorb]. fold M. fold E. rewrite Hv.
  change (inject_Z (2 ^ 53)) with (2 * inject_Z (2 ^ 52)).
  destruct (binary_round_aux_any false M E loc_Exact _ Hloc)
    as [[-> Hzero] | (m & e & -> & Hb & Hexp & Herr1 & Herr2)]; [lia | lia | |].
  - fold n in Hzero. cbn [nonneg value]. split; [done|].
    set (X := inject_Z (Z.pos M)) in *. set (T := inject_Z (2 ^ n)) in *.
    set (B := bpow E) in *. set (eta := bpow (-1022)) in *.
    change (inject_Z (2 ^ 52)) with 4503599627370496 in *.
    assert (0 <= X) by (unfold X; rewrite <- (Zle_Qle 0); lia).
    split; nra.
  - fold n in Hexp, Herr1, Herr2. cbn [nonneg]. split; [done|].
    rewrite (value_finite m e E) by lia.
    set (R := inject_Z (Z.pos m * 2 ^ (e - E))) in *.
    set (X := inject_Z (Z.pos M)) in *. set (T := inject_Z (2 ^ n)) in *.
    set (B := bpow E) in *. set (eta := bpow (-1022)) in *.
    change (inject_Z (2 ^ 52)) with 4503599627370496 in *.
    split; nra.
Qed.

Lemma round_nonneg (x : number) :
  nonneg x = true → value x < inject_Z (2 ^ 52) →
  ∃ z : Z,
    math_round x = of_Z z ∧ (0 ≤ z)%Z
    ∧ inject_Z z <= value x + (1 # 2) ∧ value x + (1 # 2) < inject_Z z + 1.
Proof.
  intros Hx Hsmall. destruct x as [[]| | |[] m e]; try done.
  { exists 0%Z. cbn [value]. change (inject_Z 0) with 0. split; [done|].
    split; [done|]. lra. }
  cbn [nonneg] in Hx. apply math_round_normal.
  destruct (Z.lt_ge_cases e 0) as [|He]; [done|]. exfalso.
  apply bounded_spec in Hx as [Hcanon _].
  assert (Hd : digits m = 53%Z) by lia.
  pose proof (small_value_exponent m e Hd Hsmall). lia.
Qed.

Lemma of_Z_nonneg (z : Z) :
  (0 ≤ z < 2 ^ 53)%Z →
  nonneg (of_Z z) = true ∧ value (of_Z z) == inject_Z z.
Proof.
  intros Hz. destruct (Z.eq_dec z 0%Z) as [-> | Hz0]; [done|].
  destruct (value_ofZ z) as (m & e & -> & Hd & He & Hv); [lia|].
  split; [|done]. cbn [nonneg]. apply bounded_spec. lia.
Qed.

Lemma eta_small : bpow (-1022) <= 1 # 1000.
Proof. apply Qle_bool_imp_le. by vm_compute. Qed.

(** *** Validated amounts *)

Lemma validated_amount (x : number) :
  valid_binary prec emax x = true →
  validateInput (VNumber x) = Return (VNumber x) →
  (∃ s, x = S754_zero s)
  ∨ ∃ m e, x = S754_finite false m e ∧ bounded prec emax m e = true
           ∧ value x <= 1000000.
Proof.
  intros Hvalid Hpass. pose proof (ltb_ceiling x Hvalid) as Hceiling.
  cbn [validateInput] in Hpass. rewrite ltb_zero in Hpass.
  destruct x as [s|[]| |[] m e]; try done; [by left; exists s|].
  right. exists m, e. split; [done|]. split; [done|].
  cbn [isNaN binary64 is_nan is_negative] in Hpass.
  destruct (ltb (R:=number) (ofZ 1000000) (S754_finite false m e)) eqn:Hltb;
    [done|].
  assert (Hnot : ¬ exceeds 1000000 (S754_finite false m e)).
  { intros Hex. apply Hceiling in Hex. congruence. }
  unfold exceeds in Hnot. cbn [value cond_Zopp].
  pose proof (bpow_pos e) as HB.
  destruct (Z.leb_spec 0 e) as [He | He].
  - rewrite bpow_Z, <- inject_Z_mult by done.
    change 1000000 with (inject_Z 1000000). rewrite <- Zle_Qle. lia.
  - assert (Hm : inject_Z (Z.pos m) <= inject_Z (1000000 * 2 ^ (- e)))
      by (rewrite <- Zle_Qle; lia).
    rewrite inject_Z_mult, <- bpow_Z in Hm by lia.
    pose proof (bpow_opp e) as Hone.
    change (inject_Z 1000000) with 1000000 in Hm.
    set (X := inject_Z (Z.pos m)) in *.
    set (B := bpow e) in *. set (Bi := bpow (- e)) in *. nra.
Qed.

(** The static rates are at most 1.38, those into JPY apart. *)
Lemma static_rate_small (key : string) (rate : number) :
  MOCK_RATES !! key = Some rate →
  key ∉ ["USD_JPY"; "EUR_JPY"; "GBP_JPY"] →
  value rate <= 138 # 100.
Proof.
  intros Hrate Hkey.
  apply MOCK_RATES_entries in Hrate.
  assert (Hall : forallb (λ kv, bool_decide (kv.1 ∈ ["USD_JPY"; "EUR_JPY"; "GBP_JPY"])
                                || Qle_bool (value kv.2) (138 # 100))
                   (MOCK_ENTRIES (R:=number)) = true)
    by (by vm_compute).
  rewrite forallb_forall in Hall. apply list_elem_of_In in Hrate.
  specialize (Hall _ Hrate). cbn [fst snd] in Hall.
  apply orb_true_iff in Hall as [Hin | Hle]; [|by apply Qle_bool_imp_le].
  by apply bool_decide_eq_true in Hin.
Qed.

(** *** The two roundings of the pipeline against the three of the
    rounded product, for every validated amount *)

Lemma cents_of_any_product (m mr : positive) (e er : Z) :
  bounded prec emax m e = true →
  value (S754_finite false m e) <= 1000000 →
  digits mr = 53%Z → (-61 ≤ er ≤ -44)%Z →
  value (S754_finite false mr er) <= 138 # 100 →
  let amount := S754_finite false m e in
  let rate := S754_finite false mr er in
  ∃ c z1 z2 : Z,
    math_round (SFmul prec emax amount (of_Z 100)) = of_Z c
    ∧ math_round (SFmul prec emax (of_Z c) rate) = of_Z z1
    ∧ math_round (SFmul prec emax (SFmul prec emax amount rate) (of_Z 100))
      = of_Z z2
    ∧ (0 ≤ c ≤ 100000000 ∧ -1 ≤ z1 - z2 ≤ 1)%Z.
Proof.
  intros Hb Hmax Hdr Her Hrmax amount rate.
  pose proof eta_small as Heta. pose proof (bpow_pos (-1022)) as Heta0.
  set (eta := bpow (-1022)) in *.
  pose proof (rate_value_bound mr er Hdr Her) as [Hr0 _]. fold rate in Hr0.
  assert (Hnn : nonneg amount = true) by done.
  pose proof (value_nonneg amount Hnn) as Ha0.
  set (va := value amount) in *. set (vr := value rate) in *.
  fold amount in Hmax. fold va in Hmax. fold rate in Hrmax. fold vr in Hrmax.
  (* the cents of the amount *)
  pose proof (mul_nonneg amount 7036874417766400 (-46) Hnn) as H1.
  cbv zeta in H1. fold eta in H1. fold va in H1. rewrite value_100 in H1.
  destruct H1 as (Hn1 & H1a & H1b);
    [change (inject_Z (2 ^ 60)) with 1152921504606846976; lra | done | lia |].
  rewrite <- of_Z_100 in Hn1, H1a, H1b.
  set (p1 := SFmul prec emax amount (of_Z 100)) in *.
  set (vp1 := value p1) in *.
  change (inject_Z (2 ^ 53)) with 9007199254740992 in *.
  destruct (round_nonneg p1 Hn1) as (c & Hc & Hc0 & Hc1 & Hc2).
  { fold vp1. change (inject_Z (2 ^ 52)) with 4503599627370496. lra. }
  fold vp1 in Hc1, Hc2.
  assert (Hcmax : (c ≤ 100000000)%Z).
  { apply Z.lt_succ_r. rewrite Zlt_Qlt. unfold Z.succ. rewrite inject_Z_plus.
    change (inject_Z 100000000) with 100000000. change (inject_Z 1) with 1.
    lra. }
  destruct (of_Z_nonneg c) as [Hnc Hvc];
    [change (2 ^ 53)%Z with 9007199254740992%Z; lia|].
  set (C := inject_Z c) in *.
  assert (HC : 0 <= C ∧ C <= 100000000).
  { unfold C. change 0 with (inject_Z 0).
    change 100000000 with (inject_Z 100000000). rewrite <- !Zle_Qle. lia. }
  (* the cents of the conversion *)
  pose proof (mul_nonneg (of_Z c) mr er Hnc) as H2.
  cbv zeta in H2. fold eta in H2. fold rate in H2. fold vr in H2. rewrite Hvc in H2.
  assert (HB : 0 <= C * vr ∧ C * vr <= 138000000).
  { split; [apply Qmult_le_0_compat; lra|].
    apply Qle_trans with (100000000 * vr); [|lra].
    apply Qmult_le_compat_r; lra. }
  destruct H2 as (Hn2 & H2a & H2b);
    [change (inject_Z (2 ^ 60)) with 1152921504606846976; lra | done | lia |].
  set (p2 := SFmul prec emax (of_Z c) rate) in *.
  set (vp2 := value p2) in *.
  change (inject_Z (2 ^ 53)) with 9007199254740992 in *.
  destruct (round_nonneg p2 Hn2) as (z1 & Hz1 & Hz10 & Hz1a & Hz1b).
  { fold vp2. change (inject_Z (2 ^ 52)) with 4503599627370496. lra. }
  fold vp2 in Hz1a, Hz1b.
  (* the rounded product *)
  pose proof (mul_nonneg amount mr er Hnn) as H3.
  cbv zeta in H3. fold eta in H3. fold rate in H3. fold va vr in H3.
  assert (HA : 0 <= va * vr ∧ va * vr <= 1380000).
  { split; [apply Qmult_le_0_compat; lra|].
    apply Qle_trans with (1000000 * vr); [|lra].
    apply Qmult_le_compat_r; lra. }
  destruct H3 as (Hn3 & H3a & H3b);
    [change (inject_Z (2 ^ 60)) with 1152921504606846976; lra | done | lia |].
  set (q1 := SFmul prec emax amount rate) in *.
  set (vq1 := value q1) in *.
  change (inject_Z (2 ^ 53)) with 9007199254740992 in *.
  pose proof (mul_nonneg q1 7036874417766400 (-46) Hn3) as H4.
  cbv zeta in H4. fold eta in H4. fold vq1 in H4. rewrite value_100 in H4.
  destruct H4 as (Hn4 & H4a & H4b);
    [change (inject_Z (2 ^ 60)) with 1152921504606846976; lra | done | lia |].
  rewrite <- of_Z_100 in Hn4, H4a, H4b.
  set (q2 := SFmul prec emax q1 (of_Z 100)) in *.
  set (vq2 := value q2) in *.
  change (inject_Z (2 ^ 53)) with 9007199254740992 in *.
  destruct (round_nonneg q2 Hn4) as (z2 & Hz2 & Hz20 & Hz2a & Hz2b).
  { fold vq2. change (inject_Z (2 ^ 52)) with 4503599627370496. lra. }
  fold vq2 in Hz2a, Hz2b.
  (* the cents of the amount, times the rate *)
  assert (HS1 : (C - va * 100) * vr <= (51 # 100) * vr)
    by (apply Qmult_le_compat_r; lra).
  assert (HS2 : (va * 100 - C) * vr <= (51 # 100) * vr)
    by (apply Qmult_le_compat_r; lra).
  exists c, z1, z2. split; [done|]. split; [done|]. split; [done|].
  split; [lia|].
  assert (Hz12 : (z1 < z2 + 2)%Z).
  { rewrite Zlt_Qlt, inject_Z_plus. change (inject_Z 2) with 2. lra. }
  assert (Hz21 : (z2 < z1 + 2)%Z).
  { rewrite Zlt_Qlt, inject_Z_plus. change (inject_Z 2) with 2. lra. }
  lia.
Qed.

End Binary64Range.

Module Binary64Cents.
Import Binary64 Binary64Facts Binary64Rounding Binary64Range.

Lemma convertFromCents_decimal (z : Z) :
  convertFromCents (R:=number) (ofZ z) = decimal z 2.
Proof. done. Qed.




(** The two roundings of the pipeline against the three of the rounded
    product, for amounts of at least one cent. *)
Lemma cents_of_product (k : Z) (mr : positive) (er : Z) :
  1 ≤ k ≤ 100000000 → Z.pos (digits2_pos mr) = 53 → -61 ≤ er ≤ -44 →
  let rate := S754_finite false mr er in
  ∃ z1 z2 : Z,
    math_round (SFmul prec emax (of_Z k) rate) = of_Z z1
    ∧ math_round (SFmul prec emax (SFmul prec emax (decimal (R:=number) k 2) rate)
                         (of_Z 100))
      = of_Z z2
    ∧ -1 ≤ z1 - z2 ≤ 1.
Proof.
  intros Hk Hdr Her rate. subst rate.
  pose proof (rate_value_bound mr er Hdr Her) as [Hr0 Hr1].
  set (vr := value (S754_finite false mr er)) in *.
  assert (HK : (1 <= inject_Z k <= 100000000)%Q).
  { change 1%Q with (inject_Z 1). change 100000000%Q with (inject_Z 100000000).
    rewrite <- !Zle_Qle. lia. }
  assert (HP : (0 < inject_Z k * vr ∧ inject_Z k * vr <= 51200000000)%Q).
  { split; [apply Qmult_lt_0_compat; lra|].
    apply Qle_trans with (100000000 * vr)%Q; [|lra].
    apply Qmult_le_compat_r; lra. }
  (* the pipeline *)
  destruct (value_ofZ k) as (mk & ek & Hofk & Hdk & Hek & Hvk);
    [change (2 ^ 53) with 9007199254740992; lia|].
  destruct (round_mul_normal mk mr ek er Hdk Hdr)
    as (z1 & r1 & Hround1 & Hz1 & [Hr1a Hr1b] & Hlo1 & Hhi1); [lia | |].
  { fold vr. rewrite Hvk. change (inject_Z (2 ^ 51)) with 2251799813685248%Q. lra. }
  fold vr in Hr1a, Hr1b. rewrite Hvk in Hr1a, Hr1b.
  (* the rounded product *)
  destruct (decimal2_normal k) as (ma & ea & Ha & Hda & Hea & Ha1 & Ha2); [lia|].
  set (va := value (S754_finite false ma ea)) in *.
  destruct (mul_normal ma mr ea er Hda Hdr)
    as (mp & ep & Hmul & Hdp & Hep & Hp1 & Hp2); [lia|].
  cbv zeta in Hp1, Hp2. fold va vr in Hp1, Hp2.
  set (vp := value (S754_finite false mp ep)) in *.
  assert (HS1 : (inject_Z (2 ^ 53) * (va * 100 - inject_Z k) * vr
                 <= inject_Z k * vr)%Q)
    by (apply Qmult_le_compat_r; lra).
  assert (HS2 : (inject_Z (2 ^ 53) * (inject_Z k - va * 100) * vr
                 <= inject_Z k * vr)%Q)
    by (apply Qmult_le_compat_r; lra).
  change (inject_Z (2 ^ 53)) with 9007199254740992%Q in *.
  destruct (round_mul_normal mp 7036874417766400 ep (-46) Hdp eq_refl)
    as (z2 & r2 & Hround2 & Hz2 & [Hr2a Hr2b] & Hlo2 & Hhi2); [lia | |].
  { fold vp. rewrite value_100.
    change (inject_Z (2 ^ 51)) with 2251799813685248%Q. lra. }
  fold vp in Hr2a, Hr2b. rewrite value_100 in Hr2a, Hr2b.
  change (inject_Z (2 ^ 53)) with 9007199254740992%Q in *.
  exists z1, z2. rewrite Hofk, Ha, Hmul, of_Z_100.
  split; [done|]. split; [done|].
  assert (Hz12 : z1 < z2 + 2).
  { rewrite Zlt_Qlt, inject_Z_plus. change (inject_Z 2) with 2%Q. lra. }
  assert (Hz21 : z2 < z1 + 2).
  { rewrite Zlt_Qlt, inject_Z_plus. change (inject_Z 2) with 2%Q. lra. }
  lia.
Qed.

Lemma whole_cents_near (k : Z) (rate : number) :
  0 ≤ k ≤ 100000000 → rate_in_range rate = true →
  one_cent_apart
    (convertFromCents (round (mul (convertToCents (decimal k 2)) rate)))
    (round2 (mul (decimal k 2) rate)).
Proof.
  intros Hk Hrange. rewrite convertToCents_whole by done.
  destruct (rate_in_range_spec rate Hrange) as (mr & er & -> & Hdr & Her).
  unfold one_cent_apart, convertFromCents, round2.
  change (round (mul (ofZ k) ?r)) with (math_round (SFmul prec emax (of_Z k) r)).
  change (round (mul (mul ?a ?r) (ofZ 100)))
    with (math_round (SFmul prec emax (SFmul prec emax a r) (of_Z 100))).
  destruct (Z.eq_dec k 0) as [-> | Hk0].
  { exists 0, 0. by split_and!. }
  destruct (cents_of_product k mr er) as (z1 & z2 & -> & -> & Hz); [lia | done | done |].
  by exists z1, z2.
Qed.

Lemma any_amount_near (amount rate : number) :
  valid_binary prec emax amount = true →
  validateInput (VNumber amount) = Return (VNumber amount) →
  rate_in_range rate = true → (value rate <= 138 # 100)%Q →
  let output := convertFromCents (round (mul (convertToCents amount) rate)) in
  let reference := round2 (mul amount rate) in
  one_cent_apart output reference
  ∨ (amount = S754_zero true ∧ output = S754_zero true
     ∧ reference = S754_zero true).
Proof.
  intros Hvalid Hpass Hrange Hsmall.
  destruct (rate_in_range_spec rate Hrange) as (mr & er & -> & Hdr & Her).
  unfold one_cent_apart, convertFromCents, convertToCents, round2.
  change (round (mul (round (mul ?a (ofZ 100))) ?r))
    with (math_round (SFmul prec emax
                        (math_round (SFmul prec emax a (of_Z 100))) r)).
  change (round (mul (mul ?a ?r) (ofZ 100)))
    with (math_round (SFmul prec emax (SFmul prec emax a r) (of_Z 100))).
  destruct (validated_amount amount Hvalid Hpass)
    as [[[] ->] | (m & e & -> & Hb & Hmax)].
  - right. by split_and!.
  - left. exists 0, 0. by split_and!.
  - left.
    destruct (cents_of_any_product m mr e er Hb Hmax Hdr Her Hsmall)
      as (c & z1 & z2 & -> & -> & -> & _ & Hz).
    by exists z1, z2.
Qed.

(** C1 (amended).  On binary64, for distinct currencies whose key is in
    the static table, in every state whose table holds the static rate
    of the pair, and for
    - every amount that passes validation, when the pair is one of the
      nine other than [USD_JPY], [EUR_JPY] and [GBP_JPY];
    - every amount of whole cents between 0 and 1,000,000.00 (the number
      [k / 100] for an integer [k] between 0 and 100,000,000), for each
      of the twelve pairs:
    the conversion returns a whole number of cents [z1 / 100],
    [round(amount * rate, 2)] is a whole number of cents [z2 / 100], the
    two differ by at most one cent, and the state is left as it was.
    For the amount [-0], which passes validation, both are [-0]. *)
Theorem conversion_near_rounded_product
    (amount : number) (fromCurrency toCurrency : string) (rate : number)
    (g : Globals number) :
  fromCurrency ≠ toCurrency →
  MOCK_RATES !! (fromCurrency +:+ "_" +:+ toCurrency) = Some rate →
  exchangeRates g !! (fromCurrency +:+ "_" +:+ toCurrency) = Some rate →
  (well_formed (VNumber amount)
   ∧ validateInput (VNumber amount) = Return (VNumber amount)
   ∧ fromCurrency +:+ "_" +:+ toCurrency ∉ ["USD_JPY"; "EUR_JPY"; "GBP_JPY"])
  ∨ (∃ k : Z, 0 ≤ k ≤ 100000000 ∧ amount = decimal k 2) →
  ∃ output,
    convert amount fromCurrency toCurrency g = (Return output, g)
    ∧ (one_cent_apart output (round2 (mul amount rate))
       ∨ (amount = S754_zero true ∧ output = S754_zero true
          ∧ round2 (mul amount rate) = S754_zero true)).
Proof.
  intros Hne Hstatic Hrate Hcase.
  assert (Hget : getConversionRate fromCurrency toCurrency g = (Return rate, g)).
  { rewrite getConversionRate_lookup by done. by rewrite Hrate. }
  pose proof (static_rate_in_range _ _ Hstatic) as Hrange.
  destruct Hcase as [(Hvalid & Hpass & Hkey) | (k & Hk & ->)].
  - rewrite convert_valid, (performConversion_rate g _ _ _ _ Hget) by done.
    eexists. split; [reflexivity|].
    apply any_amount_near; [done | done | done |].
    by eapply static_rate_small.
  - rewrite convert_valid by (by apply validateInput_whole_cents).
    rewrite (performConversion_rate g _ _ _ _ Hget).
    eexists. split; [reflexivity|]. left. by apply whole_cents_near.
Qed.

Lemma conversion_near_rounded_product_witness :
  ∃ output,
    convert (decimal (R:=number) 4 3) "GBP" "USD" initial_globals
    = (Return output, initial_globals)
    ∧ (one_cent_apart output (round2 (mul (decimal 4 3) (decimal 137 2)))
       ∨ (decimal (R:=number) 4 3 = S754_zero true ∧ output = S754_zero true
          ∧ round2 (mul (decimal (R:=number) 4 3) (decimal 137 2))
            = S754_zero true)).
Proof.
  apply (conversion_near_rounded_product (decimal 4 3) "GBP" "USD");
    [done | by vm_compute | by vm_compute |].
  left. split; [by vm_compute|]. split; [by vm_compute|].
  apply (bool_decide_unpack _). by vm_compute.
Defined.

End Binary64Cents.

(** ** The price feed and the page, for every number instance *)

Section Session.
Context {R : Type} `{JsNumber R}.
Implicit Types (g : Globals R) (response : Response R).

Lemma fetchPrices_cached response g data :
  pricesCache g = Some data → fetchPrices response g = (Return (Some data), g).
Proof.
  intros Hcache. unfold fetchPrices, mbind, script_bind, gets. by rewrite Hcache.
Qed.

Lemma fetchPrices_fresh response g :
  pricesCache g = None →
  fetchPrices response g
  = match delivered response with
    | Some data =>
        (Return (Some data),
         {| exchangeRates := exchangeRates g; pricesCache := Some data;
            formatters := formatters g |})
    | None => (Return None, g)
    end.
Proof.
  intros Hcache. unfold fetchPrices, mbind, script_bind, gets. rewrite Hcache.
  by destruct response as [|[] data].
Qed.

Lemma fetchPrices_outcome response g :
  ∃ result g1,
    fetchPrices response g = (Return result, g1)
    ∧ exchangeRates g1 = exchangeRates g
    ∧ formatters g1 = formatters g
    ∧ pricesCache g1 = result
    ∧ result = match pricesCache g with
               | Some data => Some data
               | None => delivered response
               end
    ∧ match result with
      | Some data => True
      | None => g1 = g
      end.
Proof.
  destruct (pricesCache g) as [data|] eqn:Hcache.
  - exists (Some data), g. by rewrite (fetchPrices_cached _ _ data).
  - rewrite fetchPrices_fresh by done.
    destruct (delivered response) as [data|].
    + by eexists _, _.
    + by exists None, g.
Qed.

(** X1.  [fetchPrices] never throws and touches neither the rate table
    nor the formatter cache.  With prices cached it returns them
    whatever the response; otherwise it returns the data of a response
    that is ok, or [null].  Data it has returned is cached, so that
    every later call returns the same data without regard to its
    response; a failure leaves the state as it was, so that the next
    call fetches again. *)
Theorem fetchPrices_caches_success_only response later g :
  ∃ result g1,
    fetchPrices response g = (Return result, g1)
    ∧ exchangeRates g1 = exchangeRates g
    ∧ formatters g1 = formatters g
    ∧ pricesCache g1 = result
    ∧ result = match pricesCache g with
               | Some data => Some data
               | None => delivered response
               end
    ∧ match result with
      | Some data => fetchPrices later g1 = (Return (Some data), g1)
      | None => g1 = g
      end.
Proof.
  destruct (pricesCache g) as [data|] eqn:Hcache.
  - exists (Some data), g. rewrite (fetchPrices_cached _ _ data) by done.
    split_and!; try done; by apply fetchPrices_cached.
  - rewrite fetchPrices_fresh by done.
    destruct (delivered response) as [data|].
    + eexists _, _. split_and!; try done; by apply fetchPrices_cached.
    + by exists None, g.
Qed.

Lemma initializeRates_run response g :
  initializeRates response g
  = match (fetchPrices response g) with
    | (Return (Some data), g1) =>
        (Return tt, {| exchangeRates := buildExchangeRates (Some data);
                       pricesCache := pricesCache g1;
                       formatters := formatters g1 |})
    | (Return None, g1) => (Return tt, g1)
    | (Throw e, g1) => (Throw e, g1)
    end.
Proof.
  unfold initializeRates, mbind, script_bind.
  by destruct (fetchPrices response g) as [[[data|]|e] g1].
Qed.

Lemma initializeRates_outcome response later g :
  ∃ g1,
    initializeRates response g = (Return tt, g1)
    ∧ formatters g1 = formatters g
    ∧ match pricesCache g1 with
      | Some data =>
          exchangeRates g1 = buildExchangeRates (Some data)
          ∧ initializeRates later g1 = (Return tt, g1)
      | None => g1 = g
      end
    ∧ ((∀ key rate, MOCK_RATES !! key = Some rate →
                    exchangeRates g !! key = Some rate) →
       ∀ key rate, MOCK_RATES !! key = Some rate →
                   exchangeRates g1 !! key = Some rate).
Proof.
  rewrite initializeRates_run.
  destruct (fetchPrices_outcome response g)
    as (result & g0 & Hfetch & Hrates & Hfs & Hcache & _).
  rewrite Hfetch. destruct result as [data|].
  - eexists. split; [reflexivity|]. cbn [formatters pricesCache exchangeRates].
    rewrite Hcache. split_and!; [done | done | | ].
    + rewrite initializeRates_run.
      rewrite (fetchPrices_cached later _ data) by done. done.
    + intros _ key rate Hstatic. by apply buildExchangeRates_static.
  - exists g0. rewrite Hcache.
    destruct (fetchPrices_outcome response g)
      as (result' & g0' & Hfetch' & _ & _ & _ & _ & Hsame).
    rewrite Hfetch in Hfetch'. injection Hfetch' as <- <-.
    subst g0. split_and!; [done | done | done |]. intros Hg. exact Hg.
Qed.

(** X2.  [initializeRates] never throws and leaves the formatter cache
    alone.  If it ends without cached prices (the fetch failed and
    nothing was cached) the whole state is as before; otherwise the rate
    table is the one built from the cached prices, and running it again,
    whatever the response, changes nothing.  A state in which every
    static pair has its static rate stays so. *)
Theorem initializeRates_keeps_static_rates response later g :
  ∃ g1,
    initializeRates response g = (Return tt, g1)
    ∧ formatters g1 = formatters g
    ∧ match pricesCache g1 with
      | Some data =>
          exchangeRates g1 = buildExchangeRates (Some data)
          ∧ initializeRates later g1 = (Return tt, g1)
      | None => g1 = g
      end
    ∧ ((∀ key rate, MOCK_RATES !! key = Some rate →
                    exchangeRates g !! key = Some rate) →
       ∀ key rate, MOCK_RATES !! key = Some rate →
                   exchangeRates g1 !! key = Some rate).
Proof. apply initializeRates_outcome. Qed.

(** The conversion reads the rate table at the key of its pair and
    nothing else of the state, which it leaves as it was. *)
Lemma convert_run amount fromCurrency toCurrency g :
  convert amount fromCurrency toCurrency g
  = (match validateInput (VNumber amount) with
     | Throw e => Throw e
     | Return _ =>
         match (if String.eqb fromCurrency toCurrency then Some (ofZ 1)
                else exchangeRates g !! (fromCurrency +:+ "_" +:+ toCurrency)) with
         | Some rate =>
             Return (convertFromCents (round (mul (convertToCents amount) rate)))
         | None =>
             Throw (Error ("Exchange rate not available for "
                           +:+ fromCurrency +:+ "_" +:+ toCurrency))
         end
     end, g).
Proof.
  unfold convert, performConversion, getConversionRate, mbind, script_bind,
    lift, gets, throw, mret, script_ret.
  destruct (validateInput (VNumber amount)); [|done].
  destruct (String.eqb fromCurrency toCurrency); [done|].
  by destruct (exchangeRates g !! _).
Qed.

(** X3.  Loading the price feed does not change what a static pair
    converts to: for a pair whose key is in the static table and in the
    current table with the same rate, the conversion of every amount
    gives after [initializeRates], whatever the response, the result it
    gave before. *)
Theorem static_pairs_convert_as_before
    response g amount fromCurrency toCurrency rate :
  MOCK_RATES !! (fromCurrency +:+ "_" +:+ toCurrency) = Some rate →
  exchangeRates g !! (fromCurrency +:+ "_" +:+ toCurrency) = Some rate →
  (convert amount fromCurrency toCurrency (initializeRates response g).2).1
  = (convert amount fromCurrency toCurrency g).1.
Proof.
  intros Hstatic Hrate. rewrite !convert_run. cbn [fst].
  destruct (initializeRates_outcome response response g)
    as (g1 & -> & _ & Hcache & _). cbn [snd].
  destruct (pricesCache g1) as [data|]; [|by subst].
  destruct Hcache as [-> _].
  by rewrite (buildExchangeRates_static _ _ _ Hstatic), Hrate.
Qed.

(** X4.  [updateOutputAmount] never throws and leaves the globals as
    they were.  It leaves the output empty and the error banner hidden
    exactly for an input that is NaN or zero.  Otherwise it shows the
    result of the conversion, with the banner hidden, exactly when the
    conversion returns it; and it shows an error, with the output
    emptied, exactly when the conversion threw, the message being that
    of the error.  The message "Input must be a valid number" is never
    shown. *)
Theorem updateOutputAmount_shows_every_outcome amount fromCurrency toCurrency g :
  ∃ display,
    updateOutputAmount amount fromCurrency toCurrency g = (Return display, g)
    ∧ (output_field display = None ∧ error_banner display = None
       ↔ isNaN amount || eqb amount (ofZ 0) = true)
    ∧ (∀ outputAmount,
         output_field display = Some outputAmount
         ↔ isNaN amount || eqb amount (ofZ 0) = false
           ∧ convert amount fromCurrency toCurrency g = (Return outputAmount, g))
    ∧ (∀ message,
         error_banner display = Some message
         ↔ isNaN amount || eqb amount (ofZ 0) = false
           ∧ ∃ e, convert amount fromCurrency toCurrency g = (Throw e, g)
                  ∧ message = message_of e)
    ∧ (is_Some (output_field display) → error_banner display = None)
    ∧ (is_Some (error_banner display) → output_field display = None)
    ∧ error_banner display ≠ Some "Input must be a valid number".
Proof.
  assert (Hmsg : ∀ e, isNaN amount = false →
            validateInput (VNumber amount) = Throw e →
            Some (message_of e) ≠ Some "Input must be a valid number").
  { intros e Hnan Hvalid. simpl in Hvalid. rewrite Hnan in Hvalid.
    destruct (ltb amount (ofZ 0)); [by injection Hvalid as <-|].
    destruct (ltb (ofZ 1000000) amount); [by injection Hvalid as <-|done]. }
  unfold updateOutputAmount.
  destruct (isNaN amount || eqb amount (ofZ 0)) eqn:Hblank.
  { eexists. split; [reflexivity|]. cbn [output_field error_banner].
    split_and!; try done; try (by intros [? ?]);
      intros ?; (split; [done | by intros [? _]]). }
  apply orb_false_iff in Hblank as [Hnan _].
  unfold try_catch, mbind, script_bind. rewrite convert_run.
  destruct (validateInput (VNumber amount)) as [v|e] eqn:Hvalid;
    [destruct (if String.eqb fromCurrency toCurrency then _ else _) as [rate|]|];
    (eexists; split; [reflexivity|]); cbn [output_field error_banner];
    (split_and!;
     [ split; [by intros [? ?] | done]
     | intros x; split;
       [ intros Hx; split; [done|]; by simplify_eq
       | intros [_ Hx]; by simplify_eq ]
     | intros m; split;
       [ intros Hm; split; [done|]; simplify_eq; eauto
       | intros [_ (e' & He' & ->)]; by simplify_eq ]
     | first [by intros _ | by intros [? ?]]
     | first [by intros _ | by intros [? ?]]
     | first [done | by eapply Hmsg] ]).
Qed.

(** *** The formatter cache *)

Lemma getCurrencyFormatter_run currencyCode g :
  getCurrencyFormatter currencyCode g
  = if bool_decide (is_Some (formatters g !! currencyCode)) then
      (Return (default "" (formatters g !! currencyCode)), g)
    else if IsWellFormedCurrencyCode currencyCode then
      (Return currencyCode,
       {| exchangeRates := exchangeRates g; pricesCache := pricesCache g;
          formatters := <[currencyCode := currencyCode]> (formatters g) |})
    else (Throw (RangeError ("Invalid currency code : " +:+ currencyCode)), g).
Proof.
  unfold getCurrencyFormatter, mbind, script_bind, gets, modify, throw, mret,
    script_ret.
  destruct (bool_decide (is_Some (formatters g !! currencyCode))); [done|].
  destruct (IsWellFormedCurrencyCode currencyCode); [|done].
  cbn [formatters]. by rewrite lookup_insert_eq.
Qed.

(** X5.  For a code that is cached or well formed,
    [getCurrencyFormatter] returns a formatter and has it cached
    afterwards, so that a second call returns the same formatter and
    changes nothing; a call for a cached code changes nothing either,
    and no call touches the formatter of another code, the rate table
    or the price cache.  For a code that is neither cached nor well
    formed it throws a [RangeError] and leaves the state as it was. *)
Theorem getCurrencyFormatter_memoises currencyCode g :
  (is_Some (formatters g !! currencyCode)
   ∨ IsWellFormedCurrencyCode currencyCode = true →
   ∃ formatter g1,
     getCurrencyFormatter currencyCode g = (Return formatter, g1)
     ∧ formatters g1 !! currencyCode = Some formatter
     ∧ getCurrencyFormatter currencyCode g1 = (Return formatter, g1)
     ∧ (is_Some (formatters g !! currencyCode) → g1 = g)
     ∧ (∀ other, other ≠ currencyCode →
          formatters g1 !! other = formatters g !! other)
     ∧ exchangeRates g1 = exchangeRates g
     ∧ pricesCache g1 = pricesCache g)
  ∧ (formatters g !! currencyCode = None →
     IsWellFormedCurrencyCode currencyCode = false →
     ∃ message,
       getCurrencyFormatter currencyCode g = (Throw (RangeError message), g)).
Proof.
  split.
  - intros Hok. rewrite getCurrencyFormatter_run.
    destruct (formatters g !! currencyCode) as [formatter|] eqn:Hcached.
    + rewrite bool_decide_eq_true_2 by eauto.
      exists formatter, g. split_and!; try done.
      rewrite getCurrencyFormatter_run, Hcached.
      by rewrite bool_decide_eq_true_2 by eauto.
    + rewrite bool_decide_eq_false_2 by (by intros [? ?]).
      destruct Hok as [Hsome | Hcode]; [by destruct Hsome|]. rewrite Hcode.
      eexists _, _. split; [reflexivity|]. cbn [formatters exchangeRates pricesCache].
      split_and!; try done.
      * by rewrite lookup_insert_eq.
      * rewrite getCurrencyFormatter_run. cbn [formatters].
        rewrite lookup_insert_eq. by rewrite bool_decide_eq_true_2 by eauto.
      * intros other Hne. by rewrite lookup_insert_ne.
  - intros Hnone Hbad. rewrite getCurrencyFormatter_run, Hnone, Hbad.
    rewrite bool_decide_eq_false_2 by (by intros [? ?]). eauto.
Qed.

(** *** The swap confirmation *)

Section Submit.
Variable format : string → R → string.

(** X6.  Whatever the amount, the currencies and the state,
    [handleSwapSubmit] leaves the submit button enabled, with its label
    and without the loading mark, and adds exactly one toast, of type
    success or error.  The toast is a success exactly when the amount
    passes validation and the source currency has a formatter (cached,
    or its code is well formed); for an amount that fails validation it
    carries the message of the validation error. *)
Theorem handleSwapSubmit_toasts_once amount fromCurrency toCurrency page g :
  ∃ toast,
    (handleSwapSubmit format amount fromCurrency toCurrency page g).1
    = {| confirmSwap := restored; toasts := toasts page ++ [toast] |}
    ∧ (toast_type toast = "success" ∨ toast_type toast = "error")
    ∧ (toast_type toast = "success"
       ↔ validateInput (VNumber amount) = Return (VNumber amount)
         ∧ (is_Some (formatters g !! fromCurrency)
            ∨ IsWellFormedCurrencyCode fromCurrency = true))
    ∧ (∀ e, validateInput (VNumber amount) = Throw e →
            toast = {| toast_message := message_of e; toast_type := "error" |}).
Proof.
  unfold handleSwapSubmit.
  destruct (validateInput_cases (VNumber amount)) as [-> | [m ->]].
  - rewrite getCurrencyFormatter_run.
    destruct (formatters g !! fromCurrency) as [formatter|] eqn:Hcached.
    + rewrite bool_decide_eq_true_2 by eauto. eexists. split; [reflexivity|].
      cbn [toast_type]. split_and!; [by left | | done]. split; [eauto | done].
    + rewrite bool_decide_eq_false_2 by (by intros [? ?]).
      destruct (IsWellFormedCurrencyCode fromCurrency) eqn:Hcode.
      * eexists. split; [reflexivity|]. cbn [toast_type].
        split_and!; [by left | | done]. split; [eauto | done].
      * eexists. split; [reflexivity|]. cbn [toast_type].
        split_and!; [by right | | done].
        split; [done|]. intros [_ [[? ?] | ?]]; done.
  - eexists. split; [reflexivity|]. cbn [toast_type].
    split_and!; [by right | |].
    + split; [done | by intros [? _]].
    + by intros e [= <-].
Qed.

(** X7.  [handleSwapSubmit] does not consult the rate table or the
    price cache, and leaves both as they were: the page it produces is
    the same for any two tables and caches.  So for a valid amount and a
    well-formed source code the swap is confirmed, with the message
    "Swap confirmed: AMOUNT FROM to TO", whether or not the table has a
    rate for the pair. *)
Theorem handleSwapSubmit_ignores_rates
    amount fromCurrency toCurrency page
    (rates rates' : gmap string R) (cache cache' : option (Snapshot R))
    (fs : gmap string string) :
  let g := {| exchangeRates := rates; pricesCache := cache; formatters := fs |} in
  let g' := {| exchangeRates := rates'; pricesCache := cache'; formatters := fs |} in
  (handleSwapSubmit format amount fromCurrency toCurrency page g).1
  = (handleSwapSubmit format amount fromCurrency toCurrency page g').1
  ∧ exchangeRates (handleSwapSubmit format amount fromCurrency toCurrency page g).2
    = rates
  ∧ pricesCache (handleSwapSubmit format amount fromCurrency toCurrency page g).2
    = cache
  ∧ (validateInput (VNumber amount) = Return (VNumber amount) →
     IsWellFormedCurrencyCode fromCurrency = true →
     ∃ formatted : string,
       toasts (handleSwapSubmit format amount fromCurrency toCurrency page g).1
       = (toasts page
          ++ [{| toast_message := "Swap confirmed: " +:+ formatted +:+ " "
                                  +:+ fromCurrency +:+ " to " +:+ toCurrency;
                 toast_type := "success" |}])%list).
Proof.
  intros g g'. subst g g'. unfold handleSwapSubmit.
  destruct (validateInput_cases (VNumber amount)) as [-> | [m ->]];
    [|by split_and!].
  rewrite !getCurrencyFormatter_run. cbn [formatters exchangeRates pricesCache].
  destruct (bool_decide (is_Some (fs !! fromCurrency))).
  { split_and!; try done. intros _ _. by eexists. }
  destruct (IsWellFormedCurrencyCode fromCurrency); [|by split_and!].
  split_and!; try done. intros _ _. by eexists.
Qed.

(** X8.  The formatter cache only ever holds well-formed codes: every
    call of [getCurrencyFormatter] keeps it so.  In such a state a swap
    from a currency whose code is not three letters is never confirmed:
    [handleSwapSubmit] adds an error toast, restores the button and
    leaves the globals as they were. *)
Theorem ill_formed_code_is_never_confirmed
    amount fromCurrency toCurrency page g :
  cache_well_formed g →
  IsWellFormedCurrencyCode fromCurrency = false →
  let result := handleSwapSubmit format amount fromCurrency toCurrency page g in
  (∃ message,
     result.1 = {| confirmSwap := restored;
                   toasts := toasts page
                             ++ [{| toast_message := message;
                                    toast_type := "error" |}] |})
  ∧ result.2 = g
  ∧ ∀ code, cache_well_formed (getCurrencyFormatter code g).2.
Proof.
  intros Hcache Hbad result. subst result.
  assert (Hnone : formatters g !! fromCurrency = None).
  { destruct (formatters g !! fromCurrency) eqn:Hf; [|done].
    rewrite Hcache in Hbad by (by rewrite Hf). done. }
  split_and!.
  - unfold handleSwapSubmit.
    destruct (validateInput_cases (VNumber amount)) as [-> | [m ->]];
      [|by eexists].
    rewrite getCurrencyFormatter_run, Hnone, Hbad.
    rewrite bool_decide_eq_false_2 by (by intros [? ?]). by eexists.
  - unfold handleSwapSubmit.
    destruct (validateInput_cases (VNumber amount)) as [-> | [m ->]]; [|done].
    rewrite getCurrencyFormatter_run, Hnone, Hbad.
    by rewrite bool_decide_eq_false_2 by (by intros [? ?]).
  - intros code. rewrite getCurrencyFormatter_run.
    destruct (bool_decide (is_Some (formatters g !! code))); [done|].
    destruct (IsWellFormedCurrencyCode code) eqn:Hcode; [|done].
    intros code'. cbn [snd formatters].
    destruct (decide (code' = code)) as [-> | Hne]; [done|].
    rewrite lookup_insert_ne by done. apply Hcache.
Qed.

End Submit.

(** *** The currency dropdowns *)

Lemma existsb_eqb (token : string) (l : list string) :
  existsb (String.eqb token) l = true ↔ token ∈ l.
Proof.
  rewrite existsb_exists. split.
  - intros (x & Hin & Heq). apply String.eqb_eq in Heq as ->.
    by apply list_elem_of_In.
  - intros Hin. exists token. split; [by apply list_elem_of_In|].
    apply String.eqb_refl.
Qed.

Lemma addCurrencyOption_loop (keep : string → bool) (isCrypto : bool)
    (l : list string) (sel : list OptionElement) :
  option_value
  <$> fold_left (λ sel token,
                   if keep token then addCurrencyOption sel token isCrypto
                   else sel) l sel
  = ((option_value <$> sel) ++ filter (λ token, keep token = true) l)%list.
Proof.
  revert sel. induction l as [|token l IH]; intros sel; simpl.
  - by rewrite app_nil_r.
  - rewrite IH. rewrite filter_cons. destruct (keep token) eqn:Hkeep.
    + rewrite decide_True by done. unfold addCurrencyOption.
      rewrite fmap_app. cbn. by rewrite <- app_assoc.
    + by rewrite decide_False by done.
Qed.

Lemma addCurrencyOption_loop_flags (keep : string → bool) (isCrypto : bool)
    (l : list string) (sel : list OptionElement)
    (P : OptionElement → Prop) :
  (∀ o, o ∈ sel → P o) →
  (∀ token, keep token = true →
     P {| option_value := token;
          option_text := token +:+ (if isCrypto then " (Crypto)" else "");
          option_crypto := isCrypto |}) →
  ∀ o, o ∈ fold_left (λ sel token,
                        if keep token then addCurrencyOption sel token isCrypto
                        else sel) l sel → P o.
Proof.
  revert sel. induction l as [|token l IH]; intros sel Hold Hnew; simpl.
  - done.
  - apply IH; [|done]. destruct (keep token) eqn:Hkeep; [|done].
    intros o [Ho | Ho%list_elem_of_singleton]%elem_of_app; [by apply Hold|].
    subst o. by apply Hnew.
Qed.

(** X9.  For a snapshot with distinct keys,
    [updateAvailableCurrencies] discards the old options and offers each
    currency once: first USD, EUR, GBP and JPY, then the tokens whose
    price is not null.  A currency is offered exactly when it is one of
    the four or has a non-null price; the four are not marked as crypto
    and keep their code as text, every other option is marked and has
    " (Crypto)" after its code. *)
Theorem updateAvailableCurrencies_offers_each_currency_once
    (prices : Snapshot R) (select : list OptionElement) :
  NoDup (Object_keys prices) →
  let options := updateAvailableCurrencies (Some prices) select in
  NoDup (option_value <$> options)
  ∧ take 4 (option_value <$> options) = TRADITIONAL
  ∧ (∀ currency,
       currency ∈ option_value <$> options
       ↔ currency ∈ TRADITIONAL ∨ is_Some (price_of prices currency))
  ∧ (∀ o, o ∈ options →
       option_crypto o = negb (existsb (String.eqb (option_value o)) TRADITIONAL)
       ∧ option_text o
         = option_value o +:+ (if option_crypto o then " (Crypto)" else "")).
Proof.
  intros Hkeys options.
  assert (Hvalues : option_value <$> options
            = (TRADITIONAL
               ++ filter (λ token, negb (existsb (String.eqb token) TRADITIONAL) = true)
                         (tokens_of prices))%list).
  { subst options. unfold updateAvailableCurrencies. fold (tokens_of prices).
    by rewrite (addCurrencyOption_loop
                  (λ token, negb (existsb (String.eqb token) TRADITIONAL)) true). }
  assert (Htokens : NoDup (tokens_of prices)) by (by apply NoDup_filter).
  split_and!.
  - rewrite Hvalues. apply NoDup_app. split_and!.
    + apply (bool_decide_unpack _). by vm_compute.
    + intros token Hfiat [Hnot _]%list_elem_of_filter.
      apply existsb_eqb in Hfiat. by rewrite Hfiat in Hnot.
    + by apply NoDup_filter.
  - by rewrite Hvalues.
  - intros currency. rewrite Hvalues, elem_of_app, list_elem_of_filter.
    split.
    + intros [? | [_ Htoken]]; [by left | right].
      unfold tokens_of in Htoken. by apply list_elem_of_filter in Htoken as [? _].
    + intros [? | [price Hprice]]; [by left|].
      destruct (existsb (String.eqb currency) TRADITIONAL) eqn:Hfiat.
      * left. by apply existsb_eqb.
      * right. split; [done|]. by eapply price_of_token.
  - subst options. unfold updateAvailableCurrencies.
    apply (addCurrencyOption_loop_flags
             (λ token, negb (existsb (String.eqb token) TRADITIONAL)) true).
    + intros o Ho. cbn in Ho.
      repeat (apply elem_of_cons in Ho as [-> | Ho]; [done|]).
      by apply elem_of_nil in Ho.
    + intros token Hkeep. cbn [option_value option_crypto option_text].
      by rewrite Hkeep.
Qed.

End Session.

Module SessionExamples.
Import Binary64.

Lemma ill_formed_code_is_never_confirmed_witness :
  (handleSwapSubmit (λ _ _, "5.00") (ofZ (R:=number) 5) "USDC" "USD"
     {| confirmSwap := restored; toasts := [] |} initial_globals).2
  = initial_globals.
Proof.
  refine (proj1 (proj2 (ill_formed_code_is_never_confirmed
                          _ _ "USDC" "USD" _ initial_globals _ _))).
  - intros code [formatter Hcached]. unfold initial_globals in Hcached.
    cbn [formatters] in Hcached. by rewrite lookup_empty in Hcached.
  - done.
Defined.

Lemma updateAvailableCurrencies_offers_each_currency_once_witness :
  NoDup (option_value
         <$> updateAvailableCurrencies
               (Some [("ATOM", Some (ofZ (R:=number) 7)); ("USD", Some (ofZ 1));
                      ("KUJI", None)]) []).
Proof.
  refine (proj1 (updateAvailableCurrencies_offers_each_currency_once _ [] _)).
  apply (bool_decide_unpack _). by vm_compute.
Defined.

Lemma static_pairs_convert_as_before_witness :
  (convert (decimal (R:=Binary64.number) 1999 2) "GBP" "JPY"
     (initializeRates (HttpResponse true [("GBP", Some (ofZ 2)); ("JPY", Some (ofZ 4))])
                      initial_globals).2).1
  = (convert (decimal 1999 2) "GBP" "JPY" initial_globals).1.
Proof.
  apply (static_pairs_convert_as_before _ _ _ "GBP" "JPY" (decimal 15075 2));
    by vm_compute.
Defined.

End SessionExamples.

(** ** Which pairs the built table holds *)

Section Keys.
Context {R : Type} `{JsNumber R}.
Implicit Types (prices : Snapshot R) (rates : gmap string R).

(** Every key the two loops leave joins two priced currencies. *)
Lemma derived_keys_join_priced prices key rate :
  derived_table prices !! key = Some rate →
  ∃ a b, key = a +:+ "_" +:+ b ∧ priced prices a ∧ priced prices b.
Proof.
  set (P := λ rates : gmap string R,
              ∀ rate, rates !! key = Some rate →
                ∃ a b, key = a +:+ "_" +:+ b ∧ priced prices a ∧ priced prices b).
  enough (HP : P (derived_table prices)) by (intros Hk; by eapply HP).
  unfold derived_table.
  apply (fold_left_reaches P).
  - intros f rates _ HP. apply (fold_left_reaches P); [|by left].
    intros t rates' _ HP' rate'.
    destruct (cross_rate_lookup prices rates' f t key)
      as [-> | (fr & tr & Hf & Hft & Ht & Htt & Hkey & _)]; [apply HP'|].
    intros _. exists f, t. split; [done|]. split; right; eauto.
  - left. apply (fold_left_reaches P); [|left; intros rate'; by rewrite lookup_empty].
    intros t rates _ HP rate'.
    destruct (usd_rates_lookup prices rates t key)
      as [-> | (price & Ht & Htt & [[Hkey _] | (Hkey & _ & _)])]; [apply HP| |].
    + intros _. exists t, "USD". split; [done|]. split; [right; eauto | by left].
    + intros _. exists "USD", t. split; [done|]. split; [by left | right; eauto].
Qed.

Lemma built_key_cases prices key rate :
  buildExchangeRates (Some prices) !! key = Some rate →
  MOCK_RATES !! key = Some rate
  ∨ ∃ a b, key = a +:+ "_" +:+ b ∧ priced prices a ∧ priced prices b.
Proof.
  destruct (Object_keys prices) as [|k ks] eqn:Hkeys.
  { unfold buildExchangeRates. rewrite Hkeys. by left. }
  rewrite buildExchangeRates_nonempty by (by rewrite Hkeys).
  intros [Hstatic | [_ Hderived]]%lookup_union_Some_raw; [by left | right].
  by eapply derived_keys_join_priced.
Qed.

(** X10.  Every entry of the table built from a snapshot is a static
    entry, or its key joins with an underscore two priced currencies:
    each of them USD or a token of the snapshot whose price is neither
    null nor falsy (zero, NaN). *)
Theorem built_keys_join_priced_currencies prices key rate :
  buildExchangeRates (Some prices) !! key = Some rate →
  MOCK_RATES !! key = Some rate
  ∨ ∃ a b, key = a +:+ "_" +:+ b ∧ priced prices a ∧ priced prices b.
Proof. apply built_key_cases. Qed.

Lemma priced_plain prices currency :
  (∀ token, token ∈ Object_keys prices → has_underscore token = false) →
  priced prices currency → has_underscore currency = false.
Proof.
  intros Hplain [-> | (price & Hprice & _)]; [done|].
  eapply Hplain, price_of_key, Hprice.
Qed.

Lemma unpriced_key_absent prices a b :
  (∀ token, token ∈ Object_keys prices → has_underscore token = false) →
  has_underscore a = false →
  ¬ priced prices a ∨ ¬ priced prices b →
  MOCK_RATES !! (a +:+ "_" +:+ b) = None →
  buildExchangeRates (Some prices) !! (a +:+ "_" +:+ b) = None.
Proof.
  intros Hplain Ha Hunpriced Hstatic.
  destruct (buildExchangeRates (Some prices) !! (a +:+ "_" +:+ b))
    as [rate|] eqn:Hbuilt; [exfalso | done].
  apply built_key_cases in Hbuilt as [Hs | (a' & b' & Hkey & Ha' & Hb')];
    [congruence|].
  apply rate_key_inj in Hkey as [-> ->]; [|done | by eapply priced_plain].
  by destruct Hunpriced.
Qed.

(** X11.  With the table built from a snapshot whose symbols hold no
    underscore, a currency that is not priced (not USD, and without a
    price in the snapshot that is neither null nor falsy) converts to
    and from no other currency, static pairs apart:
    [getConversionRate] throws "Exchange rate not available" in both
    directions and leaves the state as it was.  A token priced zero is
    nevertheless offered by [updateAvailableCurrencies]. *)
Theorem unpriced_currency_is_not_convertible
    prices (g : Globals R) (select : list OptionElement) (currency other : string) :
  (∀ token, token ∈ Object_keys prices → has_underscore token = false) →
  has_underscore currency = false → has_underscore other = false →
  currency ≠ other →
  ¬ priced prices currency →
  exchangeRates g = buildExchangeRates (Some prices) →
  (MOCK_RATES !! (currency +:+ "_" +:+ other) = None →
   getConversionRate currency other g
   = (Throw (Error ("Exchange rate not available for "
                    +:+ currency +:+ "_" +:+ other)), g))
  ∧ (MOCK_RATES !! (other +:+ "_" +:+ currency) = None →
     getConversionRate other currency g
     = (Throw (Error ("Exchange rate not available for "
                      +:+ other +:+ "_" +:+ currency)), g))
  ∧ (is_Some (price_of prices currency) →
     currency ∈ option_value <$> updateAvailableCurrencies (Some prices) select).
Proof.
  intros Hplain Hc Ho Hne Hunpriced Hrates. split_and!.
  - intros Hstatic. rewrite getConversionRate_lookup by done.
    by rewrite Hrates, unpriced_key_absent by eauto.
  - intros Hstatic. rewrite getConversionRate_lookup by done.
    by rewrite Hrates, unpriced_key_absent by eauto.
  - intros [price Hprice]. unfold updateAvailableCurrencies.
    fold (tokens_of prices).
    rewrite (addCurrencyOption_loop
               (λ token, negb (existsb (String.eqb token) TRADITIONAL)) true).
    apply elem_of_app.
    destruct (existsb (String.eqb currency) TRADITIONAL) eqn:Hfiat.
    + left. by apply existsb_eqb.
    + right. apply list_elem_of_filter. split; [by rewrite Hfiat|].
      by eapply price_of_token.
Qed.

Lemma fold_left_fixed {A B} (f : B → A → B) (l : list A) (b : B) :
  (∀ a, a ∈ l → f b a = b) → fold_left f l b = b.
Proof.
  induction l as [|a l IH]; intros Hf; simpl; [done|].
  rewrite Hf by (by left). apply IH. intros a' Ha'. apply Hf. by right.
Qed.

(** X12.  A snapshot none of whose prices is usable (each is null or
    falsy: zero, NaN) adds nothing: the table built from it is the
    static table. *)
Theorem snapshot_without_usable_price_gives_static_table prices :
  (∀ token price, price_of prices token = Some price → truthy price = false) →
  buildExchangeRates (Some prices) = MOCK_RATES.
Proof.
  intros Hfalsy.
  destruct (Object_keys prices) as [|k ks] eqn:Hkeys.
  { unfold buildExchangeRates. by rewrite Hkeys. }
  rewrite buildExchangeRates_nonempty by (by rewrite Hkeys).
  assert (Hnone : derived_table prices = ∅); [|by rewrite Hnone, (right_id_L ∅ (∪))].
  unfold derived_table.
  rewrite (fold_left_fixed (usd_rates prices)).
  - apply fold_left_fixed. intros f _. apply fold_left_fixed. intros t _.
    unfold cross_rate. destruct (negb (String.eqb f t)); [|done].
    destruct (price_of prices f) as [fromRate|] eqn:Hf; [|done].
    destruct (price_of prices t) as [toRate|]; [|done].
    by rewrite (Hfalsy f fromRate).
  - intros t _. unfold usd_rates.
    destruct (price_of prices t) as [price|] eqn:Ht; [|done].
    by rewrite (Hfalsy t price).
Qed.

End Keys.

Module KeysExamples.
Import Binary64.

Definition feed : Snapshot number :=
  [("ATOM", Some (decimal 75 1)); ("LUNA", Some (ofZ 0)); ("OSMO", Some (decimal 4 1));
   ("KUJI", None)].

Lemma built_keys_join_priced_currencies_witness :
  MOCK_RATES !! "ATOM_OSMO" = Some (div (decimal (R:=number) 75 1) (decimal 4 1))
  ∨ ∃ a b, "ATOM_OSMO" = a +:+ "_" +:+ b ∧ priced feed a ∧ priced feed b.
Proof.
  apply (built_keys_join_priced_currencies feed "ATOM_OSMO"). by vm_compute.
Defined.

Lemma unpriced_currency_is_not_convertible_witness :
  getConversionRate "LUNA" "ATOM"
    {| exchangeRates := buildExchangeRates (Some feed); pricesCache := Some feed;
       formatters := ∅ |}
  = (Throw (Error "Exchange rate not available for LUNA_ATOM"),
     {| exchangeRates := buildExchangeRates (Some feed); pricesCache := Some feed;
        formatters := ∅ |}).
Proof.
  refine (proj1 (unpriced_currency_is_not_convertible feed _ [] "LUNA" "ATOM"
                   _ _ _ _ _ _) _).
  - intros token Htoken. unfold feed, Object_keys in Htoken. cbn in Htoken.
    repeat (apply elem_of_cons in Htoken as [-> | Htoken]; [done|]).
    by apply elem_of_nil in Htoken.
  - done.
  - done.
  - done.
  - intros [Husd | (price & Hprice & Htruthy)]; [done|].
    vm_compute in Hprice. injection Hprice as <-. vm_compute in Htruthy.
    discriminate Htruthy.
  - done.
  - by vm_compute.
Defined.

Lemma snapshot_without_usable_price_gives_static_table_witness :
  buildExchangeRates (Some [("LUNA", Some (ofZ (R:=number) 0)); ("KUJI", None)])
  = MOCK_RATES.
Proof.
  apply snapshot_without_usable_price_gives_static_table.
  intros token price Hprice. unfold price_of in Hprice. cbn [find fst] in Hprice.
  destruct (String.eqb "LUNA" token); [by injection Hprice as <-|].
  destruct (String.eqb "KUJI" token); done.
Defined.

End KeysExamples.

Module Binary64Pipeline.
Import Binary64 Binary64Facts Binary64Rounding.

(** X13.  On binary64, cents survive the round trip: for every whole
    number of cents [k] between 0 and 100,000,000,
    [convertToCents(convertFromCents(k))] is [k], and
    [convertFromCents(convertToCents(a))] is [a] for the amount
    [a = k / 100]. *)
Theorem cents_round_trip (k : Z) :
  0 ≤ k ≤ 100000000 →
  convertToCents (convertFromCents (ofZ (R:=number) k)) = ofZ k
  ∧ convertFromCents (convertToCents (decimal (R:=number) k 2)) = decimal k 2.
Proof.
  intros Hk. change (convertFromCents (ofZ k)) with (decimal (R:=number) k 2).
  by rewrite convertToCents_whole.
Qed.

Lemma cents_round_trip_witness :
  convertToCents (convertFromCents (ofZ (R:=number) 1999)) = ofZ 1999.
Proof. apply (cents_round_trip 1999). lia. Defined.

(** The cents of a product, against the product of the values. *)
Lemma product_cents (k : Z) (mr : positive) (er : Z) :
  0 ≤ k ≤ 100000000 → Z.pos (digits2_pos mr) = 53 → -61 ≤ er ≤ -44 →
  ∃ z : Z,
    math_round (SFmul prec emax (of_Z k) (S754_finite false mr er)) = of_Z z
    ∧ 0 ≤ z
    ∧ (inject_Z z - (51 # 100)
       <= inject_Z k * value (S754_finite false mr er)
       <= inject_Z z + (51 # 100))%Q.
Proof.
  intros Hk Hdr Her.
  pose proof (rate_value_bound mr er Hdr Her) as [Hr0 Hr1].
  set (vr := value (S754_finite false mr er)) in *.
  destruct (Z.eq_dec k 0) as [-> | Hk0].
  { exists 0. split; [done|]. split; [done|]. change (inject_Z 0) with 0%Q. lra. }
  assert (HK : (1 <= inject_Z k <= 100000000)%Q).
  { change 1%Q with (inject_Z 1). change 100000000%Q with (inject_Z 100000000).
    rewrite <- !Zle_Qle. lia. }
  assert (HP : (0 < inject_Z k * vr ∧ inject_Z k * vr <= 51200000000)%Q).
  { split; [apply Qmult_lt_0_compat; lra|].
    apply Qle_trans with (100000000 * vr)%Q; [|lra].
    apply Qmult_le_compat_r; lra. }
  destruct (value_ofZ k) as (mk & ek & Hofk & Hdk & Hek & Hvk);
    [change (2 ^ 53) with 9007199254740992; lia|].
  destruct (round_mul_normal mk mr ek er Hdk Hdr)
    as (z & r & Hround & Hz & [Hra Hrb] & Hlo & Hhi); [lia | |].
  { fold vr. rewrite Hvk. change (inject_Z (2 ^ 51)) with 2251799813685248%Q. lra. }
  fold vr in Hra, Hrb. rewrite Hvk in Hra, Hrb.
  change (inject_Z (2 ^ 53)) with 9007199254740992%Q in *.
  exists z. rewrite Hofk. split; [done|]. split; [done|]. lra.
Qed.

(** X14.  On binary64, for a whole number of cents [k] between 0 and
    100,000,000 and distinct currencies with a static rate, in every
    state whose table holds that rate: [performConversion] returns a
    whole non-negative number of cents [z] and changes nothing, the
    whole conversion of [k / 100] returns [z / 100], and [z] is within
    0.51 of the exact product of [k] and the rate. *)
Theorem conversion_is_within_a_cent_of_the_product
    (k : Z) (fromCurrency toCurrency : string) (rate : number)
    (g : Globals number) :
  0 ≤ k ≤ 100000000 →
  fromCurrency ≠ toCurrency →
  MOCK_RATES !! (fromCurrency +:+ "_" +:+ toCurrency) = Some rate →
  exchangeRates g !! (fromCurrency +:+ "_" +:+ toCurrency) = Some rate →
  ∃ z : Z,
    performConversion (ofZ k) fromCurrency toCurrency g = (Return (ofZ z), g)
    ∧ convert (decimal k 2) fromCurrency toCurrency g = (Return (decimal z 2), g)
    ∧ 0 ≤ z
    ∧ (inject_Z z - (51 # 100) <= inject_Z k * value rate
       <= inject_Z z + (51 # 100))%Q.
Proof.
  intros Hk Hne Hstatic Hrate.
  assert (Hget : getConversionRate fromCurrency toCurrency g = (Return rate, g)).
  { rewrite getConversionRate_lookup by done. by rewrite Hrate. }
  destruct (rate_in_range_spec rate (static_rate_in_range _ _ Hstatic))
    as (mr & er & -> & Hdr & Her).
  destruct (product_cents k mr er Hk Hdr Her) as (z & Hround & Hz & Hnear).
  exists z. rewrite convert_valid by (by apply validateInput_whole_cents).
  rewrite convertToCents_whole by done.
  rewrite (performConversion_rate g _ _ _ _ Hget).
  change (round (mul (ofZ k) ?r)) with (math_round (SFmul prec emax (of_Z k) r)).
  rewrite Hround. split; [done|]. split; [done|]. split; [done|]. exact Hnear.
Qed.

Lemma conversion_is_within_a_cent_of_the_product_witness :
  ∃ z : Z,
    performConversion (ofZ (R:=number) 1999) "GBP" "JPY" initial_globals
    = (Return (ofZ z), initial_globals)
    ∧ convert (decimal 1999 2) "GBP" "JPY" initial_globals
      = (Return (decimal z 2), initial_globals)
    ∧ 0 ≤ z
    ∧ (inject_Z z - (51 # 100) <= inject_Z 1999 * value (decimal 15075 2)
       <= inject_Z z + (51 # 100))%Q.
Proof.
  apply (conversion_is_within_a_cent_of_the_product 1999 "GBP" "JPY");
    [lia | done | by vm_compute | by vm_compute].
Defined.

End Binary64Pipeline.

Module Binary64Sums.
Import Binary64 Binary64Facts.

(** *** From [2^53] on the loop counter stops growing *)

Lemma of_Z_2_53 : of_Z (2 ^ 53) = S754_finite false 4503599627370496 1.
Proof. done. Qed.

Lemma counter_sticks : SFadd prec emax (of_Z (2 ^ 53)) (of_Z 1) = of_Z (2 ^ 53).
Proof. by vm_compute. Qed.

Lemma counter_reaches : SFadd prec emax (of_Z (2 ^ 53 - 1)) (of_Z 1) = of_Z (2 ^ 53).
Proof. by vm_compute. Qed.

Lemma leb_below_2_53 (k : Z) (n : number) :
  1 ≤ k ≤ 2 ^ 53 → SFleb (of_Z (2 ^ 53)) n = true → SFleb (of_Z k) n = true.
Proof.
  intros Hk Hn. destruct (Z.eq_dec k (2 ^ 53)) as [-> | Hlt]; [done|].
  destruct (represents_exists k) as (m & e & Hrep); [lia|].
  rewrite (of_Z_represents _ _ _ Hrep). destruct Hrep as (_ & He & _).
  rewrite of_Z_2_53 in Hn.
  destruct n as [s|[]| |[] m' e']; try done.
  unfold SFleb, SFcompare in *.
  destruct (Z.compare_spec 1 e') as [<- | Hlt' | Hgt]; [| |done].
  - by replace (e ?= 1) with Lt by (symmetry; apply Z.compare_lt_iff; lia).
  - by replace (e ?= e') with Lt by (symmetry; apply Z.compare_lt_iff; lia).
Qed.

Lemma sumIteratively_loop_stuck (n : number) (fuel : nat) (k : Z) (sum : number) :
  SFleb (of_Z (2 ^ 53)) n = true → 1 ≤ k ≤ 2 ^ 53 →
  sumIteratively_loop fuel n (ofZ k) sum = None.
Proof.
  intros Hn. revert k sum. induction fuel as [|fuel IH]; intros k sum Hk; [done|].
  cbn [sumIteratively_loop]. change (leb (ofZ k) n) with (SFleb (of_Z k) n).
  rewrite (leb_below_2_53 k n Hk Hn).
  change (add (ofZ k) (ofZ 1)) with (SFadd prec emax (of_Z k) (of_Z 1)).
  destruct (Z.eq_dec k (2 ^ 53)) as [-> | Hne].
  { rewrite counter_sticks. by apply IH. }
  destruct (Z.eq_dec k (2 ^ 53 - 1)) as [-> | Hne'].
  { rewrite counter_reaches. by apply IH. }
  rewrite of_Z_add by lia. apply IH. lia.
Qed.

(** X15.  On binary64, [sumIteratively(n)] does not return for any [n]
    from [2^53] on, [Infinity] included: the counter reaches [2^53],
    where adding 1 changes nothing, so the loop test succeeds however
    often it is evaluated. *)
Theorem sumIteratively_never_returns_from_2_53 (n : number) :
  leb (ofZ (2 ^ 53)) n = true → ∀ fuel, sumIteratively fuel n = None.
Proof.
  intros Hn fuel. unfold sumIteratively.
  apply sumIteratively_loop_stuck; [exact Hn | by vm_compute].
Qed.

Lemma sumIteratively_never_returns_from_2_53_witness :
  sumIteratively 1000 (S754_infinity false) = None.
Proof.
  apply (sumIteratively_never_returns_from_2_53 (S754_infinity false)). done.
Defined.

(** *** The array length limit *)



(** *** Negative integers *)

Lemma of_Z_opp_represents m e z :
  represents m e z → of_Z (- z) = S754_finite true m e.
Proof.
  intros Hrep. pose proof (represents_normal _ _ _ Hrep) as (Hz & _).
  destruct Hrep as (Hb & He & Hm).
  destruct z as [|p|p]; [lia | | lia].
  unfold of_Z, binary_normalize. cbn [Z.opp]. apply binary_round_exact; [done|].
  destruct (Z.eq_dec e 0) as [-> | Hne].
  - left. split; [done|]. rewrite Hm. change (2 ^ (- 0)) with 1.
    change (2 ^ (0 - 0)) with 1. lia.
  - right. split; [lia|]. by rewrite Hm.
Qed.

Lemma of_Z_opp_succ a :
  2 ≤ a < 2 ^ 53 →
  SFadd prec emax (of_Z (- a)) (of_Z 1) = of_Z (- (a - 1)).
Proof.
  intros Ha.
  destruct (represents_exists a) as (m1 & e1 & H1); [lia|].
  destruct (represents_exists 1) as (m2 & e2 & H2); [done|].
  destruct (represents_exists (a - 1)) as (m & e & H12); [lia|].
  rewrite (of_Z_opp_represents _ _ _ H1), (of_Z_represents _ _ _ H2),
    (of_Z_opp_represents _ _ _ H12).
  destruct H1 as (_ & He1 & Hm1), H2 as (_ & He2 & Hm2), H12 as (Hb12 & He & Hm).
  unfold SFadd, cond_Zopp.
  set (ez := Z.min e1 e2).
  pose proof (shl_align_value m1 e1 ez ltac:(lia)) as Hs1.
  pose proof (shl_align_value m2 e2 ez ltac:(lia)) as Hs2.
  pose proof (pow2_pos (- ez) ltac:(lia)) as Hpos.
  assert (Hvalue : - Z.pos (shl_align m1 e1 ez).1 + Z.pos (shl_align m2 e2 ez).1
                   = - ((a - 1) * 2 ^ (- ez))).
  { assert (E1 : 2 ^ (- ez) = 2 ^ (- e1) * 2 ^ (e1 - ez))
      by (rewrite <- pow2_split by lia; f_equal; lia).
    assert (E2 : 2 ^ (- ez) = 2 ^ (- e2) * 2 ^ (e2 - ez))
      by (rewrite <- pow2_split by lia; f_equal; lia).
    rewrite Hs1, Hs2, Hm1, Hm2.
    transitivity (- (a * (2 ^ (- e1) * 2 ^ (e1 - ez)))
                  + 1 * (2 ^ (- e2) * 2 ^ (e2 - ez))); [ring|].
    rewrite <- E1, <- E2. ring. }
  destruct (- Z.pos (shl_align m1 e1 ez).1 + Z.pos (shl_align m2 e2 ez).1)
    as [|S|S] eqn:HS; [nia | nia |].
  assert (HSv : Z.pos S = (a - 1) * 2 ^ (- ez)) by lia.
  unfold binary_normalize. apply binary_round_exact; [done|].
  destruct (Z.le_gt_cases ez e) as [Hle | Hgt].
  - left. split; [done|]. rewrite HSv, Hm.
    replace (- ez) with (- e + (e - ez)) by lia.
    rewrite pow2_split by lia. ring.
  - right. split; [done|]. rewrite HSv, Hm.
    replace (- e) with (- ez + (ez - e)) by lia.
    rewrite pow2_split by lia. ring.
Qed.

Lemma of_Z_mul_opp a b :
  0 < a < 2 ^ 53 → 0 < b < 2 ^ 53 → a * b < 2 ^ 53 →
  SFmul prec emax (of_Z (- a)) (of_Z (- b)) = of_Z (a * b).
Proof.
  intros Ha Hb Hab.
  destruct (represents_exists a) as (m1 & e1 & H1); [lia|].
  destruct (represents_exists b) as (m2 & e2 & H2); [lia|].
  rewrite (of_Z_opp_represents _ _ _ H1), (of_Z_opp_represents _ _ _ H2).
  rewrite <- of_Z_mul by lia.
  by rewrite (of_Z_represents _ _ _ H1), (of_Z_represents _ _ _ H2).
Qed.

(** X17.  On binary64, for a negative integer [n <= -2] with
    [n * (n + 1) < 2^53], [sumIteratively(n)] returns 0 at its first
    loop test and [sumWithReduce(n)] returns 0, while
    [sumWithFormula(n)] returns [n * (n + 1) / 2], which is positive. *)
Theorem sums_disagree_on_negative_integers (n : Z) :
  n ≤ -2 → n * (n + 1) < 2 ^ 53 →
  (∀ fuel, sumIteratively (S fuel) (ofZ n) = Some (ofZ (R:=number) 0))
  ∧ sumWithReduce (ofZ n) = Return (ofZ (R:=number) 0)
  ∧ sumWithFormula (ofZ n) = ofZ (R:=number) (n * (n + 1) / 2)
  ∧ 0 < n * (n + 1) / 2
  ∧ eqb (sumWithFormula (ofZ n)) (ofZ (R:=number) 0) = false.
Proof.
  intros Hn Hbound.
  assert (H53 : 2 ^ 53 = 9007199254740992) by done.
  assert (Ha : 2 ≤ - n < 2 ^ 53) by nia.
  destruct (represents_exists (- n)) as (m & e & Hrep); [lia|].
  assert (Hofn : ofZ (R:=number) n = S754_finite true m e).
  { change (ofZ n) with (of_Z n). rewrite <- (of_Z_opp_represents _ _ _ Hrep).
    f_equal. lia. }
  assert (Hformula : sumWithFormula (ofZ n) = ofZ (R:=number) (n * (n + 1) / 2)).
  { unfold sumWithFormula.
    change (div (mul (ofZ n) (add (ofZ n) (ofZ 1))) (ofZ 2))
      with (SFdiv prec emax
              (SFmul prec emax (of_Z n) (SFadd prec emax (of_Z n) (of_Z 1)))
              (of_Z 2)).
    replace n with (- - n) at 1 2 by lia.
    rewrite of_Z_opp_succ by lia. rewrite of_Z_mul_opp by nia.
    replace (- n * (- n - 1)) with (2 * triangle n)
      by (rewrite triangle_double; ring).
    rewrite of_Z_half; [done | | ].
    - pose proof (triangle_double n). nia.
    - rewrite triangle_double. lia. }
  assert (Hpos : 0 < n * (n + 1) / 2).
  { fold (triangle n). pose proof (triangle_double n). nia. }
  split_and!; [| |done|done|].
  - intros fuel. unfold sumIteratively. cbn [sumIteratively_loop]. by rewrite Hofn.
  - unfold sumWithReduce, Array_from_length. by rewrite Hofn.
  - rewrite Hformula. fold (triangle n) in Hpos |- *.
    assert (Hlt : triangle n < 2 ^ 53) by (pose proof (triangle_double n); nia).
    destruct (represents_exists (triangle n)) as (mt & et & Ht); [lia|].
    change (ofZ (triangle n)) with (of_Z (triangle n)).
    by rewrite (of_Z_represents _ _ _ Ht).
Qed.

Lemma sums_disagree_on_negative_integers_witness :
  sumWithFormula (ofZ (R:=number) (-5)) = ofZ (-5 * (-5 + 1) / 2)
  ∧ sumWithReduce (ofZ (R:=number) (-5)) = Return (ofZ 0).
Proof.
  destruct (sums_disagree_on_negative_integers (-5)) as (_ & Hreduce & Hformula & _);
    [lia | by vm_compute | by split].
Defined.

End Binary64Sums.

Module Binary64Floor.
Import Binary64 Binary64Facts Binary64Rounding.

(** *** Numbers between two integers *)

(** [<=] on a normal number and a number is [<=] on their values. *)
Lemma leb_value (m1 m2 : positive) (e1 e2 : Z) :
  Z.pos (digits2_pos m1) = 53 → -1074 ≤ e1 →
  bounded prec emax m2 e2 = true →
  SFleb (S754_finite false m1 e1) (S754_finite false m2 e2) = true
  ↔ (value (S754_finite false m1 e1) <= value (S754_finite false m2 e2))%Q.
Proof.
  intros Hd1 He1 [Hcanon _]%bounded_spec.
  pose proof (normal_bounds m1 Hd1) as [Hlo1 Hhi1].
  pose proof (digits_bounds m2) as [Hlo2 Hhi2].
  set (E := Z.min e1 e2).
  rewrite (value_finite m1 e1 E), (value_finite m2 e2 E) by lia.
  rewrite Qmult_le_r by apply bpow_pos. rewrite <- Zle_Qle.
  change (2 ^ 53) with (2 * 2 ^ 52) in *.
  unfold SFleb, SFcompare.
  destruct (Z.compare_spec e1 e2) as [Heq | Hlt | Hgt].
  - subst e2. replace (e1 - E) with 0 by lia. rewrite !Z.mul_1_r.
    rewrite Pos.compare_cont_spec. unfold Pos.switch_Eq.
    change (m1 ?= m2)%positive with (Z.pos m1 ?= Z.pos m2).
    destruct (Z.compare_spec (Z.pos m1) (Z.pos m2)); split; intros; try done; lia.
  - split; [intros _ | done].
    replace (e1 - E) with 0 by lia. rewrite Z.mul_1_r.
    assert (Hd2 : Z.pos (digits2_pos m2) = 53) by lia.
    rewrite Hd2 in Hlo2. change (53 - 1) with 52 in Hlo2.
    assert (2 ^ 1 ≤ 2 ^ (e2 - E)) by (apply Z.pow_le_mono_r; lia).
    change (2 ^ 1) with 2 in *. nia.
  - split; [done | intros Hle; exfalso].
    replace (e2 - E) with 0 in Hle by lia. rewrite Z.mul_1_r in Hle.
    assert (2 ^ 1 ≤ 2 ^ (e1 - E)) by (apply Z.pow_le_mono_r; lia).
    assert (2 ^ Z.pos (digits2_pos m2) ≤ 2 ^ 53)
      by (apply Z.pow_le_mono_r; lia).
    change (2 ^ 1) with 2 in *. change (2 ^ 53) with (2 * 2 ^ 52) in *. nia.
Qed.

(** An integer against a number between [k] and [k + 1]. *)
Lemma leb_floor (m : positive) (e k j : Z) :
  bounded prec emax m e = true →
  (inject_Z k <= value (S754_finite false m e) < inject_Z k + 1)%Q →
  1 ≤ j ≤ k + 1 → k + 1 < 2 ^ 53 →
  leb (ofZ j) (S754_finite false m e) = (j <=? k).
Proof.
  intros Hb [Hlo Hhi] Hj Hk.
  destruct (value_ofZ j) as (mj & ej & Hofj & Hdj & Hej & Hvj); [lia|].
  change (leb (ofZ j) ?x) with (SFleb (of_Z j) x). rewrite Hofj.
  pose proof (leb_value mj m ej e Hdj ltac:(lia) Hb) as Hleb. rewrite Hvj in Hleb.
  destruct (Z.leb_spec j k) as [Hle | Hgt].
  - apply Hleb. apply Qle_trans with (inject_Z k); [by rewrite <- Zle_Qle | done].
  - apply not_true_is_false. intros Htrue. apply Hleb in Htrue.
    assert (Hjk : (inject_Z k + 1 <= inject_Z j)%Q).
    { change 1%Q with (inject_Z 1). rewrite <- inject_Z_plus, <- Zle_Qle. lia. }
    lra.
Qed.

Lemma to_length_floor (m : positive) (e k : Z) :
  0 ≤ k < 2 ^ 53 →
  (inject_Z k <= value (S754_finite false m e) < inject_Z k + 1)%Q →
  to_length (S754_finite false m e) = k.
Proof.
  intros Hk [Hlo Hhi]. unfold to_length, truncate, cond_Zopp.
  assert (Htrunc : (if 0 <=? e then Z.pos m * 2 ^ e else Z.pos m / 2 ^ (- e)) = k).
  { destruct (Z.leb_spec 0 e) as [He | He].
    - rewrite (value_finite m e 0) in Hlo, Hhi by done.
      change (bpow 0) with 1%Q in Hlo, Hhi. rewrite Qmult_1_r in Hlo, Hhi.
      change 1%Q with (inject_Z 1) in Hhi.
      rewrite <- inject_Z_plus, <- Zlt_Qlt in Hhi. rewrite <- Zle_Qle in Hlo.
      rewrite Z.sub_0_r in Hlo, Hhi. lia.
    - pose proof (pow2_pos (- e) ltac:(lia)) as Hpow.
      assert (Hval : (value (S754_finite false m e) * inject_Z (2 ^ (- e))
                      == inject_Z (Z.pos m))%Q).
      { cbn [value cond_Zopp]. rewrite <- bpow_Z, <- Qmult_assoc by lia.
        rewrite bpow_opp. ring. }
      assert (HT : (0 < inject_Z (2 ^ (- e)))%Q) by (by rewrite <- (Zlt_Qlt 0)).
      set (v := value (S754_finite false m e)) in *.
      set (T := inject_Z (2 ^ (- e))) in *.
      assert (H1 : (inject_Z k * T <= inject_Z (Z.pos m))%Q) by nra.
      assert (H2 : (inject_Z (Z.pos m) < (inject_Z k + 1) * T)%Q) by nra.
      subst T. change 1%Q with (inject_Z 1) in H2.
      rewrite <- inject_Z_plus, <- inject_Z_mult, <- Zlt_Qlt in H2.
      rewrite <- inject_Z_mult, <- Zle_Qle in H1.
      symmetry. apply Z.div_unique with (Z.pos m - k * 2 ^ (- e)); lia. }
  rewrite Htrunc. lia.
Qed.

Lemma sumIteratively_loop_floor (n : number) (k : Z) (fuel : nat) (i : Z) :
  (∀ j, 1 ≤ j ≤ k + 1 → leb (ofZ j) n = (j <=? k)) →
  1 ≤ i ≤ k + 1 → k * (k + 1) < 2 ^ 53 →
  (Z.to_nat (k + 1 - i) < fuel)%nat →
  sumIteratively_loop fuel n (ofZ i) (ofZ (triangle (i - 1)))
  = Some (ofZ (R:=number) (triangle k)).
Proof.
  intros Hleb Hi Hk. revert i Hi.
  pose proof (small_root k) as Hroot. change (2 ^ 27) with 134217728 in Hroot.
  assert (H53 : 2 ^ 53 = 9007199254740992) by done.
  induction fuel as [|fuel IH]; intros i Hi Hfuel; [lia|].
  cbn [sumIteratively_loop].
  rewrite Hleb by lia.
  destruct (Z.leb_spec i k) as [Hle | Hgt].
  - pose proof (triangle_bound (i - 1) k ltac:(lia)).
    pose proof (triangle_bound i k ltac:(lia)).
    pose proof (triangle_succ (i - 1)) as Hsucc.
    replace (i - 1 + 1) with i in Hsucc by lia.
    rewrite !ofZ_add by lia. rewrite Hsucc.
    replace (triangle i) with (triangle (i + 1 - 1)) by (f_equal; lia).
    apply IH; lia.
  - by replace (i - 1) with k by lia.
Qed.

(** X18.  On binary64, a fractional [n] counts as its integer part in
    the two summing implementations: for a positive number [n] between
    the integers [k] and [k + 1], with [k * (k + 1) < 2^53],
    [sumIteratively(n)] (once its loop test has run [k + 1] times) and
    [sumWithReduce(n)] both return [k * (k + 1) / 2].
    [sumWithFormula] does not: for 2.5 it returns 4.375, where the two
    return 3. *)
Theorem sums_of_a_fraction_stop_at_its_integer_part (m : positive) (e k : Z) :
  valid_binary prec emax (S754_finite false m e) = true →
  0 ≤ k → k * (k + 1) < 2 ^ 53 →
  (inject_Z k <= value (S754_finite false m e) < inject_Z k + 1)%Q →
  (∀ fuel, (Z.to_nat k < fuel)%nat →
     sumIteratively (R:=number) fuel (S754_finite false m e)
     = Some (ofZ (k * (k + 1) / 2)))
  ∧ sumWithReduce (R:=number) (S754_finite false m e)
    = Return (ofZ (k * (k + 1) / 2))
  ∧ sumWithFormula (decimal (R:=number) 25 1) = decimal 4375 3
  ∧ sumWithReduce (decimal (R:=number) 25 1) = Return (ofZ 3).
Proof.
  intros Hvalid Hk Hbound Hbetween. fold (triangle k).
  pose proof (small_root k Hk Hbound) as Hroot.
  change (2 ^ 27) with 134217728 in Hroot.
  assert (H53 : 2 ^ 53 = 9007199254740992) by done.
  split_and!; [| |by vm_compute|by vm_compute].
  - intros fuel Hfuel. unfold sumIteratively.
    change (ofZ 0) with (ofZ (R:=number) (triangle (1 - 1))).
    apply sumIteratively_loop_floor; [|lia..].
    intros j Hj. apply leb_floor; [done | done | done | lia].
  - unfold sumWithReduce, Array_from_length.
    change (toLength ?x) with (to_length x).
    rewrite (to_length_floor m e k) by (done || lia).
    replace (2 ^ 32 - 1 <? k) with false by (symmetry; apply Z.ltb_ge; lia).
    replace (max_array_length <? k) with false
      by (symmetry; apply Z.ltb_ge; unfold max_array_length;
          change (2 ^ 27) with 134217728; lia).
    f_equal. change (ofZ 0) with (ofZ (R:=number) (triangle 0)).
    rewrite <- (Z2Nat.id k) at 1 2 by done.
    rewrite (reduce_exact (Z.to_nat k) 0);
      [|lia | rewrite Z2Nat.id by done; pose proof (triangle_bound k k ltac:(lia));
             change (0 + k) with k; lia].
    by rewrite Z2Nat.id.
Qed.

Lemma sums_of_a_fraction_stop_at_its_integer_part_witness :
  sumIteratively 10 (decimal (R:=number) 25 1) = Some (ofZ (2 * (2 + 1) / 2)).
Proof.
  refine (proj1 (sums_of_a_fraction_stop_at_its_integer_part
                   5629499534213120 (-51) 2 _ _ _ _) 10%nat _).
  - by vm_compute.
  - lia.
  - by vm_compute.
  - split; by vm_compute.
  - simpl. lia.
Defined.

End Binary64Floor.
